(** * CheckM, [checkm/markerGeneFinder.py]: the marker gene finder

    A shallow embedding of [MarkerGeneFinder]: the orchestrator [find], the
    worker loop [__processBin] and the progress reporter [__reportProgress],
    as a small-step transition system over the two queues, the managed
    dictionary and the process table, with the scheduler's choices and the
    outcomes of the external tools as inputs of the step function. *)

From Stdlib Require Import ZArith String Ascii List Lia.
From Stdlib Require Import Floats.
From stdpp Require Import gmap strings list.

Local Open Scope string_scope.
Local Open Scope Z_scope.
Local Open Scope list_scope.
Local Open Scope stdpp_scope.

(** ** Python values and built-ins used by the module *)

(** What may sit in [binFiles] and on [workerQueue]: a path, or [None]. *)
Inductive pyval : Type :=
| PyNone
| PyStr (s : string).

#[global] Instance pyval_eq_dec : EqDecision pyval.
Proof. solve_decision. Defined.

(** [v == None] *)
Definition eq_None (v : pyval) : bool :=
  match v with PyNone => true | PyStr _ => false end.

(** The exceptions that can end [find] or a worker. *)
Inductive exn : Type :=
| ZeroDivisionError
| OverflowError
| AttributeError
| OSError
| ToolError.

#[global] Instance exn_eq_dec : EqDecision exn.
Proof. solve_decision. Defined.

(** [a / b] on Python 2 ints: floor division, raising on a zero divisor. *)
Definition py_div (a b : Z) : exn + Z :=
  if b =? 0 then inl ZeroDivisionError else inr (a / b).

(** [str(n)] for an int. *)
Definition digit_char (d : Z) : ascii :=
  ascii_of_nat (48 + Z.to_nat d).

Fixpoint digits_go (fuel : nat) (n : Z) (acc : string) : string :=
  match fuel with
  | O => acc
  | S fuel' =>
      let acc' := String (digit_char (n mod 10)) acc in
      if n / 10 =? 0 then acc' else digits_go fuel' (n / 10) acc'
  end.

Definition digits (n : Z) : string :=
  digits_go (S (Z.to_nat (Z.log2 n))) n "".

Definition str (n : Z) : string :=
  if n <? 0 then String "-" (digits (- n)) else digits n.

(** [os.path.join] (posixpath). *)
Definition starts_with_slash (s : string) : bool :=
  match s with
  | String c _ => if ascii_dec c "/" then true else false
  | EmptyString => false
  end.

Fixpoint ends_with_slash (s : string) : bool :=
  match s with
  | EmptyString => false
  | String c EmptyString => if ascii_dec c "/" then true else false
  | String _ s' => ends_with_slash s'
  end.

Definition path_join2 (path b : string) : string :=
  if starts_with_slash b then b
  else if (String.eqb path "" || ends_with_slash path)%bool then path +:+ b
  else path +:+ "/" +:+ b.

Definition path_join (a : string) (p : list string) : string :=
  fold_left path_join2 p a.

(** Splitting a command line on blanks, as [str.split()] and the shell do. *)
Fixpoint split_go (s cur : string) : list string :=
  match s with
  | EmptyString => if String.eqb cur "" then [] else [cur]
  | String c s' =>
      if Ascii.eqb c " "
      then (if String.eqb cur "" then split_go s' "" else cur :: split_go s' "")
      else split_go s' (cur +:+ String c "")
  end.

Definition split (s : string) : list string := split_go s "".


(** ** The logging levels *)

Definition logging_DEBUG : Z := 10.
Definition logging_INFO : Z := 20.
Definition logging_WARNING : Z := 30.

(** ** ['%.2f' % x] on a double

    The double is taken apart into mantissa and exponent and the decimal is
    rounded on its exact value, ties to even, as the correctly rounded
    conversion of CPython does. *)

(** [float(n)] *)
Definition float_of_Z (n : Z) : float :=
  SF2Prim (binary_normalize prec emax n 0 false).

(** The exact value times [100], rounded to the nearest integer, ties to even. *)
Definition round_half_even (num den : Z) : Z :=
  let q := num / den in
  let r := num mod den in
  if 2 * r <? den then q
  else if den <? 2 * r then q + 1
  else if Z.even q then q else q + 1.

Definition two_digits (n : Z) : string :=
  String (digit_char (n / 10)) (String (digit_char (n mod 10)) "").

Definition fmt_hundredths (neg : bool) (h : Z) : string :=
  (if neg then "-" else "") +:+ str (h / 100) +:+ "." +:+ two_digits (h mod 100).

Definition fmt_2f (x : float) : string :=
  match Prim2SF x with
  | S754_zero s => fmt_hundredths s 0
  | S754_infinity s => if s then "-inf" else "inf"
  | S754_nan => "nan"
  | S754_finite s m e =>
      let h := if 0 <=? e
               then Z.pos m * 2 ^ e * 100
               else round_half_even (Z.pos m * 100) (2 ^ (- e)) in
      fmt_hundredths s h
  end.

(** [float(numProcessedBins)*100/numBins] *)
Definition percent (numProcessedBins numBins : Z) : float :=
  (float_of_Z numProcessedBins * float_of_Z 100 / float_of_Z numBins)%float.

(** A Python 2 integer is an [int], a machine word, or a [long] of any
    size. An [int] converts to a double as it is; a [long] too large for a
    double raises [OverflowError] when a float operation converts it. *)
Inductive pynum : Type :=
| PyInt (n : Z)
| PyLong (n : Z).

Definition num_val (v : pynum) : Z :=
  match v with PyInt n | PyLong n => n end.

(** The number a value denotes: an [int] while it fits the machine word
    (64 bits here; any width below 1024 bits gives the same conversions),
    a [long] beyond. *)
Definition py_number (n : Z) : pynum :=
  if Z.abs n <? 2 ^ 63 then PyInt n else PyLong n.

Coercion py_number : Z >-> pynum.

Definition py_float (v : pynum) : exn + float :=
  match v with
  | PyInt n => inr (float_of_Z n)
  | PyLong n =>
      match Prim2SF (float_of_Z n) with
      | S754_infinity _ => inl OverflowError
      | _ => inr (float_of_Z n)
      end
  end.


(** ** Collaborators

    The modules the finder imports: [common], [prodigal], [markerSets],
    [hmmerModelParser]. Their pure parts are taken as parameters. *)
Class Collaborators (models : Type) : Type := {
  (** [common.binIdFromFilename(binFile)] *)
  binIdFromFilename : string -> string;
  (** [ProdigalRunner(binDir).aaGeneFile] *)
  aaGeneFile : string -> string;
  (** [MarkerSetParser(threads).createHmmModelFile(binId, markerFile)]: the
      path of the temporary model file *)
  createHmmModelFile : Z -> string -> string -> string;
  (** [HmmModelParser(hmmModelFile).models()] *)
  parse_models : string -> models
}.

(** ** The finder object and the arguments of [find] *)

Record MarkerGeneFinder : Type := mkFinder {
  logger_level : Z;              (* self.logger.getEffectiveLevel() *)
  totalThreads : Z;
  threadsPerSearch : option Z    (* not set before find *)
}.

Definition init (level threads : Z) : MarkerGeneFinder :=
  mkFinder level threads None.

Record find_args : Type := mkArgs {
  binFiles : list pyval;
  outDir : string;
  tableOut : string;
  hmmerOut : string;
  markerFile : string;
  bKeepAlignment : bool;
  bNucORFs : bool
}.

(** [len(binFiles)] *)
Definition len {A} (l : list A) : Z := Z.of_nat (length l).

(** [range(n)] *)
Definition range (n : Z) : list nat := seq 0 (Z.to_nat n).

(** ** Processes *)

(** Where a worker process stands in [__processBin]. *)
Inductive wpc : Type :=
| WNew                                   (* Process object built, not started *)
| WStart                                 (* line 83 *)
| WGet                                   (* line 86, at queueIn.get *)
| WMkdir (binFile : string)              (* lines 90-92 *)
| WProdigal (binFile : string)           (* lines 95-97 *)
| WModels (binFile : string)             (* lines 100-104 *)
| WSearch (binFile hmmModelFile : string)  (* lines 107-116 *)
| WRemove (binFile hmmModelFile : string)  (* line 118 *)
| WPut (binFile : string)                (* line 120 *)
| WExit                                  (* left the loop by break *)
| WRaised (e : exn).                     (* ended by an uncaught exception *)

(** Where the reporter stands in [__reportProgress]. *)
Inductive rpc : Type :=
| RNew
| RStart                                 (* lines 125-129 *)
| RLoop (numProcessedBins : Z)           (* line 132, at queueIn.get *)
| RExit
| RRaised (e : exn).

(** Where [find] stands after the queues are seeded. *)
Inductive opc (models : Type) : Type :=
| OStartWriter                           (* line 62 *)
| OStartCalc (k : nat)                   (* lines 64-65 *)
| OJoinCalc (k : nat)                    (* lines 67-68 *)
| OPutNone                               (* line 70 *)
| OJoinWriter                            (* line 71 *)
| OCopy                                  (* lines 74-76 *)
| OReturn (d : gmap string models).      (* line 78 *)

Arguments OStartWriter {models}.
Arguments OStartCalc {models} k.
Arguments OJoinCalc {models} k.
Arguments OPutNone {models}.
Arguments OJoinWriter {models}.
Arguments OCopy {models}.
Arguments OReturn {models} d.

(** What the processes do to the outside, in the order it happens. *)
Inductive event : Type :=
| EvLogInfo (msg : string)
| EvGet (w : nat) (v : pyval)
| EvMakeSurePathExists (w : nat) (binDir : string)
| EvProdigalRun (w : nat) (binDir binFile : string) (bNucORFs : bool)
| EvCreateHmmModelFile (w : nat) (threads : Z) (binId markerFile : string)
| EvStore (w : nat) (binId : string)
| EvSearch (w : nat) (hmmModelFile aaFile tableOutPath hmmerOutPath cmdlineOptions : string)
           (bKeepAlignment : bool)
| EvRemove (w : nat) (path : string)
| EvPut (w : nat) (binId : string)
| EvSeen (item : option string).

Definition wfinished (pc : wpc) : bool :=
  match pc with WExit | WRaised _ => true | _ => false end.

Definition rfinished (pc : rpc) : bool :=
  match pc with RExit | RRaised _ => true | _ => false end.

(** Who takes the next step: [find] itself, the [i]-th process of
    [calcProc], or [writeProc]. *)
Inductive actor : Type :=
| Main
| Calc (i : nat)
| Writer.

(** What reaches the diagnostic stream: a string handed to
    [sys.stderr.write], or what [multiprocessing] prints there when a
    process ends by an uncaught exception, the line ['Process <name>:'] and
    the traceback. *)
Inductive chunk : Type :=
| Written (x : string)
| Traceback (p : actor) (e : exn).

(** ** The state of a run *)

Record state (models : Type) : Type := mkState {
  finder : MarkerGeneFinder;             (* self *)
  args : find_args;
  workerQueue : list pyval;
  writerQueue : list (option string);
  binIdToModels : gmap string models;
  calcProc : list wpc;
  writeProc : rpc;
  main : opc models;
  orfs : gset string;                    (* bin directories with called genes *)
  stderr : list chunk;                   (* the diagnostic stream, oldest first *)
  trace : list event                     (* oldest first *)
}.

Arguments mkState {models}.
Arguments finder {models}.
Arguments args {models}.
Arguments workerQueue {models}.
Arguments writerQueue {models}.
Arguments binIdToModels {models}.
Arguments calcProc {models}.
Arguments writeProc {models}.
Arguments main {models}.
Arguments orfs {models}.
Arguments stderr {models}.
Arguments trace {models}.

Section Updates.
Context {models : Type}.
Implicit Type s : state models.

Definition set_workerQueue (q : list pyval) s : state models :=
  mkState (finder s) (args s) q (writerQueue s) (binIdToModels s) (calcProc s)
          (writeProc s) (main s) (orfs s) (stderr s) (trace s).

Definition set_writerQueue (q : list (option string)) s : state models :=
  mkState (finder s) (args s) (workerQueue s) q (binIdToModels s) (calcProc s)
          (writeProc s) (main s) (orfs s) (stderr s) (trace s).

Definition set_binIdToModels (m : gmap string models) s : state models :=
  mkState (finder s) (args s) (workerQueue s) (writerQueue s) m (calcProc s)
          (writeProc s) (main s) (orfs s) (stderr s) (trace s).

Definition set_calc (i : nat) (pc : wpc) s : state models :=
  mkState (finder s) (args s) (workerQueue s) (writerQueue s) (binIdToModels s)
          (<[i:=pc]> (calcProc s)) (writeProc s) (main s) (orfs s) (stderr s) (trace s).

Definition set_writeProc (pc : rpc) s : state models :=
  mkState (finder s) (args s) (workerQueue s) (writerQueue s) (binIdToModels s)
          (calcProc s) pc (main s) (orfs s) (stderr s) (trace s).

Definition set_main (pc : opc models) s : state models :=
  mkState (finder s) (args s) (workerQueue s) (writerQueue s) (binIdToModels s)
          (calcProc s) (writeProc s) pc (orfs s) (stderr s) (trace s).

Definition set_orfs (o : gset string) s : state models :=
  mkState (finder s) (args s) (workerQueue s) (writerQueue s) (binIdToModels s)
          (calcProc s) (writeProc s) (main s) o (stderr s) (trace s).

(** [sys.stderr.write(x)] *)
Definition write (x : string) s : state models :=
  mkState (finder s) (args s) (workerQueue s) (writerQueue s) (binIdToModels s)
          (calcProc s) (writeProc s) (main s) (orfs s) (stderr s ++ [Written x])
          (trace s).

(** The process [p] ends by the uncaught exception [e]. *)
Definition print_exc (p : actor) (e : exn) s : state models :=
  mkState (finder s) (args s) (workerQueue s) (writerQueue s) (binIdToModels s)
          (calcProc s) (writeProc s) (main s) (orfs s) (stderr s ++ [Traceback p e])
          (trace s).

Definition emit (e : event) s : state models :=
  mkState (finder s) (args s) (workerQueue s) (writerQueue s) (binIdToModels s)
          (calcProc s) (writeProc s) (main s) (orfs s) (stderr s) (trace s ++ [e]).
End Updates.

(** ** The strings the module builds *)

(** ['\r'] and ['\n'] *)
Definition CR : string := String (ascii_of_nat 13) "".
Definition LF : string := String (ascii_of_nat 10) "".

(** Lines 111-115: the options handed to [hmmer.search]. *)
Definition keepAlignStr (bKeepAlignment : bool) : string :=
  if negb bKeepAlignment then "--noali" else "".

Definition cmdlineOptions (threads : Z) (bKeepAlignment : bool) : string :=
  "--cpu " +:+ str threads +:+ " --notextw -E 0.1 --domE 0.1 "
  +:+ keepAlignStr bKeepAlignment.

(** Lines 127 and 138: the status line. The division converts [numBins] to
    a double, which raises for a [long] too large for one, and then raises
    on zero. *)
Definition status_text (numProcessedBins numBins : Z) : string :=
  "    Finished processing " +:+ str numProcessedBins +:+ " of "
  +:+ str numBins +:+ " (" +:+ fmt_2f (percent numProcessedBins numBins)
  +:+ "%) bins.".

Definition statusStr (numProcessedBins : Z) (numBins : pynum) : exn + string :=
  match py_float numBins with
  | inl e => inl e
  | inr _ =>
      if num_val numBins =? 0 then inl ZeroDivisionError
      else inr (status_text numProcessedBins (num_val numBins))
  end.

(** Line 46: the message handed to [logger.info]. *)
Definition infoMsg (numBins threads : Z) : string :=
  "  Identifying marker genes in " +:+ str numBins +:+ " bins with "
  +:+ str threads +:+ " threads:".

(** [self.logger.getEffectiveLevel() <= logging.INFO] *)
Definition verbose (self : MarkerGeneFinder) : bool :=
  logger_level self <=? logging_INFO.

(** ** The transition system *)

Section Finder.
Context {models : Type} `{!Collaborators models}.
Implicit Type s : state models.

(** Lines 90-91. *)
Definition binDir_of (a : find_args) (binFile : string) : string :=
  path_join (outDir a) ["bins"; binIdFromFilename binFile].

(** Lines 45-60 of [find]: the thread budget, the two queues, the managed
    dictionary and the process objects. [world] is the set of bin
    directories whose genes are already called when [find] is entered. *)
Definition find_start (self : MarkerGeneFinder) (a : find_args)
    (world : gset string) : exn + state models :=
  match py_div (totalThreads self) (len (binFiles a)) with
  | inl e => inl e
  | inr q =>
      let self' := mkFinder (logger_level self) (totalThreads self)
                            (Some (Z.max 1 q)) in
      let workerQueue0 := fold_left (fun q binFile => q ++ [binFile]) (binFiles a) [] in
      let workerQueue1 :=
        fold_left (fun q _ => q ++ [PyNone]) (range (totalThreads self)) workerQueue0 in
      let calcProc0 := map (fun _ => WNew) (range (totalThreads self)) in
      inr (mkState self' a workerQueue1 [] ∅ calcProc0 RNew OStartWriter world []
             (if verbose self
              then [EvLogInfo (infoMsg (len (binFiles a)) (totalThreads self))]
              else []))
  end.

(** An uncaught exception ends the process it is raised in, after the
    traceback is printed to the diagnostic stream. *)
Definition raise_calc (i : nat) (e : exn) s : state models :=
  set_calc i (WRaised e) (print_exc (Calc i) e s).

Definition raise_writer (e : exn) s : state models :=
  set_writeProc (RRaised e) (print_exc Writer e s).

(** One step of the [i]-th worker, lines 83-120. [ok] tells whether the
    external call of the step succeeds; a failing call raises. The step is
    [None] when the process cannot move: not started, ended, or blocked in
    [get] on an empty queue. *)
Definition step_calc (i : nat) (ok : bool) s : option (state models) :=
  match calcProc s !! i with
  | None | Some WNew | Some WExit | Some (WRaised _) => None
  | Some WStart =>
      match threadsPerSearch (finder s) with
      | Some _ => Some (set_calc i WGet s)
      | None => Some (raise_calc i AttributeError s)
      end
  | Some WGet =>
      match workerQueue s with
      | [] => None
      | binFile :: q =>
          let s1 := emit (EvGet i binFile) (set_workerQueue q s) in
          match binFile with
          | PyNone => Some (set_calc i WExit s1)            (* binFile == None *)
          | PyStr f => Some (set_calc i (WMkdir f) s1)
          end
      end
  | Some (WMkdir f) =>
      let s1 := emit (EvMakeSurePathExists i (binDir_of (args s) f)) s in
      if ok then Some (set_calc i (WProdigal f) s1)
      else Some (raise_calc i OSError s1)
  | Some (WProdigal f) =>
      let binDir := binDir_of (args s) f in
      if decide (binDir ∈ orfs s)                           (* areORFsCalled() *)
      then Some (set_calc i (WModels f) s)
      else
        let s1 := emit (EvProdigalRun i binDir f (bNucORFs (args s))) s in
        if ok then Some (set_calc i (WModels f) (set_orfs ({[binDir]} ∪ orfs s) s1))
        else Some (raise_calc i ToolError s1)
  | Some (WModels f) =>
      match threadsPerSearch (finder s) with
      | None => Some (raise_calc i AttributeError s)
      | Some threads =>
          let binId := binIdFromFilename f in
          let s1 := emit (EvCreateHmmModelFile i threads binId (markerFile (args s))) s in
          if ok then
            let hmmModelFile := createHmmModelFile threads binId (markerFile (args s)) in
            Some (set_calc i (WSearch f hmmModelFile)
                    (emit (EvStore i binId)
                       (set_binIdToModels
                          (<[binId := parse_models hmmModelFile]> (binIdToModels s)) s1)))
          else Some (raise_calc i ToolError s1)
      end
  | Some (WSearch f hmmModelFile) =>
      match threadsPerSearch (finder s) with
      | None => Some (raise_calc i AttributeError s)
      | Some threads =>
          let binDir := binDir_of (args s) f in
          let s1 :=
            emit (EvSearch i hmmModelFile (aaGeneFile binDir)
                    (path_join binDir [tableOut (args s)])
                    (path_join binDir [hmmerOut (args s)])
                    (cmdlineOptions threads (bKeepAlignment (args s)))
                    (bKeepAlignment (args s))) s in
          if ok then Some (set_calc i (WRemove f hmmModelFile) s1)
          else Some (raise_calc i ToolError s1)
      end
  | Some (WRemove f hmmModelFile) =>
      let s1 := emit (EvRemove i hmmModelFile) s in
      if ok then Some (set_calc i (WPut f) s1)
      else Some (raise_calc i OSError s1)
  | Some (WPut f) =>
      let binId := binIdFromFilename f in
      Some (set_calc i WGet
              (emit (EvPut i binId) (set_writerQueue (writerQueue s ++ [Some binId]) s)))
  end.

(** One step of the reporter, lines 125-143, with
    [numBins = len(binFiles)], an [int], as line 60 passes it. *)
Definition step_writer s : option (state models) :=
  let numBins := PyInt (len (binFiles (args s))) in
  match writeProc s with
  | RNew | RExit | RRaised _ => None
  | RStart =>
      if verbose (finder s) then
        match statusStr 0 numBins with
        | inl e => Some (raise_writer e s)
        | inr statusStr => Some (set_writeProc (RLoop 0) (write (statusStr +:+ CR) s))
        end
      else Some (set_writeProc (RLoop 0) s)
  | RLoop numProcessedBins =>
      match writerQueue s with
      | [] => None
      | binId :: q =>
          let s1 := emit (EvSeen binId) (set_writerQueue q s) in
          match binId with
          | None =>                                         (* binId == None *)
              if verbose (finder s)
              then Some (set_writeProc RExit (write LF s1))
              else Some (set_writeProc RExit s1)
          | Some _ =>
              if verbose (finder s) then
                match statusStr (numProcessedBins + 1) numBins with
                | inl e => Some (raise_writer e s1)
                | inr statusStr =>
                    Some (set_writeProc (RLoop (numProcessedBins + 1))
                            (write (statusStr +:+ CR) s1))
                end
              else Some (set_writeProc (RLoop numProcessedBins) s1)
          end
      end
  end.

(** The loop heads of lines 64 and 67. *)
Definition join_from (n k : nat) : opc models :=
  if (k <? n)%nat then OJoinCalc k else OPutNone.

Definition start_from (n k : nat) : opc models :=
  if (k <? n)%nat then OStartCalc k else join_from n 0.

(** Lines 74-76. *)
Definition copy_dict (m : gmap string models) : gmap string models :=
  fold_left (fun d binId =>
               match m !! binId with
               | Some v => <[binId := v]> d
               | None => d
               end)
            (map fst (map_to_list m)) ∅.

(** One step of [find], lines 62-78. *)
Definition step_main s : option (state models) :=
  let n := length (calcProc s) in
  match main s with
  | OStartWriter => Some (set_main (start_from n 0) (set_writeProc RStart s))
  | OStartCalc k => Some (set_main (start_from n (S k)) (set_calc k WStart s))
  | OJoinCalc k =>
      match calcProc s !! k with
      | Some pc => if wfinished pc then Some (set_main (join_from n (S k)) s) else None
      | None => None
      end
  | OPutNone => Some (set_main OJoinWriter (set_writerQueue (writerQueue s ++ [None]) s))
  | OJoinWriter => if rfinished (writeProc s) then Some (set_main OCopy s) else None
  | OCopy => Some (set_main (OReturn (copy_dict (binIdToModels s))) s)
  | OReturn _ => None
  end.

Definition step (a : actor) (ok : bool) s : option (state models) :=
  match a with
  | Main => step_main s
  | Calc i => step_calc i ok s
  | Writer => step_writer s
  end.

(** A schedule names, step by step, who moves and whether its external
    call succeeds. [run] is [None] when the schedule asks a process to move
    that cannot. *)
Fixpoint run (sched : list (actor * bool)) s : option (state models) :=
  match sched with
  | [] => Some s
  | (a, ok) :: sched' =>
      match step a ok s with
      | Some s' => run sched' s'
      | None => None
      end
  end.

(** [find] under a schedule: the exception of line 45, the dictionary of
    line 78, or nothing when the schedule does not reach the return. *)
Definition find (self : MarkerGeneFinder) (a : find_args) (world : gset string)
    (sched : list (actor * bool)) : option (exn + gmap string models) :=
  match find_start self a world with
  | inl e => Some (inl e)
  | inr s0 =>
      match run sched s0 with
      | Some s => match main s with OReturn d => Some (inr d) | _ => None end
      | None => None
      end
  end.

(** The state lines 45-60 leave, and the state a schedule leads to from
    there; when [find] raises, or the schedule cannot be followed, the
    state before. *)
Definition start_state (self : MarkerGeneFinder) (a : find_args)
    (world : gset string) : state models :=
  match find_start self a world with
  | inr s0 => s0
  | inl _ => mkState self a [] [] ∅ [] RNew OStartWriter world [] []
  end.

Definition state_after (self : MarkerGeneFinder) (a : find_args)
    (world : gset string) (sched : list (actor * bool)) : state models :=
  match run sched (start_state self a world) with
  | Some s => s
  | None => start_state self a world
  end.

(** [__reportProgress] run alone on what it dequeues, lines 122-143: the
    writes it makes, or the exception that ends it. *)
Fixpoint reportLoop (v : bool) (numProcessedBins : Z) (numBins : pynum)
    (queueIn : list (option string)) : exn + list string :=
  match queueIn with
  | [] => inr []
  | None :: _ => inr (if v then [LF] else [])
  | Some _ :: q =>
      if v then
        match statusStr (numProcessedBins + 1) numBins with
        | inl e => inl e
        | inr st =>
            match reportLoop v (numProcessedBins + 1) numBins q with
            | inl e => inl e
            | inr out => inr ((st +:+ CR) :: out)
            end
        end
      else reportLoop v numProcessedBins numBins q
  end.

Definition reportProgress (self : MarkerGeneFinder) (numBins : pynum)
    (queueIn : list (option string)) : exn + list string :=
  if verbose self then
    match statusStr 0 numBins with
    | inl e => inl e
    | inr st =>
        match reportLoop true 0 numBins queueIn with
        | inl e => inl e
        | inr out => inr ((st +:+ CR) :: out)
        end
    end
  else reportLoop false 0 numBins queueIn.
End Finder.

(** ** Reading a trace *)

(** What the workers dequeued, what they stored, what they reported as
    done, and what the reporter dequeued, each in the order it happened. *)
Definition gets (tr : list event) : list pyval :=
  omap (fun e => match e with EvGet _ v => Some v | _ => None end) tr.

Definition stores (tr : list event) : list string :=
  omap (fun e => match e with EvStore _ b => Some b | _ => None end) tr.

Definition puts (tr : list event) : list string :=
  omap (fun e => match e with EvPut _ b => Some b | _ => None end) tr.

Definition seens (tr : list event) : list (option string) :=
  omap (fun e => match e with EvSeen x => Some x | _ => None end) tr.

(** The calls of [hmmer.search] made: the model file, the gene file, the
    two outputs, the options and the flag. *)
Definition searches (tr : list event)
    : list (string * string * string * string * string * bool) :=
  omap (fun e => match e with
                 | EvSearch _ h aa t o opts keep => Some (h, aa, t, o, opts, keep)
                 | _ => None
                 end) tr.

(** The bin directories the gene caller was run on. *)
Definition prodigal_runs (tr : list event) : list string :=
  omap (fun e => match e with EvProdigalRun _ d _ _ => Some d | _ => None end) tr.

(** The strings written to the diagnostic stream, and the processes whose
    traceback was printed there. *)
Definition written (out : list chunk) : list string :=
  omap (fun c => match c with Written x => Some x | _ => None end) out.

Definition tracebacks (out : list chunk) : list (actor * exn) :=
  omap (fun c => match c with Traceback p e => Some (p, e) | _ => None end) out.

(** The messages handed to [logger.info]. *)
Definition logs (tr : list event) : list string :=
  omap (fun e => match e with EvLogInfo msg => Some msg | _ => None end) tr.

(** The paths among queue entries. *)
Definition paths (l : list pyval) : list string :=
  omap (fun v => match v with PyStr f => Some f | PyNone => None end) l.

(** The notifications among the entries of the completion queue. *)
Definition notes (l : list (option string)) : list string := omap id l.

(** The job a worker holds, and whether its models are stored already. *)
Definition wjob (pc : wpc) : list string :=
  match pc with
  | WMkdir f | WProdigal f | WModels f | WSearch f _ | WRemove f _ | WPut f => [f]
  | _ => []
  end.

Definition wstored (pc : wpc) : list string :=
  match pc with
  | WSearch f _ | WRemove f _ | WPut f => [f]
  | _ => []
  end.


(** The status lines for [done = 0 .. k], each with its carriage return. *)
Definition status_line (done numBins : Z) : string :=
  status_text done numBins +:+ CR.

Definition status_lines (numBins : Z) (k : nat) : list string :=
  map (fun d => status_line (Z.of_nat d) numBins) (seq 0 (S k)).

(** ** A measure of the work left *)

Definition wrank (pc : wpc) : nat :=
  match pc with
  | WNew => 2 | WStart => 1 | WGet => 0
  | WMkdir _ => 7 | WProdigal _ => 6 | WModels _ => 5
  | WSearch _ _ => 4 | WRemove _ _ => 3 | WPut _ => 2
  | WExit | WRaised _ => 0
  end.

Definition rrank (pc : rpc) : nat :=
  match pc with RNew => 2 | RStart => 1 | _ => 0 end.

Definition orank {models} (n : nat) (pc : opc models) : nat :=
  match pc with
  | OStartWriter => 8 + 3 * n
  | OStartCalc k => 6 + n + 2 * (n - k)
  | OJoinCalc k => 5 + (n - k)
  | OPutNone => 4
  | OJoinWriter => 2
  | OCopy => 1
  | OReturn _ => 0
  end.

Definition measure {models} (s : state models) : nat :=
  orank (length (calcProc s)) (main s) + 8 * length (workerQueue s)
  + sum_list_with wrank (calcProc s) + rrank (writeProc s) + length (writerQueue s).

(** Every outcome of a schedule is a success. *)
Definition no_failure (sched : list (actor * bool)) : Prop :=
  Forall (fun p => p.2 = true) sched.

(** ** Invariants of a run *)

(** The workers from the [k]-th on are not started, the others are. *)
Definition started_below (k : nat) (l : list wpc) : Prop :=
  forall j pc, l !! j = Some pc -> (pc = WNew <-> (k <= j)%nat).

(** The workers before the [k]-th have ended. *)
Definition ended_below (k : nat) (l : list wpc) : Prop :=
  forall j pc, l !! j = Some pc -> (j < k)%nat -> wfinished pc = true.

Definition unfinished (l : list wpc) : nat :=
  sum_list_with (fun pc => if wfinished pc then 0 else 1)%nat l.

Definition count_None (q : list pyval) : nat :=
  sum_list_with (fun v => if eq_None v then 1 else 0)%nat q.

(** The workers that left their loop by [break]. *)
Definition exited (l : list wpc) : nat :=
  sum_list_with (fun pc => match pc with WExit => 1 | _ => 0 end)%nat l.

Section Invariants.
Context {models : Type} `{!Collaborators models}.
Implicit Type s : state models.

(** Line 45 has run, on a list that is not empty. *)
Definition inv_self s : Prop :=
  is_Some (threadsPerSearch (finder s)) /\ binFiles (args s) <> [].

(** How far [find] is, against what the processes can be doing. *)
Definition inv_main s : Prop :=
  let n := length (calcProc s) in
  match main s with
  | OStartWriter => writeProc s = RNew /\ started_below 0 (calcProc s)
  | OStartCalc k =>
      writeProc s <> RNew /\ (k < n)%nat /\ started_below k (calcProc s)
  | OJoinCalc k =>
      writeProc s <> RNew /\ (k < n)%nat /\ started_below n (calcProc s)
      /\ ended_below k (calcProc s)
  | _ => writeProc s <> RNew /\ ended_below n (calcProc s)
  end.

(** The sentinel of the completion queue. *)
Definition inv_sentinel s : Prop :=
  match main s with
  | OStartWriter | OStartCalc _ | OJoinCalc _ | OPutNone =>
      (None ∉ writerQueue s) /\ rfinished (writeProc s) = false
  | OJoinWriter =>
      (exists ids, writerQueue s = (Some <$> ids) ++ [None]
                   /\ rfinished (writeProc s) = false)
      \/ (writerQueue s = [] /\ rfinished (writeProc s) = true)
  | OCopy | OReturn _ => writerQueue s = [] /\ rfinished (writeProc s) = true
  end.

(** What the reporter has seen and written. *)
Definition inv_report s : Prop :=
  let numBins := len (binFiles (args s)) in
  let v := verbose (finder s) in
  match writeProc s with
  | RNew | RStart => seens (trace s) = [] /\ written (stderr s) = []
  | RLoop n =>
      exists ids, seens (trace s) = Some <$> ids
                  /\ n = (if v then len ids else 0)
                  /\ written (stderr s)
                     = (if v then status_lines numBins (length ids) else [])
  | RExit =>
      exists ids, seens (trace s) = (Some <$> ids) ++ [None]
                  /\ written (stderr s)
                     = (if v then status_lines numBins (length ids) ++ [LF] else [])
  | RRaised _ => False
  end.

(** Every notification put is seen or still queued, in order. *)
Definition inv_notes s : Prop :=
  notes (seens (trace s)) ++ notes (writerQueue s) = puts (trace s).

(** The work queue is first in, first out. *)
Definition inv_queue (queue0 : list pyval) s : Prop :=
  gets (trace s) ++ workerQueue s = queue0.

(** A sentinel is left for every worker that has not ended. *)
Definition inv_sentinels s : Prop :=
  (unfinished (calcProc s) <= count_None (workerQueue s))%nat.

(** A worker that left its loop dequeued a [None]. *)
Definition inv_exit s : Prop :=
  forall i, calcProc s !! i = Some WExit -> PyNone ∈ gets (trace s).

(** The keys of the dictionary are the identifiers stored. *)
Definition inv_dict s : Prop :=
  dom (binIdToModels s) = list_to_set (stores (trace s)).

(** Without failures: no worker has raised, every job dequeued is in a
    worker's hands or reported done, and every identifier stored belongs
    to a job past line 104 or reported done. *)
Definition inv_jobs s : Prop :=
  Forall (fun pc => forall e, pc <> WRaised e) (calcProc s)
  /\ binIdFromFilename <$> paths (gets (trace s))
     ≡ₚ puts (trace s) ++ (binIdFromFilename <$> (calcProc s ≫= wjob))
  /\ stores (trace s)
     ≡ₚ puts (trace s) ++ (binIdFromFilename <$> (calcProc s ≫= wstored)).

(** The models of a job past line 104 are in the dictionary. *)
Definition inv_stored s : Prop :=
  forall i pc f, calcProc s !! i = Some pc -> f ∈ wstored pc ->
                 binIdFromFilename f ∈ dom (binIdToModels s).

(** What a worker's move from [pc] to [pc'] adds to the entries dequeued,
    to the notifications put and to the identifiers stored. *)
Definition delta_gets (pc pc' : wpc) : list pyval :=
  match pc, pc' with
  | WGet, WExit => [PyNone]
  | WGet, WMkdir f => [PyStr f]
  | _, _ => []
  end.

Definition delta_puts (pc : wpc) : list string :=
  match pc with WPut f => [binIdFromFilename f] | _ => [] end.

Definition delta_stores (pc pc' : wpc) : list string :=
  match pc, pc' with
  | WModels f, WSearch _ _ => [binIdFromFilename f]
  | _, _ => []
  end.


(** All of it, for a run that started from [queue0]. *)
Definition inv (queue0 : list pyval) s : Prop :=
  inv_self s /\ inv_main s /\ inv_sentinel s /\ inv_report s /\ inv_notes s
  /\ inv_queue queue0 s /\ inv_sentinels s /\ inv_exit s /\ inv_dict s
  /\ inv_stored s.

(** With or without failures: every identifier stored is that of a path
    dequeued, every job in a worker's hands was dequeued, and every
    completion notified was stored before. *)
Definition inv_known s : Prop :=
  (forall b, b ∈ stores (trace s) ->
             b ∈ binIdFromFilename <$> paths (gets (trace s)))
  /\ (forall i pc f, calcProc s !! i = Some pc -> f ∈ wjob pc ->
                     f ∈ paths (gets (trace s)))
  /\ (forall b, b ∈ puts (trace s) -> b ∈ stores (trace s)).

(** No more jobs notified or in hand than paths dequeued. *)
Definition inv_count s : Prop :=
  (length (puts (trace s)) + length (calcProc s ≫= wjob)
   <= length (paths (gets (trace s))))%nat.

(** Lines 100-104 for one identifier: the models parsed from the model file
    made for it. *)
Definition models_of (threads : Z) (a : find_args) (binId : string) : models :=
  parse_models (createHmmModelFile threads binId (markerFile a)).

Definition inv_values s : Prop :=
  forall threads b v,
    threadsPerSearch (finder s) = Some threads -> binIdToModels s !! b = Some v ->
    v = models_of threads (args s) b.




(** The tracebacks in the diagnostic stream are those of the workers ended
    by an exception. *)
Definition inv_tracebacks s : Prop :=
  forall p e, Traceback p e ∈ stderr s
              <-> exists i, p = Calc i /\ calcProc s !! i = Some (WRaised e).

(** The states a schedule reaches from the start of [find]. *)
Definition reachable (self : MarkerGeneFinder) (a : find_args) (world : gset string)
    s : Prop :=
  exists s0 sched, find_start self a world = inr s0 /\ run sched s0 = Some s.

End Invariants.

(** ** A concrete setting for the examples *)

(** Modelled from the spec: the job identifier is a deterministic function of
    the file path; here the file name without directory and extension, the
    models of a bin are stood for by the path of its model file. *)
Fixpoint basename_go (s cur : string) : string :=
  match s with
  | EmptyString => cur
  | String c s' =>
      if Ascii.eqb c "/" then basename_go s' "" else basename_go s' (cur +:+ String c "")
  end.

Fixpoint strip_ext (s : string) : string :=
  match s with
  | EmptyString => ""
  | String c s' => if Ascii.eqb c "." then "" else String c (strip_ext s')
  end.

#[global] Instance example_collaborators : Collaborators string := {|
  binIdFromFilename f := strip_ext (basename_go f "");
  aaGeneFile binDir := path_join binDir ["genes.faa"];
  createHmmModelFile _ binId _ := "/tmp/" +:+ binId +:+ ".hmm";
  parse_models hmmModelFile := hmmModelFile
|}.

Definition example_args (files : list pyval) (keep : bool) : find_args :=
  mkArgs files "out" "hmmer.tsv" "hmmer.txt" "markers.hmm" keep false.

(** A schedule that lets worker [0] do all the jobs, one pipeline after the
    other, then lets every worker take its sentinel. *)
Definition serial_schedule (jobs workers : nat) : list (actor * bool) :=
  [(Main, true)]
  ++ map (fun _ => (Main, true)) (seq 0 workers)
  ++ [(Writer, true)]
  ++ map (fun i => (Calc i, true)) (seq 0 workers)
  ++ concat (map (fun _ => replicate 7 (Calc 0%nat, true)) (seq 0 jobs))
  ++ map (fun i => (Calc i, true)) (seq 0 workers)
  ++ map (fun _ => (Main, true)) (seq 0 workers)
  ++ [(Main, true)]
  ++ map (fun _ => (Writer, true)) (seq 0 (S jobs))
  ++ [(Main, true); (Main, true)].

(** Four bins, and schedules that stop one worker at lines 95-97 and at
    line 118, and that let [os.remove] fail on the first bin. *)
Definition four_bins : list string := ["in/a.fa"; "in/b.fa"; "in/c.fa"; "in/d.fa"].

Definition until_prodigal : list (actor * bool) :=
  [(Main, true); (Main, true); (Calc 0%nat, true); (Calc 0%nat, true);
   (Calc 0%nat, true)].

Definition until_remove : list (actor * bool) :=
  until_prodigal ++ [(Calc 0%nat, true); (Calc 0%nat, true); (Calc 0%nat, true)].

Definition remove_fails : list (actor * bool) :=
  until_remove
  ++ [(Calc 0%nat, false); (Main, true); (Main, true); (Writer, true); (Writer, true);
      (Main, true); (Main, true)].

(** Two workers that move in turn, worker [1] first, through [rounds] pairs
    of bins, the reporter keeping up after each pair. *)
Definition interleaved_schedule (rounds : nat) : list (actor * bool) :=
  [(Main, true); (Main, true); (Main, true); (Writer, true);
   (Calc 0%nat, true); (Calc 1%nat, true)]
  ++ concat (map (fun _ => concat (replicate 7 [(Calc 1%nat, true); (Calc 0%nat, true)])
                           ++ [(Writer, true); (Writer, true)])
               (seq 0 rounds))
  ++ [(Calc 1%nat, true); (Calc 0%nat, true); (Main, true); (Main, true); (Main, true);
      (Writer, true); (Main, true); (Main, true)].

(** Three bins, two of which have the same file name, and a schedule on
    which [makeSurePathExists] fails for the first bin taken. *)
Definition colliding_bins : list string := ["in/a.fa"; "other/a.fa"; "in/b.fa"].

Definition until_mkdir : list (actor * bool) :=
  [(Main, true); (Main, true); (Calc 0%nat, true); (Calc 0%nat, true)].

(** ** Examples of the built-ins *)

Example str_examples :
  str 0 = "0" /\ str 7 = "7" /\ str 10 = "10" /\ str 2048 = "2048" /\ str (-35) = "-35".
Proof. repeat split; reflexivity. Qed.

Example path_join_examples :
  path_join "out" ["bins"; "b1"] = "out/bins/b1" /\
  path_join "out/" ["bins"; "b1"] = "out/bins/b1" /\
  path_join "out" ["bins"; "/abs"] = "/abs".
Proof. repeat split; reflexivity. Qed.

Example split_example :
  split "--cpu 2  --notextw " = ["--cpu"; "2"; "--notextw"].
Proof. reflexivity. Qed.

Example fmt_2f_examples :
  fmt_2f (percent 1 4) = "25.00" /\
  fmt_2f (percent 1 3) = "33.33" /\
  fmt_2f (percent 2 3) = "66.67" /\
  fmt_2f (percent 1 32) = "3.12" /\
  fmt_2f (percent 3 20000) = "0.01" /\
  fmt_2f (percent 0 5) = "0.00" /\
  fmt_2f (percent 4 4) = "100.00".
Proof. repeat split; vm_compute; reflexivity. Qed.

(** ** Lists of processes and traces *)

Lemma sum_list_with_insert {A} (f : A -> nat) (l : list A) (i : nat) (x y : A) :
  l !! i = Some x ->
  (sum_list_with f (<[i:=y]> l) + f x = sum_list_with f l + f y)%nat.
Proof.
  revert i. induction l as [|a l IH]; intros [|i] Hi; simplify_eq/=; [lia|].
  specialize (IH _ Hi). lia.
Qed.

Lemma bind_insert_perm {A B} (g : A -> list B) (l : list A) (i : nat) (x y : A) :
  l !! i = Some x ->
  (<[i:=y]> l ≫= g) ++ g x ≡ₚ (l ≫= g) ++ g y.
Proof.
  revert i. induction l as [|a l IH]; intros [|i] Hi; simplify_eq/=.
  - solve_Permutation.
  - specialize (IH _ Hi). rewrite <- !(assoc_L (++)). by rewrite IH.
Qed.

Lemma bind_insert_same {A B} (g : A -> list B) (l : list A) (i : nat) (x y : A) :
  l !! i = Some x -> g y = g x -> <[i:=y]> l ≫= g = l ≫= g.
Proof.
  revert i. induction l as [|a l IH]; intros [|i] Hi Hg; simplify_eq/=.
  - by rewrite Hg.
  - by rewrite (IH _ Hi Hg).
Qed.

Lemma gets_snoc tr e :
  gets (tr ++ [e]) = gets tr ++ match e with EvGet _ v => [v] | _ => [] end.
Proof. unfold gets. rewrite omap_app. by destruct e. Qed.

Lemma stores_snoc tr e :
  stores (tr ++ [e]) = stores tr ++ match e with EvStore _ b => [b] | _ => [] end.
Proof. unfold stores. rewrite omap_app. by destruct e. Qed.

Lemma puts_snoc tr e :
  puts (tr ++ [e]) = puts tr ++ match e with EvPut _ b => [b] | _ => [] end.
Proof. unfold puts. rewrite omap_app. by destruct e. Qed.

Lemma seens_snoc tr e :
  seens (tr ++ [e]) = seens tr ++ match e with EvSeen x => [x] | _ => [] end.
Proof. unfold seens. rewrite omap_app. by destruct e. Qed.

Lemma prodigal_runs_snoc tr e :
  prodigal_runs (tr ++ [e])
  = prodigal_runs tr ++ match e with EvProdigalRun _ d _ _ => [d] | _ => [] end.
Proof. unfold prodigal_runs. rewrite omap_app. by destruct e. Qed.

Lemma searches_snoc tr e :
  searches (tr ++ [e])
  = searches tr ++ match e with
                   | EvSearch _ h aa t o opts keep => [(h, aa, t, o, opts, keep)]
                   | _ => []
                   end.
Proof. unfold searches. rewrite omap_app. by destruct e. Qed.

Lemma written_snoc out c :
  written (out ++ [c]) = written out ++ match c with Written x => [x] | _ => [] end.
Proof. unfold written. rewrite omap_app. by destruct c. Qed.

Lemma tracebacks_snoc out c :
  tracebacks (out ++ [c])
  = tracebacks out ++ match c with Traceback p e => [(p, e)] | _ => [] end.
Proof. unfold tracebacks. rewrite omap_app. by destruct c. Qed.

Lemma notes_app l1 l2 : notes (l1 ++ l2) = notes l1 ++ notes l2.
Proof. apply omap_app. Qed.

Lemma notes_Some ids : notes (Some <$> ids) = ids.
Proof. induction ids as [|x ids IH]; simpl; [done|]. by f_equal. Qed.

Lemma paths_app l1 l2 : paths (l1 ++ l2) = paths l1 ++ paths l2.
Proof. apply omap_app. Qed.

Lemma no_None_Some (q : list (option string)) :
  None ∉ q -> exists ids, q = Some <$> ids.
Proof.
  induction q as [|[x|] q IH]; intros Hq.
  - by exists [].
  - destruct IH as [ids ->]; [set_solver|]. by exists (x :: ids).
  - set_solver.
Qed.

Lemma status_lines_S numBins k :
  status_lines numBins (S k)
  = status_lines numBins k ++ [status_line (Z.of_nat (S k)) numBins].
Proof. unfold status_lines. rewrite (seq_S (S k)), map_app. done. Qed.

Ltac trace_simpl :=
  simpl;
  rewrite ?gets_snoc, ?stores_snoc, ?puts_snoc, ?seens_snoc, ?prodigal_runs_snoc,
    ?written_snoc, ?searches_snoc, ?notes_app, ?paths_app;
  simpl; rewrite ?app_nil_r.

(** ** Strings *)

Lemma append_cons (x : ascii) (a b : string) :
  String x a +:+ b = String x (a +:+ b).
Proof. reflexivity. Qed.

Lemma append_nil_l (b : string) : "" +:+ b = b.
Proof. reflexivity. Qed.

Lemma append_assoc_L (a b c : string) : (a +:+ b) +:+ c = a +:+ (b +:+ c).
Proof.
  induction a as [|x a IH]; [done|]. by rewrite !append_cons, IH.
Qed.













(** ** Doubles: rounding to 53 bits *)

Lemma digits2_pos_bounds (p : positive) :
  2 ^ (Z.pos (digits2_pos p) - 1) <= Z.pos p < 2 ^ Z.pos (digits2_pos p).
Proof.
  induction p as [p IH|p IH|]; cbn [digits2_pos].
  - rewrite Pos2Z.inj_succ.
    replace (Z.succ (Z.pos (digits2_pos p)) - 1) with (Z.succ (Z.pos (digits2_pos p) - 1))
      by lia.
    rewrite !Z.pow_succ_r by lia. lia.
  - rewrite Pos2Z.inj_succ.
    replace (Z.succ (Z.pos (digits2_pos p)) - 1) with (Z.succ (Z.pos (digits2_pos p) - 1))
      by lia.
    rewrite !Z.pow_succ_r by lia. lia.
  - simpl. lia.
Qed.

Lemma Zdigits2_unique (m d : Z) :
  2 ^ (d - 1) <= m < 2 ^ d -> 0 < d -> Zdigits2 m = d.
Proof.
  intros [Hlo Hhi] Hd.
  assert (0 < m) as Hm by (pose proof (Z.pow_pos_nonneg 2 (d - 1)); lia).
  destruct m as [|p|p]; try lia. cbn [Zdigits2].
  pose proof (digits2_pos_bounds p) as [Hlo' Hhi'].
  set (d' := Z.pos (digits2_pos p)) in *.
  assert (d' - 1 < d) by (apply (Z.pow_lt_mono_r_iff 2); lia).
  assert (d - 1 < d') by (apply (Z.pow_lt_mono_r_iff 2); lia).
  lia.
Qed.

Lemma shr_1_m (mrs : shr_record) :
  0 <= shr_m mrs -> shr_m (shr_1 mrs) = shr_m mrs / 2.
Proof.
  destruct mrs as [m r s]. cbn [shr_m]. intros Hm.
  destruct m as [|[p|p|]|p]; cbn [shr_1 shr_m]; try done; try lia.
  - apply (Z.div_unique _ 2 _ 1); lia.
  - apply (Z.div_unique _ 2 _ 0); lia.
Qed.

Lemma pow2_xI (p : positive) : 2 ^ Z.pos p~1 = 2 * (2 ^ Z.pos p * 2 ^ Z.pos p).
Proof.
  rewrite Pos2Z.inj_xI, Z.pow_add_r by lia.
  replace (2 * Z.pos p) with (Z.pos p + Z.pos p) by lia.
  rewrite Z.pow_add_r by lia. ring.
Qed.

Lemma pow2_xO (p : positive) : 2 ^ Z.pos p~0 = 2 ^ Z.pos p * 2 ^ Z.pos p.
Proof.
  replace (Z.pos p~0) with (Z.pos p + Z.pos p) by lia.
  by rewrite Z.pow_add_r by lia.
Qed.

Lemma iter_pos_shr_m (p : positive) (mrs : shr_record) :
  0 <= shr_m mrs ->
  shr_m (SpecFloat.iter_pos shr_1 p mrs) = shr_m mrs / 2 ^ Z.pos p.
Proof.
  revert mrs. induction p as [p IH|p IH|]; intros mrs Hm; cbn [SpecFloat.iter_pos].
  - assert (0 < 2 ^ Z.pos p) as Hp by (apply Z.pow_pos_nonneg; lia).
    assert (0 <= shr_m (shr_1 mrs)) as H1 by (rewrite shr_1_m by done; apply Z.div_pos; lia).
    assert (0 <= shr_m (SpecFloat.iter_pos shr_1 p (shr_1 mrs))) as H2.
    { rewrite IH by done. apply Z.div_pos; lia. }
    rewrite IH, IH, shr_1_m by done.
    rewrite pow2_xI, !Z.div_div by lia. try (f_equal; ring).
  - assert (0 < 2 ^ Z.pos p) as Hp by (apply Z.pow_pos_nonneg; lia).
    assert (0 <= shr_m (SpecFloat.iter_pos shr_1 p mrs)) as H2.
    { rewrite IH by done. apply Z.div_pos; lia. }
    rewrite IH, IH by done.
    rewrite pow2_xO, !Z.div_div by lia. done.
  - rewrite shr_1_m by done. done.
Qed.

Lemma shr_spec (mrs : shr_record) (e n : Z) :
  0 <= shr_m mrs -> 0 <= n ->
  snd (shr mrs e n) = e + n
  /\ shr_m (fst (shr mrs e n)) = shr_m mrs / 2 ^ n.
Proof.
  intros Hm Hn. destruct n as [|p|p]; [| |lia]; cbn [shr fst snd].
  - rewrite Z.pow_0_r, Z.div_1_r. lia.
  - by rewrite iter_pos_shr_m.
Qed.

Lemma shr_m_of_loc (m : Z) (l : location) : shr_m (shr_record_of_loc m l) = m.
Proof. by destruct l as [|[| |]]. Qed.

Lemma round_nearest_even_cases (m : Z) (l : location) :
  round_nearest_even m l = m \/ round_nearest_even m l = m + 1.
Proof. destruct l as [|[| |]]; cbn [round_nearest_even]; try case_match; auto. Qed.

(** A mantissa of [53 + k] bits is cut to 53 bits with an error below one
    unit in the last place; the mantissa that results has 53 bits. *)
Lemma binary_round_aux_normal (m e k : Z) (l : location) :
  0 <= k -> 2 ^ (52 + k) <= m < 2 ^ (53 + k) ->
  -1074 <= e + k -> e + k + 1 <= 971 ->
  exists (m' : positive) (c : Z),
    binary_round_aux prec emax false m e l = S754_finite false m' (e + k + c)
    /\ (c = 0 \/ c = 1)
    /\ 2 ^ 52 <= Z.pos m' < 2 ^ 53
    /\ (Z.pos m' * 2 ^ c = m / 2 ^ k \/ Z.pos m' * 2 ^ c = m / 2 ^ k + 1).
Proof.
  intros Hk Hm He1 He2.
  assert (0 < 2 ^ k) as Hpk by (apply Z.pow_pos_nonneg; lia).
  assert (Zdigits2 m = 53 + k) as Hd.
  { apply Zdigits2_unique; [|lia]. by replace (53 + k - 1) with (52 + k) by lia. }
  assert (2 ^ 52 <= m / 2 ^ k < 2 ^ 53) as Hm1.
  { rewrite !Z.pow_add_r in Hm by lia. split.
    - apply Z.div_le_lower_bound; lia.
    - apply Z.div_lt_upper_bound; lia. }
  unfold binary_round_aux, shr_fexp. rewrite Hd.
  assert (fexp prec emax (53 + k + e) - e = k) as ->.
  { unfold fexp, emin, prec, emax. lia. }
  destruct (shr_spec (shr_record_of_loc m l) e k) as [H1 H2];
    [rewrite shr_m_of_loc; lia|done|].
  destruct (shr (shr_record_of_loc m l) e k) as [mrs' e'] eqn:Hshr.
  cbn [fst snd] in H1, H2. rewrite shr_m_of_loc in H2. subst e'.
  set (r := round_nearest_even (shr_m mrs') (loc_of_shr_record mrs')).
  assert (r = m / 2 ^ k \/ r = m / 2 ^ k + 1) as Hr.
  { unfold r. rewrite <- H2. apply round_nearest_even_cases. }
  destruct (Z_lt_ge_dec r (2 ^ 53)) as [Hlt|Hge].
  - assert (Zdigits2 r = 53) as Hdr by (apply Zdigits2_unique; simpl; lia).
    rewrite Hdr.
    assert (fexp prec emax (53 + (e + k)) - (e + k) = 0) as ->.
    { unfold fexp, emin, prec, emax. lia. }
    cbn [shr shr_record_of_loc shr_m].
    destruct r as [|p|p] eqn:Hp; [lia| |lia].
    exists p, 0. replace (e + k + 0) with (e + k) by lia.
    assert ((e + k <=? emax - prec) = true) as ->
        by (unfold emax, prec; apply Z.leb_le; lia).
    split_and!; [done|by left|lia..|].
    rewrite Z.pow_0_r, Z.mul_1_r. done.
  - assert (r = 2 ^ 53) as Hr53 by lia.
    assert (Zdigits2 r = 54) as Hdr by (apply Zdigits2_unique; simpl; lia).
    rewrite Hdr.
    assert (fexp prec emax (54 + (e + k)) - (e + k) = 1) as ->.
    { unfold fexp, emin, prec, emax. lia. }
    destruct (shr_spec (shr_record_of_loc r loc_Exact) (e + k) 1) as [H3 H4];
      [cbn [shr_record_of_loc shr_m]; lia|lia|].
    destruct (shr (shr_record_of_loc r loc_Exact) (e + k) 1) as [mrs'' e''] eqn:Hshr2.
    cbn [fst snd] in H3, H4. cbn [shr_record_of_loc shr_m] in H4. subst e''.
    rewrite Hr53 in H4. change (2 ^ 53 / 2 ^ 1) with (2 ^ 52) in H4.
    rewrite H4. change (2 ^ 52) with (Z.pos (2 ^ 52)%positive).
    exists (2 ^ 52)%positive, 1.
    assert ((e + k + 1 <=? emax - prec) = true) as ->
        by (unfold emax, prec; apply Z.leb_le; lia).
    split_and!; [done|by right|simpl; lia..|].
    change (Z.pos (2 ^ 52) * 2 ^ 1) with (2 ^ 53). lia.
Qed.

Lemma finite_valid (m : positive) (e : Z) :
  2 ^ 52 <= Z.pos m < 2 ^ 53 -> -1074 <= e <= 971 ->
  valid_binary (S754_finite false m e) = true.
Proof.
  intros Hm He. cbn [valid_binary]. unfold bounded, canonical_mantissa.
  assert (Z.pos (digits2_pos m) = 53) as ->.
  { apply (Zdigits2_unique (Z.pos m)); simpl; lia. }
  apply andb_true_intro. split.
  - apply Z.eqb_eq. unfold fexp, emin, prec, emax. lia.
  - apply Z.leb_le. unfold prec, emax. lia.
Qed.

(** [float(n)] for [1 <= n < 2^1000] is a normal double. *)
Lemma float_of_Z_normal (n : Z) :
  1 <= n < 2 ^ 1000 ->
  exists (m : positive) (e : Z),
    Prim2SF (float_of_Z n) = S754_finite false m e
    /\ 2 ^ 52 <= Z.pos m < 2 ^ 53 /\ -52 <= e <= 948.
Proof.
  intros Hn. destruct n as [|p|p]; [lia| |lia].
  unfold float_of_Z. cbn [binary_normalize]. unfold binary_round.
  pose proof (digits2_pos_bounds p) as Hp.
  set (d := Z.pos (digits2_pos p)) in *.
  assert (0 < d) as Hd0 by (unfold d; lia).
  assert (d <= 1000) as Hd1.
  { assert (d - 1 < 1000); [|lia]. apply (Z.pow_lt_mono_r_iff 2); lia. }
  assert (fexp prec emax (d + 0) = d - 53) as ->
      by (unfold fexp, emin, prec, emax; lia).
  assert (exists (mz : positive) (ez k : Z),
             shl_align p 0 (d - 53) = (mz, ez) /\ 0 <= k
             /\ 2 ^ (52 + k) <= Z.pos mz < 2 ^ (53 + k)
             /\ -52 <= ez + k <= 947) as (mz & ez & k & -> & Hk & Hmz & Hez).
  { unfold shl_align. destruct (d - 53 - 0) as [|q|q] eqn:Hq.
    - exists p, 0, 0. split_and!; try done; try lia.
      + replace (52 + 0) with (d - 1) by lia. lia.
      + replace (53 + 0) with d by lia. lia.
    - exists p, 0, (Z.pos q). split_and!; try done; try lia.
      + replace (52 + Z.pos q) with (d - 1) by lia. lia.
      + replace (53 + Z.pos q) with d by lia. lia.
    - exists (shift_pos q p), (d - 53), 0. split_and!; try done; try lia.
      + rewrite shift_pos_correct. change (Z.pow_pos 2 q) with (2 ^ Z.pos q).
        replace (52 + 0) with (Z.pos q + (d - 1)) by lia.
        rewrite Z.pow_add_r by lia.
        apply Z.mul_le_mono_nonneg_l; [apply Z.pow_nonneg|]; lia.
      + rewrite shift_pos_correct. change (Z.pow_pos 2 q) with (2 ^ Z.pos q).
        replace (53 + 0) with (Z.pos q + d) by lia.
        rewrite Z.pow_add_r by lia.
        apply Z.mul_lt_mono_pos_l; [apply Z.pow_pos_nonneg|]; lia. }
  destruct (binary_round_aux_normal (Z.pos mz) ez k loc_Exact)
    as (m' & c & -> & Hc & Hm' & _); [lia..|].
  exists m', (ez + k + c). split; [|split; [done|lia]].
  apply Prim2SF_SF2Prim, finite_valid; [done|lia].
Qed.

Lemma round_half_even_near (num den q : Z) :
  0 < den -> 2 * Z.abs (num - q * den) < den -> round_half_even num den = q.
Proof.
  intros Hden Hnear. unfold round_half_even.
  pose proof (Z.div_mod num den ltac:(lia)) as Hdm.
  pose proof (Z.mod_pos_bound num den Hden) as Hr.
  set (q' := num / den) in *. set (r := num mod den) in *.
  assert (q' = q \/ q' = q - 1) as [->| ->] by nia.
  - assert ((2 * r <? den) = true) as -> by (apply Z.ltb_lt; nia). done.
  - assert ((2 * r <? den) = false) as -> by (apply Z.ltb_ge; nia).
    assert ((den <? 2 * r) = true) as -> by (apply Z.ltb_lt; nia). lia.
Qed.

Lemma float_100 :
  Prim2SF (float_of_Z 100) = S754_finite false 7036874417766400 (-46).
Proof. vm_compute. reflexivity. Qed.

(** [x * 100.0] for a normal double [x] that is not too large. *)
Lemma mul_100_normal (mx : positive) (ex : Z) :
  2 ^ 52 <= Z.pos mx < 2 ^ 53 -> -52 <= ex <= 948 ->
  exists (my : positive) (K : Z),
    SFmul prec emax (S754_finite false mx ex)
      (S754_finite false 7036874417766400 (-46))
    = S754_finite false my (ex - 46 + K)
    /\ 2 ^ 52 <= Z.pos my < 2 ^ 53 /\ (K = 52 \/ K = 53)
    /\ (Z.pos my - 1) * 2 ^ K <= Z.pos mx * 7036874417766400
       < (Z.pos my + 1) * 2 ^ K.
Proof.
  intros Hmx Hex. cbn [SFmul xorb]. rewrite Pos2Z.inj_mul.
  set (A := Z.pos mx) in *. set (P := A * 7036874417766400).
  change (2 ^ 52) with 4503599627370496 in *.
  change (2 ^ 53) with 9007199254740992 in *.
  destruct (Z_lt_ge_dec P (2 ^ 105)) as [Hlt|Hge].
  - destruct (binary_round_aux_normal P (ex + -46) 52 loc_Exact)
      as (my & c & Heq & Hc & Hmy & Hval); [lia| |lia|lia|].
    { change (2 ^ (52 + 52)) with 20282409603651670423947251286016.
      change (2 ^ (53 + 52)) with (2 ^ 105). unfold P. lia. }
    change (2 ^ 52) with 4503599627370496 in *.
    change (2 ^ 53) with 9007199254740992 in *.
    change (2 ^ 105) with 40564819207303340847894502572032 in *.
    pose proof (Z.div_mod P 4503599627370496 ltac:(lia)) as Hdm.
    pose proof (Z.mod_pos_bound P 4503599627370496 ltac:(lia)) as Hr.
    set (m1 := P / 4503599627370496) in *.
    set (r1 := P mod 4503599627370496) in *.
    exists my, (52 + c). replace (ex - 46 + (52 + c)) with (ex + -46 + 52 + c) by lia.
    split; [done|]. split; [done|].
    destruct Hc as [-> | ->].
    + split; [by left|]. change (2 ^ 0) with 1 in Hval.
      change (2 ^ (52 + 0)) with 4503599627370496. fold P. lia.
    + split; [by right|]. change (2 ^ 1) with 2 in Hval.
      change (2 ^ (52 + 1)) with 9007199254740992. fold P. lia.
  - destruct (binary_round_aux_normal P (ex + -46) 53 loc_Exact)
      as (my & c & Heq & Hc & Hmy & Hval); [lia| |lia|lia|].
    { change (2 ^ (52 + 53)) with (2 ^ 105).
      change (2 ^ (53 + 53)) with 81129638414606681695789005144064. unfold P. lia. }
    change (2 ^ 52) with 4503599627370496 in *.
    change (2 ^ 53) with 9007199254740992 in *.
    change (2 ^ 105) with 40564819207303340847894502572032 in *.
    pose proof (Z.div_mod P 9007199254740992 ltac:(lia)) as Hdm.
    pose proof (Z.mod_pos_bound P 9007199254740992 ltac:(lia)) as Hr.
    set (m1 := P / 9007199254740992) in *.
    set (r1 := P mod 9007199254740992) in *.
    assert (P < 9007199254740992 * 7036874417766400) as HP by (unfold P; lia).
    destruct Hc as [-> | ->].
    + exists my, 53. replace (ex - 46 + 53) with (ex + -46 + 53 + 0) by lia.
      split; [done|]. split; [done|]. split; [by right|].
      change (2 ^ 0) with 1 in Hval.
      change (2 ^ 53) with 9007199254740992. fold P. lia.
    + change (2 ^ 1) with 2 in Hval. lia.
Qed.

Lemma div_core_normal (my mx : positive) (ey ex : Z) :
  2 ^ 52 <= Z.pos my < 2 ^ 53 -> 2 ^ 52 <= Z.pos mx < 2 ^ 53 ->
  -1074 <= ey - ex - 53 ->
  exists (l : location),
    SFdiv_core_binary prec emax (Z.pos my) ey (Z.pos mx) ex
    = (Z.pos my * 2 ^ 53 / Z.pos mx, ey - ex - 53, l).
Proof.
  intros Hmy Hmx He. unfold SFdiv_core_binary.
  assert (Zdigits2 (Z.pos my) = 53) as -> by (apply Zdigits2_unique; simpl; lia).
  assert (Zdigits2 (Z.pos mx) = 53) as -> by (apply Zdigits2_unique; simpl; lia).
  cbv zeta.
  assert (Z.min (fexp prec emax (53 + ey - (53 + ex))) (ey - ex) = ey - ex - 53) as ->
      by (unfold fexp, emin, prec, emax; lia).
  replace (ey - ex - (ey - ex - 53)) with 53 by lia. cbv iota.
  rewrite Z.shiftl_mul_pow2 by lia.
  unfold Z.div.
  destruct (Z.div_eucl (Z.pos my * 2 ^ 53) (Z.pos mx)) as [q r].
  by eexists.
Qed.

(** [(x * 100.0) / x] is 100 up to three units in the last place. *)
Lemma div_100_back (mx my : positive) (ex K : Z) :
  2 ^ 52 <= Z.pos mx < 2 ^ 53 -> 2 ^ 52 <= Z.pos my < 2 ^ 53 ->
  K = 52 \/ K = 53 ->
  (Z.pos my - 1) * 2 ^ K <= Z.pos mx * 7036874417766400 < (Z.pos my + 1) * 2 ^ K ->
  exists mz : positive,
    SFdiv prec emax (S754_finite false my (ex - 46 + K)) (S754_finite false mx ex)
    = S754_finite false mz (-46)
    /\ Z.abs (Z.pos mz - 7036874417766400) <= 3.
Proof.
  intros Hmx Hmy HK HP. cbn [SFdiv xorb].
  destruct (div_core_normal my mx (ex - 46 + K) ex) as [l ->]; [done|done|lia|].
  replace (ex - 46 + K - ex - 53) with (K - 99) by lia.
  set (A := Z.pos mx) in *. set (B := Z.pos my) in *.
  change (2 ^ 52) with 4503599627370496 in *.
  change (2 ^ 53) with 9007199254740992 in *.
  pose proof (Z.div_mod (B * 9007199254740992) A ltac:(lia)) as Hdm.
  pose proof (Z.mod_pos_bound (B * 9007199254740992) A ltac:(lia)) as Hr.
  set (q := B * 9007199254740992 / A) in *.
  set (r := (B * 9007199254740992) mod A) in *.
  destruct HK as [-> | ->].
  - change (2 ^ 52) with 4503599627370496 in *.
    assert (2 * 7036874417766400 - 2 <= q <= 2 * 7036874417766400 + 2) as Hq by nia.
    destruct (binary_round_aux_normal q (52 - 99) 1 l)
      as (mz & c & -> & Hc & Hmz & Hval); [lia| |lia|lia|].
    { change (2 ^ (52 + 1)) with 9007199254740992.
      change (2 ^ (53 + 1)) with 18014398509481984. lia. }
    change (2 ^ 52) with 4503599627370496 in *.
    change (2 ^ 53) with 9007199254740992 in *.
    change (2 ^ 1) with 2 in Hval.
    pose proof (Z.div_mod q 2 ltac:(lia)) as Hdm2.
    pose proof (Z.mod_pos_bound q 2 ltac:(lia)) as Hr2.
    set (q2 := q / 2) in *. set (r2 := q mod 2) in *.
    destruct Hc as [-> | ->].
    + exists mz. split; [done|]. change (2 ^ 0) with 1 in Hval. lia.
    + change (2 ^ 1) with 2 in Hval. lia.
  - change (2 ^ 53) with 9007199254740992 in *.
    assert (7036874417766400 - 2 <= q <= 7036874417766400 + 2) as Hq by nia.
    destruct (binary_round_aux_normal q (53 - 99) 0 l)
      as (mz & c & -> & Hc & Hmz & Hval); [lia| |lia|lia|].
    { change (2 ^ (52 + 0)) with 4503599627370496.
      change (2 ^ (53 + 0)) with 9007199254740992. lia. }
    change (2 ^ 52) with 4503599627370496 in *.
    change (2 ^ 53) with 9007199254740992 in *.
    change (2 ^ 0) with 1 in Hval. rewrite Z.div_1_r in Hval.
    destruct Hc as [-> | ->].
    + exists mz. split; [done|]. change (2 ^ 0) with 1 in Hval. lia.
    + change (2 ^ 1) with 2 in Hval. lia.
Qed.

(** When every bin is done the percentage shown is [100.00]. *)
Lemma percent_all_done (n : Z) :
  1 <= n < 2 ^ 1000 -> fmt_2f (percent n n) = "100.00".
Proof.
  intros Hn. destruct (float_of_Z_normal n Hn) as (mx & ex & Hx & Hmx & Hex).
  destruct (mul_100_normal mx ex Hmx Hex) as (my & K & Hy & Hmy & HK & HP).
  destruct (div_100_back mx my ex K Hmx Hmy HK HP) as (mz & Hz & Hnear).
  unfold fmt_2f, percent.
  rewrite div_spec, mul_spec, Hx, float_100.
  unfold SF64div, SF64mul. rewrite Hy, Hz.
  change (0 <=? -46) with false. cbv iota.
  change (2 ^ (- -46)) with 70368744177664.
  rewrite (round_half_even_near _ _ 10000) by lia.
  vm_compute. reflexivity.
Qed.

Section FinderFacts.
Context {models : Type} `{!Collaborators models}.
Implicit Type s : state models.

Ltac step_cases :=
  unfold step, step_main, step_calc, step_writer, statusStr, raise_calc, raise_writer,
    py_float, num_val in *;
  simplify_eq/=; repeat (case_match; simplify_eq/=; try done).

(** *** What no step touches *)

Lemma step_frame a ok s s' :
  step a ok s = Some s' ->
  finder s' = finder s /\ args s' = args s
  /\ length (calcProc s') = length (calcProc s).
Proof. intros H. step_cases; rewrite ?length_insert; done. Qed.

Lemma run_invariant (P : state models -> Prop) :
  (forall a ok s s', P s -> step a ok s = Some s' -> P s') ->
  forall sched s s', P s -> run sched s = Some s' -> P s'.
Proof.
  intros Hstep sched. induction sched as [|[a ok] sched IH]; intros s s' HP Hrun;
    simplify_eq/=; [done|].
  destruct (step a ok s) as [s1|] eqn:Hs; [|done]. eauto.
Qed.

Lemma run_invariant_ok (P : state models -> Prop) :
  (forall a s s', P s -> step a true s = Some s' -> P s') ->
  forall sched s s', no_failure sched -> P s -> run sched s = Some s' -> P s'.
Proof.
  intros Hstep sched. induction sched as [|[a ok] sched IH]; intros s s' Hok HP Hrun;
    simplify_eq/=; [done|].
  apply Forall_cons in Hok as [Hok1 Hok]. simpl in Hok1. subst ok.
  destruct (step a true s) as [s1|] eqn:Hs; [|done]. eauto.
Qed.

Lemma run_app sched1 sched2 s :
  run (sched1 ++ sched2) s = run sched1 s ≫= run sched2.
Proof.
  revert s. induction sched1 as [|[a ok] sched1 IH]; intros s; simpl; [done|].
  destruct (step a ok s); simpl; [apply IH|done].
Qed.

(** *** Every step uses up some of the measure *)

Ltac ltb_hyps :=
  repeat match goal with
         | H : (_ <? _)%nat = true |- _ => apply Nat.ltb_lt in H
         | H : (_ <? _)%nat = false |- _ => apply Nat.ltb_ge in H
         end.

Ltac insert_rank :=
  repeat match goal with
         | |- context [sum_list_with ?f (<[?k:=?y]> ?l)] =>
             let pc := fresh "pc" in
             let Hk := fresh "Hk" in
             destruct (l !! k) as [pc|] eqn:Hk;
             [ pose proof (sum_list_with_insert f l k pc y Hk);
               pose proof (lookup_lt_Some _ _ _ Hk);
               generalize dependent (sum_list_with f (<[k:=y]> l)); intros
             | rewrite list_insert_ge by (by apply lookup_ge_None) ]
         end.

Lemma step_measure a ok s s' :
  step a ok s = Some s' -> (measure s' < measure s)%nat.
Proof.
  intros H. unfold measure.
  destruct a as [|i|]; simpl in H.
  - unfold step_main in H. repeat (case_match; simplify_eq/=; try done);
      unfold start_from, join_from; rewrite ?length_insert;
      repeat case_match; simpl; rewrite ?length_app; simpl; ltb_hyps;
      insert_rank; simpl in *; try lia.
    all: destruct (writeProc s); simpl; lia.
  - unfold step_calc in H. repeat (case_match; simplify_eq/=; try done);
      rewrite ?length_insert, ?length_app; insert_rank; simplify_eq/=; lia.
  - unfold step_writer, statusStr, raise_writer, py_float, num_val in H.
    repeat (case_match; simplify_eq/=; try done);
      rewrite ?length_app; simpl; lia.
Qed.

Lemma run_measure sched s s' :
  run sched s = Some s' -> (length sched + measure s' <= measure s)%nat.
Proof.
  revert s. induction sched as [|[a ok] sched IH]; intros s Hrun; simplify_eq/=; [lia|].
  destruct (step a ok s) as [s1|] eqn:Hs; [|done].
  apply step_measure in Hs. apply IH in Hrun. lia.
Qed.

(** *** The invariants hold along every run *)

Lemma step_calc_pc i ok s s' :
  step_calc i ok s = Some s' ->
  exists pc pc', calcProc s !! i = Some pc /\ calcProc s' = <[i:=pc']> (calcProc s)
                 /\ pc <> WNew /\ pc' <> WNew /\ wfinished pc = false
                 /\ writeProc s' = writeProc s /\ main s' = main s.
Proof.
  intros H. unfold step_calc in H.
  destruct (calcProc s !! i) as [pc|] eqn:Hi; [|done]. exists pc.
  destruct pc; simplify_eq/=; repeat (case_match; simplify_eq/=; try done);
    eexists; done.
Qed.

Lemma step_writer_frame s s' :
  step_writer s = Some s' ->
  calcProc s' = calcProc s /\ main s' = main s /\ workerQueue s' = workerQueue s
  /\ binIdToModels s' = binIdToModels s /\ writeProc s <> RNew /\ writeProc s' <> RNew.
Proof. intros H. step_cases. Qed.

Lemma started_below_insert k l i pc pc' :
  l !! i = Some pc -> pc <> WNew -> pc' <> WNew ->
  started_below k l -> started_below k (<[i:=pc']> l).
Proof.
  intros Hi Hpc Hpc' Hl j q Hj.
  destruct (decide (i = j)) as [->|Hne].
  - rewrite list_lookup_insert_eq in Hj by (by eapply lookup_lt_Some).
    simplify_eq. specialize (Hl _ _ Hi). tauto.
  - rewrite list_lookup_insert_ne in Hj by done. by apply Hl.
Qed.

Lemma ended_below_insert k l i pc pc' :
  l !! i = Some pc -> wfinished pc = false ->
  ended_below k l -> ended_below k (<[i:=pc']> l).
Proof.
  intros Hi Hpc Hl j q Hj Hlt.
  destruct (decide (i = j)) as [->|Hne].
  - specialize (Hl _ _ Hi Hlt). congruence.
  - rewrite list_lookup_insert_ne in Hj by done. by eapply Hl.
Qed.

Lemma started_below_start k l :
  started_below k l -> started_below (S k) (<[k:=WStart]> l).
Proof.
  intros Hl j q Hj. destruct (decide (k = j)) as [->|Hne].
  - pose proof (lookup_lt_Some _ _ _ Hj) as Hlt. rewrite length_insert in Hlt.
    rewrite list_lookup_insert_eq in Hj by done.
    simplify_eq. split; [done|lia].
  - rewrite list_lookup_insert_ne in Hj by done. specialize (Hl _ _ Hj).
    split; [intros ?%Hl; lia|intros ?; apply Hl; lia].
Qed.

Lemma started_below_all k l :
  started_below k l -> (length l <= k)%nat -> started_below (length l) l.
Proof.
  intros Hl Hk j q Hj. pose proof (lookup_lt_Some _ _ _ Hj).
  specialize (Hl _ _ Hj). split; [intros ?%Hl; lia|lia].
Qed.

Lemma ended_below_S k l pc :
  ended_below k l -> l !! k = Some pc -> wfinished pc = true -> ended_below (S k) l.
Proof.
  intros Hl Hk Hpc j q Hj Hlt. destruct (decide (j = k)) as [->|Hne].
  - by simplify_eq.
  - eapply Hl; [done|lia].
Qed.

Lemma ended_below_le k k' l :
  ended_below k l -> (k' <= k)%nat -> ended_below k' l.
Proof. intros Hl Hk j q Hj Hlt. eapply Hl; [done|lia]. Qed.

Lemma ended_below_0 l : ended_below 0 l.
Proof. intros j q _ ?. lia. Qed.

Lemma ended_below_Forall l :
  ended_below (length l) l <-> Forall (fun pc => wfinished pc = true) l.
Proof.
  rewrite Forall_lookup. split.
  - intros Hl j q Hj. eapply Hl; [done|]. by eapply lookup_lt_Some.
  - intros Hl j q Hj _. by eapply Hl.
Qed.

Lemma inv_main_step a ok s s' :
  inv_main s -> step a ok s = Some s' -> inv_main s'.
Proof.
  intros Hinv H. destruct a as [|i|]; simpl in H.
  - unfold inv_main, step_main, start_from, join_from in *.
    repeat (case_match; simplify_eq/=; try done); ltb_hyps;
      rewrite ?length_insert in *; destruct_and?; split_and?; try done; try lia;
      eauto using started_below_start, ended_below_0, ended_below_S.
    + eapply ended_below_le; [apply ended_below_0|lia].
    + rewrite <- (length_insert (calcProc s) k WStart).
      eapply started_below_all; [by apply started_below_start|].
      rewrite length_insert. lia.
    + eapply ended_below_le; [by eapply ended_below_S|lia].
  - apply step_calc_pc in H as (pc & pc' & Hi & Hs' & ? & ? & ? & Hw & Hm).
    unfold inv_main in *. rewrite Hs', Hw, Hm, length_insert.
    destruct (main s); destruct_and?; split_and?;
      eauto using started_below_insert, ended_below_insert.
  - apply step_writer_frame in H as (Hc & Hm & _ & _ & ? & ?).
    unfold inv_main in *. rewrite Hc, Hm.
    destruct (main s); destruct_and?; split_and?; done.
Qed.

Lemma inv_self_step a ok s s' :
  inv_self s -> step a ok s = Some s' -> inv_self s'.
Proof.
  intros Hinv H. apply step_frame in H as (Hf & Ha & _).
  unfold inv_self. by rewrite Hf, Ha.
Qed.

Lemma numBins_nonzero s :
  inv_self s -> (len (binFiles (args s)) =? 0) = false.
Proof.
  intros [_ Hb]. apply Z.eqb_neq. unfold len.
  destruct (binFiles (args s)); [done|]. simpl. lia.
Qed.

Lemma step_writer_cases s s' :
  inv_self s -> step_writer s = Some s' ->
  let numBins := len (binFiles (args s)) in
  let v := verbose (finder s) in
  (writeProc s = RStart
   /\ s' = set_writeProc (RLoop 0)
             (if v then write (status_line 0 numBins) s else s))
  \/ (exists n x q,
        writeProc s = RLoop n /\ writerQueue s = Some x :: q
        /\ s' = set_writeProc (RLoop (if v then n + 1 else n))
                  (let s1 := emit (EvSeen (Some x)) (set_writerQueue q s) in
                   if v then write (status_line (n + 1) numBins) s1 else s1))
  \/ (exists n q,
        writeProc s = RLoop n /\ writerQueue s = None :: q
        /\ s' = set_writeProc RExit
                  (let s1 := emit (EvSeen None) (set_writerQueue q s) in
                   if v then write LF s1 else s1)).
Proof.
  intros Hself H. pose proof (numBins_nonzero s Hself) as Hn.
  unfold step_writer, statusStr, py_float, num_val in H. rewrite Hn in H.
  destruct (writeProc s) as [| |n| |]; try done.
  - left. split; [done|]. unfold status_line.
    destruct (verbose (finder s)); by simplify_eq/=.
  - right. destruct (writerQueue s) as [|[x|] q]; [done| |].
    + left. exists n, x, q. split_and!; try done. unfold status_line.
      destruct (verbose (finder s)); by simplify_eq/=.
    + right. exists n, q. split_and!; try done.
      destruct (verbose (finder s)); by simplify_eq/=.
Qed.

(** A worker that can step has not ended, so [find] is not past the joins. *)
Lemma step_calc_main i ok s s' :
  inv_main s -> step_calc i ok s = Some s' ->
  match main s with OStartCalc _ | OJoinCalc _ => True | _ => False end.
Proof.
  intros Hinv H. apply step_calc_pc in H as (pc & pc' & Hi & _ & ? & _ & Hf & _).
  unfold inv_main in Hinv. pose proof (lookup_lt_Some _ _ _ Hi) as Hlt.
  destruct (main s) as [|k|k| | | |]; simpl in Hinv; destruct_and?; try done;
    try (match goal with H : ended_below _ _ |- _ => specialize (H _ _ Hi Hlt) end;
         congruence).
  match goal with H : started_below 0 _ |- _ => destruct (H _ _ Hi) as [_ Hc] end.
  apply H, Hc. lia.
Qed.

Lemma step_calc_writerQueue i ok s s' :
  step_calc i ok s = Some s' ->
  writerQueue s' = writerQueue s
  \/ exists f, calcProc s !! i = Some (WPut f)
               /\ writerQueue s' = writerQueue s ++ [Some (binIdFromFilename f)].
Proof. intros H. step_cases; eauto. Qed.

Lemma inv_sentinel_step a ok s s' :
  inv_self s -> inv_main s -> inv_sentinel s -> step a ok s = Some s' ->
  inv_sentinel s'.
Proof.
  intros Hself Hmain Hinv H. destruct a as [|i|]; simpl in H.
  - unfold inv_sentinel, step_main, start_from, join_from in *.
    repeat (case_match; simplify_eq/=; try done); destruct_and?; try done.
    + left. destruct (no_None_Some (writerQueue s)) as [ids Hids]; [done|].
      exists ids. by rewrite Hids.
    + destruct Hinv as [(ids & _ & ?)|[? _]]; [congruence|done].
  - pose proof (step_calc_main _ _ _ _ Hmain H) as Hm.
    pose proof (step_calc_pc _ _ _ _ H) as (_ & _ & _ & _ & _ & _ & _ & Hw & Hm').
    unfold inv_sentinel in *. rewrite Hw, Hm'.
    destruct (step_calc_writerQueue _ _ _ _ H) as [->|(f & _ & ->)];
      destruct (main s); try done;
      destruct Hinv as [? ?]; split; try done; set_solver.
  - assert (main s' = main s /\ finder s' = finder s) as [Hm' _].
    { apply step_writer_frame in H as H'. apply (step_frame Writer ok) in H.
      by destruct_and?. }
    apply step_writer_cases in H; [|done]. unfold inv_sentinel in *. rewrite Hm'.
    destruct H as [[Hw ->]|[(n & x & q & Hw & Hq & ->)|(n & q & Hw & Hq & ->)]];
      rewrite Hw, ?Hq in Hinv; destruct (verbose (finder s)); simpl;
      destruct (main s); simpl in *; destruct_and?; try done;
      try (split; [set_solver|done]).
    all: try (destruct Hinv as [(ids & Hids & _)|[? ?]]; [|done];
              destruct ids as [|y ids]; simplify_eq/=; eauto).
    all: set_solver.
Qed.

(** What a step of [find] or of a worker leaves alone. *)
Lemma step_main_frame s s' :
  step_main s = Some s' ->
  workerQueue s' = workerQueue s /\ trace s' = trace s /\ stderr s' = stderr s
  /\ binIdToModels s' = binIdToModels s /\ orfs s' = orfs s
  /\ (writeProc s' = writeProc s \/ (main s = OStartWriter /\ writeProc s' = RStart))
  /\ (writerQueue s' = writerQueue s
      \/ (main s = OPutNone /\ writerQueue s' = writerQueue s ++ [None])).
Proof. intros H. step_cases; split_and?; eauto. Qed.

Lemma step_calc_frame i ok s s' :
  step_calc i ok s = Some s' ->
  written (stderr s') = written (stderr s) /\ writeProc s' = writeProc s
  /\ seens (trace s') = seens (trace s).
Proof. intros H. step_cases; by trace_simpl. Qed.

Lemma inv_report_step a ok s s' :
  inv_self s -> inv_main s -> inv_report s -> step a ok s = Some s' ->
  inv_report s'.
Proof.
  intros Hself Hmain Hinv H.
  pose proof (step_frame _ _ _ _ H) as (Hf & Ha & _).
  destruct a as [|i|]; simpl in H.
  - pose proof (step_main_frame _ _ H) as (_ & Ht & He & _ & _ & Hw & _).
    unfold inv_report in *. rewrite Hf, Ha, Ht, He.
    destruct Hw as [->|[Hm ->]]; [done|].
    unfold inv_main in Hmain. rewrite Hm in Hmain. destruct Hmain as [Hw _].
    by rewrite Hw in Hinv.
  - pose proof (step_calc_frame _ _ _ _ H) as (He & Hw & Ht).
    unfold inv_report in *. by rewrite Hf, Ha, Ht, He, Hw.
  - apply step_writer_cases in H; [|done]. unfold inv_report in *.
    destruct H as [[Hw ->]|[(n & x & q & Hw & Hq & ->)|(n & q & Hw & Hq & ->)]];
      rewrite Hw in Hinv; destruct (verbose (finder s)) eqn:Hv; simpl;
      rewrite ?Hv; trace_simpl.
    + destruct Hinv as [-> ->]. by exists [].
    + destruct Hinv as [-> ->]. by exists [].
    + destruct Hinv as (ids & -> & -> & ->). exists (ids ++ [x]).
      split_and!.
      * by rewrite fmap_app.
      * unfold len. rewrite length_app. simpl. lia.
      * rewrite length_app, Nat.add_1_r, status_lines_S. do 3 f_equal.
        unfold len. lia.
    + destruct Hinv as (ids & -> & -> & ->). exists (ids ++ [x]).
      by rewrite fmap_app.
    + destruct Hinv as (ids & -> & -> & ->). by exists ids.
    + destruct Hinv as (ids & -> & -> & ->). by exists ids.
Qed.

Lemma inv_notes_step a ok s s' :
  inv_self s -> inv_notes s -> step a ok s = Some s' -> inv_notes s'.
Proof.
  intros Hself Hinv H. unfold inv_notes in *. destruct a as [|i|]; simpl in H.
  - pose proof (step_main_frame _ _ H) as (_ & -> & _ & _ & _ & _ & Hq).
    destruct Hq as [->|[_ ->]]; [done|]. trace_simpl. done.
  - step_cases; trace_simpl; try done. by rewrite (assoc_L (++)), Hinv.
  - apply step_writer_cases in H; [|done].
    destruct H as [[Hw ->]|[(n & x & q & Hw & Hq & ->)|(n & q & Hw & Hq & ->)]];
      rewrite ?Hq in Hinv; destruct (verbose (finder s)); trace_simpl;
      rewrite <- ?(assoc_L (++)); done.
Qed.

Lemma inv_queue_step queue0 a ok s s' :
  inv_queue queue0 s -> step a ok s = Some s' -> inv_queue queue0 s'.
Proof.
  intros Hinv H. unfold inv_queue in *. destruct a as [|i|]; simpl in H.
  - by pose proof (step_main_frame _ _ H) as (-> & -> & _).
  - step_cases; trace_simpl; try done; by rewrite <- (assoc_L (++)).
  - assert (gets (trace s') = gets (trace s) /\ workerQueue s' = workerQueue s)
      as [-> ->]; [|done].
    step_cases; by trace_simpl.
Qed.

Lemma unfinished_insert l i pc pc' :
  l !! i = Some pc ->
  (unfinished (<[i:=pc']> l) + (if wfinished pc then 0 else 1)
   = unfinished l + (if wfinished pc' then 0 else 1))%nat.
Proof. apply sum_list_with_insert. Qed.

Lemma inv_sentinels_step a ok s s' :
  inv_main s -> inv_sentinels s -> step a ok s = Some s' -> inv_sentinels s'.
Proof.
  intros Hmain Hinv H. unfold inv_sentinels in *. destruct a as [|i|]; simpl in H.
  - unfold inv_main in Hmain. step_cases; try done.
    destruct Hmain as (_ & Hk & Hs). apply lookup_lt_is_Some in Hk as [pc Hpc].
    assert (pc = WNew) as -> by (apply (Hs _ _ Hpc); lia).
    pose proof (unfinished_insert _ _ _ WStart Hpc) as Hu. simpl in Hu. lia.
  - unfold step_calc in H. destruct (calcProc s !! i) as [pc|] eqn:Hi; [|done].
    destruct pc; simplify_eq/=; repeat (case_match; simplify_eq/=; try done);
      match goal with
      | |- context [unfinished (<[i:=?pc']> _)] =>
          pose proof (unfinished_insert _ _ _ pc' Hi) as Hu
      end; simpl in *; unfold count_None in *; simpl in *; lia.
  - apply step_writer_frame in H as (-> & _ & -> & _). done.
Qed.

Lemma inv_exit_step a ok s s' :
  inv_exit s -> step a ok s = Some s' -> inv_exit s'.
Proof.
  intros Hinv H j Hj. unfold inv_exit in *. destruct a as [|i|]; simpl in H.
  - pose proof (step_main_frame _ _ H) as (_ & -> & _).
    step_cases; eauto.
    destruct (decide (k = j)) as [->|Hne].
    + pose proof (lookup_lt_Some _ _ _ Hj) as Hlt. rewrite length_insert in Hlt.
      by rewrite list_lookup_insert_eq in Hj.
    + rewrite list_lookup_insert_ne in Hj by done. eauto.
  - unfold step_calc in H. destruct (calcProc s !! i) as [pc|] eqn:Hi; [|done].
    assert (j <> i -> PyNone ∈ gets (trace s)) as Hother.
    { intros Hne. apply (Hinv j).
      destruct pc; simplify_eq/=; repeat (case_match; simplify_eq/=; try done);
        by rewrite list_lookup_insert_ne in Hj. }
    destruct (decide (j = i)) as [->|Hne].
    + pose proof (lookup_lt_Some _ _ _ Hi) as Hlt.
      destruct pc; simplify_eq/=; repeat (case_match; simplify_eq/=; try done);
        rewrite list_lookup_insert_eq in Hj by done; simplify_eq.
      trace_simpl. set_solver.
    + specialize (Hother Hne).
      destruct pc; simplify_eq/=; repeat (case_match; simplify_eq/=; try done);
        trace_simpl; set_solver.
  - assert (gets (trace s') = gets (trace s) /\ calcProc s' = calcProc s)
      as [Hg Hc]; [step_cases; by trace_simpl|].
    rewrite Hg. rewrite Hc in Hj. eauto.
Qed.

Lemma inv_dict_step a ok s s' :
  inv_dict s -> step a ok s = Some s' -> inv_dict s'.
Proof.
  intros Hinv H. unfold inv_dict in *. destruct a as [|i|]; simpl in H.
  - by pose proof (step_main_frame _ _ H) as (_ & -> & _ & -> & _).
  - step_cases; trace_simpl; try done.
    rewrite dom_insert_L, list_to_set_app_L, Hinv. set_solver.
  - assert (stores (trace s') = stores (trace s)
            /\ binIdToModels s' = binIdToModels s) as [-> ->]; [|done].
    step_cases; by trace_simpl.
Qed.

Lemma inv_stored_step a ok s s' :
  inv_stored s -> step a ok s = Some s' -> inv_stored s'.
Proof.
  intros Hinv H j pc f Hj Hf. unfold inv_stored in *. destruct a as [|i|]; simpl in H.
  - pose proof (step_main_frame _ _ H) as (_ & _ & _ & -> & _).
    step_cases; eauto.
    destruct (decide (k = j)) as [->|Hne].
    + pose proof (lookup_lt_Some _ _ _ Hj) as Hlt. rewrite length_insert in Hlt.
      rewrite list_lookup_insert_eq in Hj by done. simplify_eq. set_solver.
    + rewrite list_lookup_insert_ne in Hj by done. eauto.
  - unfold step_calc in H. destruct (calcProc s !! i) as [pc0|] eqn:Hi; [|done].
    pose proof (lookup_lt_Some _ _ _ Hi) as Hlt.
    assert (dom (binIdToModels s) ⊆ dom (binIdToModels s')) as Hsub.
    { destruct pc0; simplify_eq/=; repeat (case_match; simplify_eq/=; try done);
        rewrite ?dom_insert_L; set_solver. }
    destruct (decide (j = i)) as [->|Hne].
    + destruct pc0; simplify_eq/=; repeat (case_match; simplify_eq/=; try done);
        rewrite list_lookup_insert_eq in Hj by done; simplify_eq/=;
        try (by apply elem_of_nil in Hf);
        apply list_elem_of_singleton in Hf as ->;
        try (rewrite dom_insert_L; set_solver);
        apply (Hinv i _ _ Hi); set_solver.
    + apply Hsub, (Hinv j pc f); [|done].
      destruct pc0; simplify_eq/=; repeat (case_match; simplify_eq/=; try done);
        by rewrite list_lookup_insert_ne in Hj.
  - apply step_writer_frame in H as (Hc & _ & _ & Hd & _).
    rewrite Hd. rewrite Hc in Hj. eauto.
Qed.

(** *** Runs without failures *)

Lemma perm_update {A} (X P J J' dX dP a b : list A) :
  X ≡ₚ P ++ J -> J' ++ a ≡ₚ J ++ b -> dX ++ a ≡ₚ dP ++ b ->
  X ++ dX ≡ₚ (P ++ dP) ++ J'.
Proof.
  intros HX HJ Hd. apply (Permutation_app_inv_r a).
  rewrite <- !(assoc_L (++)), HJ, Hd, HX. solve_Permutation.
Qed.

(** What a successful step of a worker adds to the trace, against the job
    it held before and holds after. *)
Lemma step_calc_delta i s s' :
  is_Some (threadsPerSearch (finder s)) -> step_calc i true s = Some s' ->
  exists pc pc',
    calcProc s !! i = Some pc /\ calcProc s' = <[i:=pc']> (calcProc s)
    /\ (forall e, pc' <> WRaised e)
    /\ gets (trace s') = gets (trace s) ++ delta_gets pc pc'
    /\ puts (trace s') = puts (trace s) ++ delta_puts pc
    /\ stores (trace s') = stores (trace s) ++ delta_stores pc pc'
    /\ (binIdFromFilename <$> paths (delta_gets pc pc'))
         ++ (binIdFromFilename <$> wjob pc)
       ≡ₚ delta_puts pc ++ (binIdFromFilename <$> wjob pc')
    /\ delta_stores pc pc' ++ (binIdFromFilename <$> wstored pc)
       ≡ₚ delta_puts pc ++ (binIdFromFilename <$> wstored pc').
Proof.
  intros [t Ht] H. unfold step_calc in H. rewrite Ht in H.
  destruct (calcProc s !! i) as [pc|] eqn:Hi; [|done]. exists pc.
  destruct pc; simplify_eq/=; repeat (case_match; simplify_eq/=; try done);
    (eexists; split; [done|]; split; [reflexivity|]);
    trace_simpl; split_and!; try done; solve_Permutation.
Qed.

Lemma inv_jobs_step a s s' :
  inv_self s -> inv_main s -> inv_jobs s -> step a true s = Some s' ->
  inv_jobs s'.
Proof.
  intros [Ht _] Hmain (Hr & Hj & Hs) H. unfold inv_jobs.
  destruct a as [|i|]; simpl in H.
  - pose proof (step_main_frame _ _ H) as (_ & -> & _).
    assert (calcProc s' = calcProc s
            \/ exists k, calcProc s !! k = Some WNew
                         /\ calcProc s' = <[k:=WStart]> (calcProc s)) as [->|(k & Hk & ->)].
    { unfold inv_main in Hmain. step_cases; eauto.
      destruct Hmain as (_ & Hlt & Hsb). apply lookup_lt_is_Some in Hlt as [pc Hpc].
      right. exists k. split; [|done]. rewrite Hpc. f_equal.
      apply (Hsb _ _ Hpc). lia. }
    + done.
    + rewrite !(bind_insert_same _ _ _ _ _ Hk) by done. split_and!; [|done|done].
      apply Forall_insert; [done|]. by intros e.
  - apply step_calc_delta in H as
        (pc & pc' & Hi & -> & Hpc' & -> & -> & -> & HdJ & HdS); [|done].
    split_and!.
    + by apply Forall_insert.
    + rewrite paths_app, fmap_app.
      eapply perm_update; [exact Hj| |exact HdJ].
      rewrite <- !fmap_app. apply fmap_Permutation, bind_insert_perm, Hi.
    + eapply perm_update; [exact Hs| |exact HdS].
      rewrite <- !fmap_app. apply fmap_Permutation, bind_insert_perm, Hi.
  - assert (calcProc s' = calcProc s /\ gets (trace s') = gets (trace s)
            /\ puts (trace s') = puts (trace s)
            /\ stores (trace s') = stores (trace s)) as (-> & -> & -> & ->); [|done].
    step_cases; by trace_simpl.
Qed.

(** *** The state [find] starts the processes from *)

Lemma seed_jobs (l q : list pyval) :
  fold_left (fun q binFile => q ++ [binFile]) l q = q ++ l.
Proof.
  revert q. induction l as [|x l IH]; intros q; simpl; [by rewrite app_nil_r|].
  by rewrite IH, <- (assoc_L (++)).
Qed.

Lemma seed_sentinels (r : list nat) (q : list pyval) :
  fold_left (fun q _ => q ++ [PyNone]) r q = q ++ replicate (length r) PyNone.
Proof.
  revert q. induction r as [|x r IH]; intros q; simpl; [by rewrite app_nil_r|].
  by rewrite IH, <- (assoc_L (++)).
Qed.

Lemma range_length n : length (range n) = Z.to_nat n.
Proof. unfold range. apply length_seq. Qed.

Lemma new_processes (r : list nat) :
  map (fun _ => WNew) r = replicate (length r) WNew.
Proof. induction r as [|x r IH]; simpl; [done|]. by f_equal. Qed.

(** Lines 45-60, in closed form. *)
Lemma find_start_inr self a world s0 :
  find_start self a world = inr s0 ->
  binFiles a <> []
  /\ finder s0 = mkFinder (logger_level self) (totalThreads self)
                   (Some (Z.max 1 (totalThreads self / len (binFiles a))))
  /\ args s0 = a
  /\ workerQueue s0 = binFiles a ++ replicate (Z.to_nat (totalThreads self)) PyNone
  /\ writerQueue s0 = []
  /\ binIdToModels s0 = ∅
  /\ calcProc s0 = replicate (Z.to_nat (totalThreads self)) WNew
  /\ writeProc s0 = RNew
  /\ main s0 = OStartWriter
  /\ orfs s0 = world
  /\ stderr s0 = []
  /\ gets (trace s0) = [] /\ puts (trace s0) = [] /\ stores (trace s0) = []
  /\ seens (trace s0) = [] /\ prodigal_runs (trace s0) = [].
Proof.
  unfold find_start, py_div. intros H.
  destruct (len (binFiles a) =? 0) eqn:Hn; [done|]. apply Z.eqb_neq in Hn.
  simplify_eq/=. rewrite seed_sentinels, seed_jobs, new_processes, range_length.
  split_and!; try done; [by intros Hb; rewrite Hb in Hn|..];
    by destruct (verbose self).
Qed.

Lemma find_start_inl self a world e :
  find_start (models:=models) self a world = inl e ->
  binFiles a = [] /\ e = ZeroDivisionError.
Proof.
  unfold find_start, py_div. intros H.
  destruct (len (binFiles a) =? 0) eqn:Hn; [|done]. apply Z.eqb_eq in Hn.
  simplify_eq/=. split; [|done]. unfold len in Hn. destruct (binFiles a); [done|].
  simpl in Hn. lia.
Qed.

Lemma unfinished_new n : unfinished (replicate n WNew) = n.
Proof. induction n as [|n IH]; simpl; [done|]. unfold unfinished in *. simpl. lia. Qed.

Lemma count_None_app q1 q2 : count_None (q1 ++ q2) = (count_None q1 + count_None q2)%nat.
Proof. unfold count_None. induction q1 as [|v q1 IH]; simpl; lia. Qed.

Lemma count_None_sentinels n : count_None (replicate n PyNone) = n.
Proof. induction n as [|n IH]; simpl; [done|]. unfold count_None in *. simpl. lia. Qed.

Lemma bind_new {B} (g : wpc -> list B) n :
  g WNew = [] -> replicate n WNew ≫= g = [].
Proof.
  intros Hg. induction n as [|n IH]; [done|].
  change (replicate (S n) WNew) with (WNew :: replicate n WNew).
  by rewrite bind_cons, Hg, IH.
Qed.

Lemma inv_start self a world s0 :
  find_start self a world = inr s0 ->
  inv (workerQueue s0) s0 /\ inv_jobs s0.
Proof.
  intros H. apply find_start_inr in H as
      (Hb & Hf & Ha & Hq & Hw & Hd & Hc & Hr & Hm & _ & He & Hg & Hp & Hs & Hn & _).
  unfold inv, inv_self, inv_main, inv_sentinel, inv_report, inv_notes, inv_queue,
    inv_sentinels, inv_exit, inv_dict, inv_stored, inv_jobs.
  rewrite Hf, Ha, Hw, Hd, Hc, Hr, Hm, He, Hg, Hp, Hs, Hn. simpl. split_and!; try done.
  - intros j pc [-> _]%lookup_replicate. split; [lia|done].
  - set_solver.
  - rewrite Hq, unfinished_new, count_None_app, count_None_sentinels. lia.
  - by intros i [? _]%lookup_replicate.
  - intros i pc f [-> _]%lookup_replicate ?. set_solver.
  - apply Forall_replicate. by intros e.
  - by rewrite bind_new.
  - by rewrite bind_new.
Qed.

Lemma inv_step queue0 a ok s s' :
  inv queue0 s -> step a ok s = Some s' -> inv queue0 s'.
Proof.
  intros (? & ? & ? & ? & ? & ? & ? & ? & ? & ?) Hs. unfold inv. split_and!;
    eauto using inv_self_step, inv_main_step, inv_sentinel_step, inv_report_step,
      inv_notes_step, inv_queue_step, inv_sentinels_step, inv_exit_step,
      inv_dict_step, inv_stored_step.
Qed.

Lemma inv_run queue0 sched s s' :
  inv queue0 s -> run sched s = Some s' -> inv queue0 s'.
Proof. apply (run_invariant (inv queue0)). intros. by eapply inv_step. Qed.

Lemma inv_jobs_run queue0 sched s s' :
  no_failure sched -> inv queue0 s -> inv_jobs s -> run sched s = Some s' ->
  inv_jobs s'.
Proof.
  intros Hok Hinv Hj Hrun.
  cut (inv queue0 s' /\ inv_jobs s'); [tauto|].
  apply (run_invariant_ok (fun s => inv queue0 s /\ inv_jobs s)) with sched s;
    [|done|done|done].
  intros a s1 s2 [H1 H2] Hs. split; [by eapply inv_step|].
  destruct H1 as (? & ? & _). by eapply inv_jobs_step.
Qed.

Lemma reachable_inv self a world s :
  reachable self a world s ->
  exists s0, find_start self a world = inr s0 /\ inv (workerQueue s0) s
             /\ finder s = finder s0 /\ args s = a
             /\ length (calcProc s) = Z.to_nat (totalThreads self).
Proof.
  intros (s0 & sched & Hs0 & Hrun). exists s0. split; [done|].
  pose proof (inv_start _ _ _ _ Hs0) as [Hinv _]. split; [by eapply inv_run|].
  pose proof (find_start_inr _ _ _ _ Hs0) as (_ & _ & Ha & _ & _ & _ & Hc & _).
  rewrite <- Ha. rewrite <- (length_replicate (Z.to_nat (totalThreads self)) WNew), <- Hc.
  clear Hs0 Hinv Ha Hc. revert s0 Hrun.
  induction sched as [|[x ok] sched IH]; intros s0 Hrun; simplify_eq/=; [done|].
  destruct (step x ok s0) as [s1|] eqn:Hs; [|done].
  apply step_frame in Hs as (<- & <- & <-). eauto.
Qed.

(** *** No deadlock, and every run ends *)

Lemma unfinished_pos l i pc :
  l !! i = Some pc -> wfinished pc = false -> (1 <= unfinished l)%nat.
Proof.
  revert i. unfold unfinished.
  induction l as [|x l IH]; intros [|i] Hi Hf; simplify_eq/=.
  - rewrite Hf. lia.
  - specialize (IH _ Hi Hf). lia.
Qed.

Lemma count_None_pos q : (1 <= count_None q)%nat -> PyNone ∈ q.
Proof.
  unfold count_None. induction q as [|[|f] q IH]; simpl; intros Hq.
  - lia.
  - set_solver.
  - apply elem_of_cons. right. apply IH. lia.
Qed.

(** A started worker that has not ended can always move: its [get] finds
    the queue non-empty, with a [None] still in it. *)
Lemma calc_enabled i ok s pc :
  inv_sentinels s -> calcProc s !! i = Some pc -> pc <> WNew ->
  wfinished pc = false ->
  PyNone ∈ workerQueue s /\ is_Some (step_calc i ok s).
Proof.
  intros Hinv Hi Hnew Hf. pose proof (unfinished_pos _ _ _ Hi Hf) as Hpos.
  assert (PyNone ∈ workerQueue s) as Hq.
  { apply count_None_pos. unfold inv_sentinels in Hinv. lia. }
  split; [done|]. unfold step_calc. rewrite Hi.
  destruct pc; try done; repeat case_match; try done.
  by apply elem_of_nil in Hq.
Qed.

Lemma progress queue0 s :
  inv queue0 s -> (forall d, main s <> OReturn d) ->
  exists a s', step a true s = Some s'.
Proof.
  intros (Hself & Hmain & Hsent & Hrep & _ & _ & Hnone & _) Hret.
  unfold inv_main in Hmain. unfold inv_sentinel in Hsent.
  destruct (main s) as [|k|k| | | |d] eqn:Hm; simpl in *.
  - exists Main. unfold step, step_main. rewrite Hm. eauto.
  - exists Main. unfold step, step_main. rewrite Hm. eauto.
  - destruct Hmain as (_ & Hk & Hstarted & _).
    apply lookup_lt_is_Some in Hk as [pc Hpc].
    destruct (wfinished pc) eqn:Hf.
    + exists Main. unfold step, step_main. rewrite Hm, Hpc, Hf. eauto.
    + exists (Calc k).
      destruct (calc_enabled k true s pc) as [_ [s' Hs']]; eauto.
      intros ->. pose proof (lookup_lt_Some _ _ _ Hpc).
      destruct (Hstarted _ _ Hpc) as [Hc _]. specialize (Hc eq_refl). lia.
  - exists Main. unfold step, step_main. rewrite Hm. eauto.
  - destruct Hsent as [(ids & Hq & Hf)|[_ Hf]].
    + exists Writer. unfold step, step_writer, statusStr, py_float, num_val.
      rewrite (numBins_nonzero s Hself), Hq.
      destruct Hmain as [Hnew _].
      destruct (writeProc s); try done; destruct ids; simpl;
        repeat case_match; eauto.
    + exists Main. unfold step, step_main. rewrite Hm, Hf. eauto.
  - exists Main. unfold step, step_main. rewrite Hm. eauto.
  - by destruct (Hret d).
Qed.

(** From every state of a run, some schedule without failures reaches the
    return of [find]. *)
Lemma run_to_return queue0 s :
  inv queue0 s ->
  exists sched s' d, no_failure sched /\ run sched s = Some s' /\ main s' = OReturn d.
Proof.
  remember (measure s) as m eqn:Hm. revert s Hm.
  induction m as [m IH] using lt_wf_ind. intros s -> Hinv.
  destruct (main s) as [| | | | | |d] eqn:Hmain;
    try (destruct (progress queue0 s Hinv) as (a & s1 & Hs1); [by rewrite Hmain|];
         pose proof (step_measure _ _ _ _ Hs1) as Hlt;
         destruct (IH _ Hlt s1 eq_refl (inv_step _ _ _ _ _ Hinv Hs1))
           as (sched & s' & d & Hok & Hrun & Hd);
         exists ((a, true) :: sched), s', d; split_and!;
         [by apply Forall_cons|simpl; by rewrite Hs1|done]).
  exists [], s, d. split_and!; [by apply Forall_nil|done|done].
Qed.

(** ** The thread budget and the start of [find] *)

(** C2: with at least one thread and at least one bin, line 45 sets the
    per-job thread budget to [max(1, q)] where [q] is the floor of
    [totalThreads / jobCount] (the one [q] with
    [q * jobCount <= totalThreads < (q + 1) * jobCount]); so (8, 3) gives 2,
    (2, 5) gives 1 and (10, 1) gives 10; and no step of the run changes the
    finder object, so the budget stays what line 45 made it. *)
Theorem thread_budget_fixed (self : MarkerGeneFinder) (a : find_args)
    (world : gset string) :
  1 <= totalThreads self -> binFiles a <> [] ->
  exists (s0 : state models) (q : Z),
    find_start self a world = inr s0
    /\ threadsPerSearch (finder s0) = Some (Z.max 1 q)
    /\ q * len (binFiles a) <= totalThreads self < (q + 1) * len (binFiles a)
    /\ 1 <= Z.max 1 q
    /\ (totalThreads self = 8 -> len (binFiles a) = 3 -> Z.max 1 q = 2)
    /\ (totalThreads self = 2 -> len (binFiles a) = 5 -> Z.max 1 q = 1)
    /\ (totalThreads self = 10 -> len (binFiles a) = 1 -> Z.max 1 q = 10)
    /\ forall sched s, run sched s0 = Some s ->
                       threadsPerSearch (finder s) = Some (Z.max 1 q).
Proof.
  intros Ht Hb.
  assert (0 < len (binFiles a)) as Hn.
  { unfold len. destruct (binFiles a); [done|]. simpl. lia. }
  destruct (find_start (models:=models) self a world) as [e|s0] eqn:Hs0.
  { apply find_start_inl in Hs0 as [? _]. done. }
  exists s0, (totalThreads self / len (binFiles a)).
  pose proof (find_start_inr _ _ _ _ Hs0) as (_ & Hf & _).
  pose proof (Z.div_mod (totalThreads self) (len (binFiles a))) as Hdm.
  pose proof (Z.mod_pos_bound (totalThreads self) (len (binFiles a)) Hn) as Hmod.
  split_and!; try done.
  - by rewrite Hf.
  - nia.
  - nia.
  - lia.
  - intros -> ->. by vm_compute.
  - intros -> ->. by vm_compute.
  - intros -> ->. by vm_compute.
  - intros sched s Hrun.
    assert (finder s = finder s0) as ->; [|by rewrite Hf].
    revert Hrun. generalize s0. clear.
    induction sched as [|[x ok] sched IH]; intros s0 Hrun; simplify_eq/=; [done|].
    destruct (step x ok s0) as [s1|] eqn:Hs; [|done].
    apply step_frame in Hs as (<- & _). eauto.
Qed.

(** C7, as the code has it: [find] does not check the number of bins. Its
    first statement, line 45, divides by [len(binFiles)]: on an empty list
    the division raises [ZeroDivisionError], before any queue or process
    exists; on any other list no exception is raised and the processes are
    set up. *)
Theorem find_zero_bins_raises (self : MarkerGeneFinder) (a : find_args)
    (world : gset string) :
  (binFiles a = []
   /\ find_start (models:=models) self a world = inl ZeroDivisionError
   /\ forall sched, find (models:=models) self a world sched
                    = Some (inl ZeroDivisionError))
  \/ (binFiles a <> []
      /\ exists s0 : state models,
          find_start self a world = inr s0
          /\ main s0 = OStartWriter /\ writeProc s0 = RNew
          /\ Forall (fun pc => pc = WNew) (calcProc s0)).
Proof.
  destruct (find_start (models:=models) self a world) as [e|s0] eqn:Hs0.
  - left. pose proof (find_start_inl _ _ _ _ Hs0) as [Hb ->].
    split_and!; try done. intros sched. unfold find. by rewrite Hs0.
  - right. pose proof (find_start_inr _ _ _ _ Hs0)
      as (Hb & _ & _ & _ & _ & _ & Hc & Hw & Hm & _).
    split; [done|]. exists s0. split_and!; try done.
    rewrite Hc. by apply Forall_replicate.
Qed.

(** ** The work queue and its sentinels *)

Lemma step_trace a ok s s' :
  step a ok s = Some s' -> trace s `prefix_of` trace s'.
Proof. intros H. step_cases; repeat apply prefix_app_r; done. Qed.

Lemma run_trace sched s s' :
  run sched s = Some s' -> trace s `prefix_of` trace s'.
Proof.
  revert s. induction sched as [|[a ok] sched IH]; intros s Hrun; simplify_eq/=; [done|].
  destruct (step a ok s) as [s1|] eqn:Hs; [|done].
  etrans; [by eapply step_trace|eauto].
Qed.

(** A worker that left its loop did so on dequeuing [None]. *)
Lemma exit_event_step a ok s s' :
  inv_main s ->
  (forall i, calcProc s !! i = Some WExit -> EvGet i PyNone ∈ trace s) ->
  step a ok s = Some s' ->
  forall i, calcProc s' !! i = Some WExit -> EvGet i PyNone ∈ trace s'.
Proof.
  intros Hmain Hinv H j Hj.
  assert (calcProc s !! j = Some WExit -> EvGet j PyNone ∈ trace s') as Hold.
  { intros Hj'. apply Hinv in Hj'. destruct (step_trace _ _ _ _ H) as [evs ->].
    set_solver. }
  destruct a as [|i|]; simpl in H.
  - unfold inv_main in Hmain. step_cases; eauto.
    destruct (decide (k = j)) as [->|Hne].
    + pose proof (lookup_lt_Some _ _ _ Hj) as Hlt. rewrite length_insert in Hlt.
      by rewrite list_lookup_insert_eq in Hj.
    + rewrite list_lookup_insert_ne in Hj by done. eauto.
  - destruct (decide (j = i)) as [->|Hne].
    + unfold step_calc in H. destruct (calcProc s !! i) as [pc|] eqn:Hi; [|done].
      pose proof (lookup_lt_Some _ _ _ Hi) as Hlt.
      destruct pc; simplify_eq/=; repeat (case_match; simplify_eq/=; try done);
        rewrite list_lookup_insert_eq in Hj by done; simplify_eq.
      set_solver.
    + apply Hold. apply step_calc_pc in H as (pc & pc' & _ & Hc & _).
      rewrite Hc in Hj. by rewrite list_lookup_insert_ne in Hj.
  - apply Hold. apply step_writer_frame in H as (Hc & _). by rewrite <- Hc.
Qed.

Lemma exit_event_run sched s0 s :
  inv_main s0 -> (forall i, calcProc s0 !! i <> Some WExit) ->
  run sched s0 = Some s ->
  forall i, calcProc s !! i = Some WExit -> EvGet i PyNone ∈ trace s.
Proof.
  intros Hmain Hnone Hrun.
  cut (inv_main s
       /\ forall i, calcProc s !! i = Some WExit -> EvGet i PyNone ∈ trace s);
    [tauto|].
  apply (run_invariant
           (fun s => inv_main s
                     /\ forall i, calcProc s !! i = Some WExit
                                  -> EvGet i PyNone ∈ trace s)) with sched s0;
    [|split; [done|]; intros i Hi; by destruct (Hnone i)|done].
  intros a ok s1 s2 [H1 H2] Hs. split; [by eapply inv_main_step|].
  by eapply exit_event_step.
Qed.

(** A started worker, scheduled on its own with every call succeeding,
    reaches its [break]. *)
Lemma worker_runs_to_exit queue0 s i pc :
  inv queue0 s -> calcProc s !! i = Some pc -> pc <> WNew ->
  (forall e, pc <> WRaised e) ->
  exists n s', run (replicate n (Calc i, true)) s = Some s'
               /\ calcProc s' !! i = Some WExit.
Proof.
  remember (measure s) as m eqn:Hm. revert s pc Hm.
  induction m as [m IH] using lt_wf_ind. intros s pc -> Hinv Hi Hnew Hraised.
  destruct (wfinished pc) eqn:Hf.
  { exists 0%nat, s. destruct pc; try done. by destruct (Hraised e). }
  pose proof Hinv as (Hself & _ & _ & _ & _ & _ & Hsent & _).
  destruct (calc_enabled i true s pc Hsent Hi Hnew Hf) as [_ [s1 Hs1]].
  pose proof (step_measure (Calc i) true _ _ Hs1) as Hlt.
  pose proof (inv_step _ (Calc i) true _ _ Hinv Hs1) as Hinv1.
  destruct Hself as [Ht _].
  pose proof (step_calc_delta _ _ _ Ht Hs1) as (pc0 & pc' & Hi0 & Hc & Hr' & _).
  pose proof (step_calc_pc _ _ _ _ Hs1) as (pc1 & pc1' & Hi1 & Hc1 & _ & Hnew' & _).
  assert (pc1' = pc') as ->.
  { pose proof (lookup_lt_Some _ _ _ Hi) as Hlen.
    assert (<[i:=pc1']> (calcProc s) !! i = <[i:=pc']> (calcProc s) !! i) as Heq
        by (by rewrite <- Hc, <- Hc1).
    rewrite !list_lookup_insert_eq in Heq by done. by simplify_eq. }
  assert (calcProc s1 !! i = Some pc') as Hi'.
  { rewrite Hc. apply list_lookup_insert_eq. by eapply lookup_lt_Some. }
  destruct (IH _ Hlt s1 pc' eq_refl Hinv1 Hi' Hnew' Hr') as (n & s' & Hrun & Hex).
  exists (S n), s'. split; [|done]. simpl.
  by rewrite Hs1.
Qed.

(** C3: [find] seeds the work queue with the bins, in the order given,
    followed by exactly [workerCount] sentinels, and builds [workerCount]
    processes, all of which are started once the start loop is left. From
    then on a [None] is left on the queue for every started worker that has
    not ended, so its [get] never blocks; scheduled on, it leaves its loop
    on a [None]; and no schedule is longer than the measure of the start. *)
Theorem dispatch_queue_seeded (self : MarkerGeneFinder) (a : find_args)
    (world : gset string) (s0 : state models) :
  find_start self a world = inr s0 ->
  let workerCount := Z.to_nat (totalThreads self) in
  workerQueue s0 = binFiles a ++ replicate workerCount PyNone
  /\ length (calcProc s0) = workerCount
  /\ forall sched s,
      run sched s0 = Some s ->
      length (calcProc s) = workerCount
      /\ (length sched <= measure s0)%nat
      /\ ((forall k, main s <> OStartCalc k) -> main s <> OStartWriter ->
          Forall (fun pc => pc <> WNew) (calcProc s))
      /\ (forall i, calcProc s !! i = Some WExit -> EvGet i PyNone ∈ trace s)
      /\ forall i pc,
          calcProc s !! i = Some pc -> pc <> WNew -> wfinished pc = false ->
          PyNone ∈ workerQueue s
          /\ (forall ok, is_Some (step (Calc i) ok s))
          /\ exists n s', run (replicate n (Calc i, true)) s = Some s'
                          /\ calcProc s' !! i = Some WExit
                          /\ EvGet i PyNone ∈ trace s'.
Proof.
  intros Hs0 workerCount.
  pose proof (find_start_inr _ _ _ _ Hs0) as (_ & _ & _ & Hq & _ & _ & Hc & _).
  pose proof (inv_start _ _ _ _ Hs0) as [Hinv0 _].
  assert (forall i, calcProc s0 !! i <> Some WExit) as Hnoexit.
  { intros i. rewrite Hc. by intros [? _]%lookup_replicate. }
  split_and!; [done|by rewrite Hc, length_replicate|].
  intros sched s Hrun.
  pose proof (inv_run _ _ _ _ Hinv0 Hrun) as Hinv.
  pose proof Hinv as (_ & Hmain & _ & _ & _ & _ & Hsent & _).
  split_and!.
  - destruct (reachable_inv self a world s) as (s0' & ? & _ & _ & _ & ?); [|done].
    by exists s0, sched.
  - apply run_measure in Hrun. lia.
  - intros Hk Hw. apply Forall_lookup. intros j pc Hj ->.
    pose proof (lookup_lt_Some _ _ _ Hj) as Hlt. unfold inv_main in Hmain.
    destruct (main s) as [|k|k| | | |d] eqn:Hm; try done;
      try (by destruct (Hk k)); simpl in Hmain; destruct_and?;
      try (match goal with H : ended_below _ _ |- _ => by specialize (H _ _ Hj Hlt) end).
    match goal with H : started_below _ _ |- _ => destruct (H _ _ Hj) as [Hc' _] end.
    specialize (Hc' eq_refl). lia.
  - destruct Hinv0 as (_ & Hmain0 & _).
    exact (exit_event_run sched s0 s Hmain0 Hnoexit Hrun).
  - intros i pc Hi Hnew Hf. split_and!.
    + by destruct (calc_enabled i true s pc Hsent Hi Hnew Hf).
    + intros ok. by destruct (calc_enabled i ok s pc Hsent Hi Hnew Hf).
    + destruct (worker_runs_to_exit _ s i pc Hinv Hi Hnew) as (n & s' & Hrun' & Hex).
      { intros e ->. done. }
      exists n, s'. split_and!; try done.
      destruct Hinv0 as (_ & Hmain0 & _).
      apply (exit_event_run (sched ++ replicate n (Calc i, true)) s0 s' Hmain0 Hnoexit);
        [|done].
      by rewrite run_app, Hrun.
Qed.

(** ** The dictionary returned *)

Lemma copy_fold_lookup (m d : gmap string models) (ks : list string) (k : string) :
  fold_left (fun d binId =>
               match m !! binId with
               | Some v => <[binId := v]> d
               | None => d
               end) ks d !! k
  = match (if decide (k ∈ ks) then m !! k else None) with
    | Some v => Some v
    | None => d !! k
    end.
Proof.
  revert d. induction ks as [|k0 ks IH]; intros d.
  - simpl. destruct (decide (k ∈ [])) as [Hin|_]; [by apply elem_of_nil in Hin|done].
  - cbn [fold_left]. rewrite IH.
    destruct (decide (k ∈ ks)) as [Hin|Hnin];
      destruct (decide (k ∈ k0 :: ks)) as [Hin'|Hnin']; try set_solver.
    + destruct (m !! k) eqn:Hk; [done|].
      destruct (m !! k0) eqn:Hk0; [|done].
      rewrite lookup_insert_ne; [done|congruence].
    + assert (k = k0) as -> by set_solver.
      destruct (m !! k0) eqn:Hk0; [by rewrite lookup_insert_eq|done].
    + assert (k0 <> k) by set_solver.
      destruct (m !! k0); [by rewrite lookup_insert_ne|done].
Qed.

(** Lines 74-76 copy the managed dictionary as it is. *)
Lemma copy_dict_id (m : gmap string models) : copy_dict m = m.
Proof.
  apply map_eq. intros k. unfold copy_dict. rewrite copy_fold_lookup, lookup_empty.
  destruct (decide (k ∈ map fst (map_to_list m))) as [Hin|Hnin].
  - by destruct (m !! k).
  - destruct (m !! k) as [v|] eqn:Hk; [|done]. destruct Hnin.
    apply list_elem_of_In, in_map_iff. exists (k, v). split; [done|].
    apply list_elem_of_In. by apply elem_of_map_to_list.
Qed.

Lemma return_step a ok s s' :
  inv_main s ->
  (forall d, main s = OReturn d -> d = binIdToModels s) ->
  step a ok s = Some s' ->
  forall d, main s' = OReturn d -> d = binIdToModels s'.
Proof.
  intros Hmain Hinv H d Hd. destruct a as [|i|]; simpl in H.
  - pose proof (step_main_frame _ _ H) as (_ & _ & _ & Hm & _).
    rewrite Hm. step_cases; unfold start_from, join_from in *;
      repeat case_match; try done.
    by rewrite copy_dict_id.
  - pose proof (step_calc_main _ _ _ _ Hmain H) as Hc.
    apply step_calc_pc in H as (_ & _ & _ & _ & _ & _ & _ & _ & Hm).
    rewrite Hm in Hd. by rewrite Hd in Hc.
  - apply step_writer_frame in H as (_ & Hm & _ & Hdict & _).
    rewrite Hdict. apply Hinv. by rewrite <- Hm.
Qed.

Lemma return_run sched s0 s d :
  inv_main s0 -> main s0 = OStartWriter -> run sched s0 = Some s ->
  main s = OReturn d -> d = binIdToModels s.
Proof.
  intros Hmain0 Hm0 Hrun.
  cut (inv_main s /\ forall d, main s = OReturn d -> d = binIdToModels s).
  { intros [_ H]. apply H. }
  apply (run_invariant
           (fun s => inv_main s
                     /\ forall d, main s = OReturn d -> d = binIdToModels s))
    with sched s0; [|split; [done|]; intros d'; by rewrite Hm0|done].
  intros a ok s1 s2 [H1 H2] Hs. split; [by eapply inv_main_step|].
  by eapply return_step.
Qed.

(** What was dequeued is a prefix of what was seeded: once a [None] was
    dequeued, every path before it was. *)
Lemma dequeued_paths (files : list string) (n : nat) (g q : list pyval) :
  g ++ q = (PyStr <$> files) ++ replicate n PyNone -> PyNone ∈ g ->
  paths g = files.
Proof.
  revert g. induction files as [|f files IH]; intros g Hg Hin; simpl in *.
  - clear Hin. revert g Hg. induction n as [|n IHn]; intros g Hg; simpl in *.
    + by apply app_eq_nil in Hg as [-> _].
    + destruct g as [|v g]; [done|]. simplify_eq/=. eauto.
  - destruct g as [|v g]; [by apply elem_of_nil in Hin|]. simplify_eq/=.
    f_equal. apply IH; [done|]. set_solver.
Qed.


Lemma bind_finished {B} (g : wpc -> list B) (l : list wpc) :
  (forall pc, wfinished pc = true -> g pc = []) ->
  Forall (fun pc => wfinished pc = true) l -> l ≫= g = [].
Proof.
  intros Hg Hl. induction Hl as [|pc l Hpc _ IH]; [done|].
  by rewrite bind_cons, (Hg _ Hpc), IH.
Qed.

(** C1: on bins none of which is [None], with at least one worker, a run
    in which no call fails can reach the return of [find], and whenever it
    does, the keys of the dictionary returned are exactly the identifiers
    of the bins: every bin was dequeued once, in the order given, and the
    identifiers stored and the completions notified are those of the bins,
    each as often as its bin occurs. *)
Theorem result_keys_complete (self : MarkerGeneFinder) (a : find_args)
    (world : gset string) (files : list string) :
  binFiles a = PyStr <$> files -> files <> [] -> 1 <= totalThreads self ->
  exists s0 : state models,
    find_start self a world = inr s0
    /\ (exists sched d, no_failure sched /\ find self a world sched = Some (inr d))
    /\ forall sched s d,
        no_failure sched -> run sched s0 = Some s -> main s = OReturn d ->
        dom d = list_to_set (binIdFromFilename <$> files)
        /\ d = binIdToModels s
        /\ paths (gets (trace s)) = files
        /\ stores (trace s) ≡ₚ binIdFromFilename <$> files
        /\ puts (trace s) ≡ₚ binIdFromFilename <$> files.
Proof.
  intros Hfiles Hne Ht.
  destruct (find_start (models:=models) self a world) as [e|s0] eqn:Hs0.
  { apply find_start_inl in Hs0 as [Hb _]. rewrite Hfiles in Hb.
    by destruct files. }
  exists s0. split; [done|].
  pose proof (inv_start _ _ _ _ Hs0) as [Hinv0 Hjobs0].
  pose proof (find_start_inr _ _ _ _ Hs0)
    as (_ & _ & _ & Hq & _ & _ & Hc & _ & Hm0 & _).
  split.
  - destruct (run_to_return _ _ Hinv0) as (sched & s & d & Hok & Hrun & Hd).
    exists sched, d. split; [done|]. unfold find. by rewrite Hs0, Hrun, Hd.
  - intros sched s d Hok Hrun Hd.
    pose proof (inv_run _ _ _ _ Hinv0 Hrun) as Hinv.
    pose proof (inv_jobs_run _ _ _ _ Hok Hinv0 Hjobs0 Hrun) as (Hraised & Hj & Hst).
    pose proof Hinv as (_ & Hmain & _ & _ & _ & Hqueue & _ & Hexit & Hdict & _).
    assert (d = binIdToModels s) as Hdd.
    { destruct Hinv0 as (_ & Hmain0 & _).
      exact (return_run sched s0 s d Hmain0 Hm0 Hrun Hd). }
    assert (Forall (fun pc => wfinished pc = true) (calcProc s)) as Hfin.
    { unfold inv_main in Hmain. rewrite Hd in Hmain. destruct Hmain as [_ He].
      by apply ended_below_Forall. }
    assert (length (calcProc s) = Z.to_nat (totalThreads self)) as Hlen.
    { destruct (reachable_inv self a world s) as (? & _ & _ & _ & _ & ?); [|done].
      by exists s0, sched. }
    assert (PyNone ∈ gets (trace s)) as Hnone.
    { destruct (lookup_lt_is_Some_2 (calcProc s) 0) as [pc Hpc]; [lia|].
      apply (Hexit 0%nat). rewrite Hpc. f_equal.
      rewrite Forall_lookup in Hfin, Hraised.
      specialize (Hfin _ _ Hpc). specialize (Hraised _ _ Hpc).
      destruct pc; try done. by destruct (Hraised e). }
    assert (paths (gets (trace s)) = files) as Hpaths.
    { unfold inv_queue in Hqueue. rewrite Hq, Hfiles in Hqueue.
      by eapply dequeued_paths. }
    rewrite Hpaths in Hj.
    rewrite (bind_finished wjob) in Hj by (done || by intros []).
    rewrite (bind_finished wstored) in Hst by (done || by intros []).
    rewrite app_nil_r in Hj, Hst. symmetry in Hj.
    split_and!; try done.
    + rewrite Hdd. unfold inv_dict in Hdict. rewrite Hdict.
      apply set_eq. intros x. rewrite !elem_of_list_to_set.
      by rewrite Hst, Hj.
    + by rewrite Hst.
Qed.


(** ** The completion queue and the reporter *)

(** Once every worker has ended, nothing more is notified. *)
Lemma puts_frozen_step a ok s s' :
  inv_main s -> Forall (fun pc => wfinished pc = true) (calcProc s) ->
  step a ok s = Some s' ->
  puts (trace s') = puts (trace s) /\ calcProc s' = calcProc s.
Proof.
  intros Hmain Hfin H. destruct a as [|i|]; simpl in H.
  - pose proof (step_main_frame _ _ H) as (_ & -> & _). split; [done|].
    unfold inv_main in Hmain. step_cases.
    destruct Hmain as (_ & Hk & Hsb). apply lookup_lt_is_Some in Hk as [pc Hpc].
    rewrite Forall_lookup in Hfin. specialize (Hfin _ _ Hpc).
    destruct (Hsb _ _ Hpc) as [_ Hnew]. rewrite Hnew in Hfin by lia. done.
  - apply step_calc_pc in H as (pc & _ & Hi & _ & _ & _ & Hf & _).
    rewrite Forall_lookup in Hfin. specialize (Hfin _ _ Hi). congruence.
  - step_cases; by trace_simpl.
Qed.

Lemma puts_frozen_run sched s s' :
  inv_main s -> Forall (fun pc => wfinished pc = true) (calcProc s) ->
  run sched s = Some s' -> puts (trace s') = puts (trace s).
Proof.
  revert s. induction sched as [|[a ok] sched IH]; intros s Hmain Hfin Hrun;
    simplify_eq/=; [done|].
  destruct (step a ok s) as [s1|] eqn:Hs; [|done].
  pose proof (puts_frozen_step _ _ _ _ Hmain Hfin Hs) as [Hp Hc].
  rewrite <- Hp. apply IH; [by eapply inv_main_step|by rewrite Hc|done].
Qed.

Lemma reporter_done queue0 s :
  inv queue0 s -> rfinished (writeProc s) = true ->
  writeProc s = RExit /\ writerQueue s = []
  /\ seens (trace s) = (Some <$> puts (trace s)) ++ [None].
Proof.
  intros (_ & _ & Hsent & Hrep & Hnotes & _) Hf.
  unfold inv_sentinel in Hsent. unfold inv_report in Hrep. unfold inv_notes in Hnotes.
  assert (writerQueue s = []) as Hq.
  { destruct (main s); destruct_and?; try congruence.
    destruct Hsent as [(? & _ & ?)|[? _]]; [congruence|done]. }
  destruct (writeProc s); try done.
  destruct Hrep as (ids & Hs & _). split_and!; try done.
  rewrite Hs, Hq, notes_app, notes_Some in Hnotes. simpl in Hnotes.
  rewrite !app_nil_r in Hnotes. by rewrite <- Hnotes.
Qed.

(** C4: the sentinel of the completion queue is put by line 70 only, when
    every worker has been joined: at that step no sentinel is queued or
    seen yet and every notification put so far is seen or queued, so the
    sentinel goes behind all of them, and none is put later. A reporter
    that has ended has therefore seen every notification, then the
    sentinel; and from every state of a run some schedule leads to the
    return of [find], with the reporter ended. *)
Theorem completion_sentinel_after_join (self : MarkerGeneFinder) (a : find_args)
    (world : gset string) (s : state models) :
  reachable self a world s ->
  (main s = OPutNone ->
   Forall (fun pc => wfinished pc = true) (calcProc s)
   /\ (None ∉ writerQueue s) /\ (None ∉ seens (trace s))
   /\ notes (seens (trace s)) ++ notes (writerQueue s) = puts (trace s)
   /\ exists s', step Main true s = Some s'
                 /\ writerQueue s' = writerQueue s ++ [None]
                 /\ main s' = OJoinWriter)
  /\ ((None ∈ writerQueue s \/ None ∈ seens (trace s)) ->
      Forall (fun pc => wfinished pc = true) (calcProc s)
      /\ forall sched s', run sched s = Some s' -> puts (trace s') = puts (trace s))
  /\ (rfinished (writeProc s) = true ->
      writeProc s = RExit
      /\ seens (trace s) = (Some <$> puts (trace s)) ++ [None])
  /\ exists sched s' d,
      no_failure sched /\ run sched s = Some s' /\ main s' = OReturn d
      /\ writeProc s' = RExit.
Proof.
  intros Hreach.
  destruct (reachable_inv _ _ _ _ Hreach) as (s0 & _ & Hinv & _).
  pose proof Hinv as (_ & Hmain & Hsent & Hrep & Hnotes & _).
  assert (rfinished (writeProc s) = false -> None ∉ seens (trace s)) as Hunseen.
  { intros Hf. unfold inv_report in Hrep.
    destruct (writeProc s); try done; destruct_and?.
    - match goal with H : seens _ = [] |- _ => rewrite H end. set_solver.
    - match goal with H : seens _ = [] |- _ => rewrite H end. set_solver.
    - destruct Hrep as (ids & -> & _). intros (? & ? & _)%list_elem_of_fmap. done. }
  assert ((None ∈ writerQueue s \/ None ∈ seens (trace s)) ->
          Forall (fun pc => wfinished pc = true) (calcProc s)) as Hjoined.
  { intros Hnone. apply ended_below_Forall.
    unfold inv_main in Hmain. unfold inv_sentinel in Hsent.
    destruct (main s); simpl in *; destruct_and?; try done;
      destruct Hnone as [?|Hn]; try done; by apply Hunseen in Hn. }
  split_and!.
  - intros Hm. unfold inv_main in Hmain. unfold inv_sentinel in Hsent.
    rewrite Hm in Hmain, Hsent. destruct Hmain as [_ He]. destruct Hsent as [Hq Hf].
    split_and!; try done; [by apply ended_below_Forall|by apply Hunseen|].
    eexists. unfold step, step_main. rewrite Hm. split_and!; done.
  - intros Hnone. split; [by apply Hjoined|].
    intros sched s' Hrun. eapply puts_frozen_run; [done|by apply Hjoined|done].
  - intros Hf. by destruct (reporter_done _ _ Hinv Hf) as (? & _ & ?).
  - destruct (run_to_return _ _ Hinv) as (sched & s' & d & Hok & Hrun & Hd).
    exists sched, s', d. split_and!; try done.
    pose proof (inv_run _ _ _ _ Hinv Hrun) as Hinv'.
    destruct (reporter_done _ _ Hinv') as (? & _); [|done].
    destruct Hinv' as (_ & _ & Hsent' & _). unfold inv_sentinel in Hsent'.
    rewrite Hd in Hsent'. by destruct Hsent'.
Qed.

(** ** The two external tools *)

Lemma prodigal_world_step world a ok s s' :
  (world ⊆ orfs s /\ forall d, d ∈ prodigal_runs (trace s) -> d ∉ world) ->
  step a ok s = Some s' ->
  world ⊆ orfs s' /\ forall d, d ∈ prodigal_runs (trace s') -> d ∉ world.
Proof.
  intros [Hw Hr] H. destruct a as [|i|]; simpl in H.
  - by pose proof (step_main_frame _ _ H) as (_ & -> & _ & _ & -> & _).
  - step_cases; trace_simpl; try done; split; try done; try set_solver.
  - assert (orfs s' = orfs s /\ prodigal_runs (trace s') = prodigal_runs (trace s))
      as [-> ->]; [|done].
    step_cases; by trace_simpl.
Qed.


(** C5: at lines 95-97 a worker runs the gene caller on the bin's file
    exactly when the bin's directory has no called genes yet. When they
    exist the step logs nothing and goes on to line 100; when they do not,
    the call is logged, and on success the genes exist from then on and the
    worker goes on to line 100 as well. So over a whole run the gene
    caller is never run on a directory whose genes existed when [find]
    was entered. *)
Theorem gene_caller_iff_missing (self : MarkerGeneFinder) (a : find_args)
    (world : gset string) (s s' : state models) (i : nat) (f : string) (ok : bool) :
  reachable self a world s ->
  calcProc s !! i = Some (WProdigal f) -> step (Calc i) ok s = Some s' ->
  let binDir := binDir_of a f in
  (binDir ∈ orfs s ->
   trace s' = trace s /\ calcProc s' = <[i:=WModels f]> (calcProc s))
  /\ (binDir ∉ orfs s ->
      trace s' = trace s ++ [EvProdigalRun i binDir f (bNucORFs a)]
      /\ calcProc s'
         = <[i:=if ok then WModels f else WRaised ToolError]> (calcProc s)
      /\ (ok = true -> binDir ∈ orfs s'))
  /\ (prodigal_runs (trace s') <> prodigal_runs (trace s) <-> binDir ∉ orfs s)
  /\ world ⊆ orfs s
  /\ forall d, d ∈ prodigal_runs (trace s') -> d ∉ world.
Proof.
  intros Hreach Hi Hs binDir.
  destruct (reachable_inv _ _ _ _ Hreach) as (s0 & Hs0 & _ & _ & Ha & _).
  assert (world ⊆ orfs s /\ forall d, d ∈ prodigal_runs (trace s) -> d ∉ world)
    as Hworld.
  { destruct Hreach as (s1 & sched & Hs1 & Hrun).
    pose proof (find_start_inr _ _ _ _ Hs1)
      as (_ & _ & _ & _ & _ & _ & _ & _ & _ & Ho & _ & _ & _ & _ & _ & Hp).
    apply (run_invariant
             (fun s => world ⊆ orfs s
                       /\ forall d, d ∈ prodigal_runs (trace s) -> d ∉ world))
      with sched s1; [|split; [by rewrite Ho|rewrite Hp; set_solver]|done].
    intros x ok' s2 s3 [H1 H2] Hstep. by eapply prodigal_world_step. }
  pose proof (prodigal_world_step world _ _ _ _ Hworld Hs) as [_ Hruns'].
  destruct Hworld as [Hw _].
  refine (conj _ (conj _ (conj _ (conj Hw Hruns')))); clear Hruns';
    simpl in Hs; unfold step_calc in Hs; rewrite Hi, Ha in Hs; fold binDir in Hs;
    (destruct (decide (binDir ∈ orfs s)) as [Hin|Hnin]; [|destruct ok]);
    simplify_eq/=; trace_simpl; try done.
  - intros _. split_and!; try done. intros _. set_solver.
  - split; [done|]. intros _ Heq.
    apply (f_equal length) in Heq. rewrite length_app in Heq. simpl in Heq. lia.
  - split; [done|]. intros _ Heq.
    apply (f_equal length) in Heq. rewrite length_app in Heq. simpl in Heq. lia.
Qed.

Lemma find_start_trace self a world s0 :
  find_start self a world = inr s0 ->
  trace s0 = if verbose self
             then [EvLogInfo (infoMsg (len (binFiles a)) (totalThreads self))]
             else [].
Proof.
  unfold find_start. intros H.
  destruct (py_div (totalThreads self) (len (binFiles a))); by simplify_eq.
Qed.

(** What a failure-free run on bins that are all paths, with a worker, has
    done by the time [find] returns. *)
Lemma ok_return_facts (self : MarkerGeneFinder) (a : find_args) (world : gset string)
    (files : list string) (s0 s : state models) (sched : list (actor * bool))
    (d : gmap string models) :
  find_start self a world = inr s0 -> binFiles a = PyStr <$> files ->
  1 <= totalThreads self -> no_failure sched -> run sched s0 = Some s ->
  main s = OReturn d ->
  Forall (fun pc => pc = WExit) (calcProc s)
  /\ paths (gets (trace s)) = files
  /\ stores (trace s) ≡ₚ binIdFromFilename <$> files
  /\ d = binIdToModels s
  /\ dom d = list_to_set (binIdFromFilename <$> files).
Proof.
  intros Hs0 Hfiles Ht Hok Hrun Hd.
  pose proof (inv_start _ _ _ _ Hs0) as [Hinv0 Hjobs0].
  pose proof (find_start_inr _ _ _ _ Hs0)
    as (_ & _ & _ & Hq & _ & _ & Hc & _ & Hm0 & _).
  pose proof (inv_run _ _ _ _ Hinv0 Hrun) as Hinv.
  pose proof (inv_jobs_run _ _ _ _ Hok Hinv0 Hjobs0 Hrun) as (Hraised & Hj & Hst).
  pose proof Hinv as (_ & Hmain & _ & _ & _ & Hqueue & _ & Hexit & Hdict & _).
  assert (d = binIdToModels s) as Hdd.
  { destruct Hinv0 as (_ & Hmain0 & _).
    exact (return_run sched s0 s d Hmain0 Hm0 Hrun Hd). }
  assert (Forall (fun pc => wfinished pc = true) (calcProc s)) as Hfin.
  { unfold inv_main in Hmain. rewrite Hd in Hmain. destruct Hmain as [_ He].
    by apply ended_below_Forall. }
  assert (Forall (fun pc => pc = WExit) (calcProc s)) as Hex.
  { rewrite Forall_lookup in Hfin, Hraised. apply Forall_lookup. intros j pc Hj'.
    specialize (Hfin _ _ Hj'). specialize (Hraised _ _ Hj').
    destruct pc; try done. by destruct (Hraised e). }
  assert (length (calcProc s) = Z.to_nat (totalThreads self)) as Hlen.
  { destruct (reachable_inv self a world s) as (? & _ & _ & _ & _ & ?); [|done].
    by exists s0, sched. }
  assert (PyNone ∈ gets (trace s)) as Hnone.
  { destruct (lookup_lt_is_Some_2 (calcProc s) 0) as [pc Hpc]; [lia|].
    apply (Hexit 0%nat). rewrite Hpc. f_equal.
    rewrite Forall_lookup in Hex. by apply (Hex _ _ Hpc). }
  assert (paths (gets (trace s)) = files) as Hpaths.
  { unfold inv_queue in Hqueue. rewrite Hq, Hfiles in Hqueue.
    by eapply dequeued_paths. }
  rewrite Hpaths in Hj.
  rewrite (bind_finished wjob) in Hj by (done || by intros []).
  rewrite (bind_finished wstored) in Hst by (done || by intros []).
  rewrite app_nil_r in Hj, Hst. symmetry in Hj.
  split_and!; try done.
  - by rewrite Hst.
  - rewrite Hdd. unfold inv_dict in Hdict. rewrite Hdict.
    apply set_eq. intros x. rewrite !elem_of_list_to_set. by rewrite Hst, Hj.
Qed.









(** ** A failing [os.remove] *)

Lemma reachable_run self a world sched s s' :
  reachable self a world s -> run sched s = Some s' -> reachable self a world s'.
Proof.
  intros (s0 & sched0 & Hs0 & Hrun) Hrun'. exists s0, (sched0 ++ sched).
  split; [done|]. rewrite run_app, Hrun. done.
Qed.

Lemma dict_grows_step a ok s s' :
  step a ok s = Some s' -> dom (binIdToModels s) ⊆ dom (binIdToModels s').
Proof.
  intros H. destruct a as [|i|]; simpl in H.
  - by pose proof (step_main_frame _ _ H) as (_ & _ & _ & -> & _).
  - step_cases; rewrite ?dom_insert_L; set_solver.
  - by apply step_writer_frame in H as (_ & _ & _ & -> & _).
Qed.

Lemma dict_grows_run sched s s' :
  run sched s = Some s' -> dom (binIdToModels s) ⊆ dom (binIdToModels s').
Proof.
  revert s. induction sched as [|[x ok] sched IH]; intros s H; simpl in H.
  - by simplify_eq.
  - destruct (step x ok s) as [s1|] eqn:Hs; [|done].
    etrans; [by eapply dict_grows_step|by apply IH].
Qed.


(** A worker ended by an exception stays ended and notifies nothing more. *)
Lemma raised_stays_step (i : nat) (e : exn) (T : list event) a ok s s' :
  (inv_main s /\ calcProc s !! i = Some (WRaised e)
   /\ forall b, EvPut i b ∈ trace s -> EvPut i b ∈ T) ->
  step a ok s = Some s' ->
  inv_main s' /\ calcProc s' !! i = Some (WRaised e)
  /\ forall b, EvPut i b ∈ trace s' -> EvPut i b ∈ T.
Proof.
  intros (Hmain & Hi & HT) H. split; [by eapply inv_main_step|].
  destruct a as [|j|]; simpl in H.
  - pose proof (step_main_frame _ _ H) as (_ & -> & _). split; [|done].
    unfold inv_main in Hmain. step_cases.
    destruct Hmain as (_ & _ & Hsb).
    rewrite list_lookup_insert_ne; [done|]. intros ->.
    destruct (Hsb _ _ Hi) as [_ Hnew]. by specialize (Hnew (le_n _)).
  - assert (j <> i) as Hne.
    { intros ->. apply step_calc_pc in H as (pc & _ & Hpc & _ & _ & _ & Hf & _).
      rewrite Hi in Hpc. by simplify_eq. }
    split.
    + apply step_calc_pc in H as (_ & pc' & _ & -> & _).
      by rewrite list_lookup_insert_ne.
    + intros b. step_cases; rewrite ?elem_of_app, ?list_elem_of_singleton;
        intros Hb; destruct_or?; simplify_eq; eauto.
  - split.
    + apply step_writer_frame in H as (-> & _). done.
    + intros b. step_cases; rewrite ?elem_of_app, ?list_elem_of_singleton;
        intros Hb; destruct_or?; simplify_eq; eauto.
Qed.

Lemma raised_stays_run (i : nat) (e : exn) sched s s' :
  inv_main s -> calcProc s !! i = Some (WRaised e) -> run sched s = Some s' ->
  calcProc s' !! i = Some (WRaised e)
  /\ forall b, EvPut i b ∈ trace s' -> EvPut i b ∈ trace s.
Proof.
  intros Hmain Hi Hrun.
  cut (inv_main s' /\ calcProc s' !! i = Some (WRaised e)
       /\ forall b, EvPut i b ∈ trace s' -> EvPut i b ∈ trace s); [tauto|].
  apply (run_invariant
           (fun s1 => inv_main s1 /\ calcProc s1 !! i = Some (WRaised e)
                      /\ forall b, EvPut i b ∈ trace s1 -> EvPut i b ∈ trace s))
    with sched s; [|done|done].
  intros a ok s1 s2 H1 Hs. by eapply raised_stays_step.
Qed.

(** C8, as the code has it: line 118 calls [os.remove] with no handler.
    When the call raises, the exception ends the worker: this module
    catches and logs nothing, the runtime prints the traceback to the
    diagnostic stream, the bin's identifier is not put on the completion
    queue, and the worker never moves again, so it takes no further bin and
    notifies nothing more. The models of the bin, stored at line 104, stay
    in the dictionary. The other processes go on: whoever could move can
    still move, and the run can reach the return of [find], with the
    reporter ended and the bin's identifier among the keys returned. *)
Theorem remove_failure_ends_worker (self : MarkerGeneFinder) (a : find_args)
    (world : gset string) (s s' : state models) (i : nat) (f hmmModelFile : string) :
  reachable self a world s ->
  calcProc s !! i = Some (WRemove f hmmModelFile) ->
  step (Calc i) false s = Some s' ->
  calcProc s' = <[i:=WRaised OSError]> (calcProc s)
  /\ trace s' = trace s ++ [EvRemove i hmmModelFile]
  /\ writerQueue s' = writerQueue s /\ workerQueue s' = workerQueue s
  /\ stderr s' = stderr s ++ [Traceback (Calc i) OSError]
  /\ binIdToModels s' = binIdToModels s
  /\ binIdFromFilename f ∈ dom (binIdToModels s')
  /\ main s' = main s /\ writeProc s' = writeProc s
  /\ (forall x ok, x <> Calc i -> is_Some (step x ok s) -> is_Some (step x ok s'))
  /\ (exists sched s'' d,
         no_failure sched /\ run sched s' = Some s'' /\ main s'' = OReturn d
         /\ writeProc s'' = RExit /\ binIdFromFilename f ∈ dom d)
  /\ forall sched s'',
      run sched s' = Some s'' ->
      calcProc s'' !! i = Some (WRaised OSError)
      /\ (forall ok, step (Calc i) ok s'' = None)
      /\ forall b, EvPut i b ∈ trace s'' -> EvPut i b ∈ trace s.
Proof.
  intros Hreach Hi Hs.
  destruct (reachable_inv _ _ _ _ Hreach) as (s0 & Hs0 & Hinv & _).
  pose proof (inv_step _ _ _ _ _ Hinv Hs) as Hinv'.
  pose proof Hinv as (_ & _ & _ & _ & _ & _ & _ & _ & _ & Hstored).
  pose proof (lookup_lt_Some _ _ _ Hi) as Hlt.
  assert (binIdFromFilename f ∈ dom (binIdToModels s)) as Hdom.
  { apply (Hstored i _ f Hi). set_solver. }
  assert (reachable self a world s') as Hreach'.
  { apply (reachable_run _ _ _ [(Calc i, false)] s); [done|]. cbn [run].
    by rewrite Hs. }
  simpl in Hs. unfold step_calc in Hs. rewrite Hi in Hs. simplify_eq/=.
  split_and!; try done.
  - intros x ok Hx [s1 H1]. destruct x as [|j|]; simpl in *.
    + unfold step_main in *. simpl. rewrite length_insert.
      destruct (main s) as [|k|k| | | |]; simplify_eq/=; eauto.
      * destruct (decide (k = i)) as [->|Hne].
        -- rewrite Hi in H1. done.
        -- rewrite list_lookup_insert_ne by done.
           destruct (calcProc s !! k) as [pc|]; [|done].
           destruct (wfinished pc); [eauto|done].
      * destruct (rfinished (writeProc s)); [eauto|done].
    + unfold step_calc in *. simpl.
      rewrite list_lookup_insert_ne by congruence.
      destruct (calcProc s !! j) as [pc|]; [|done].
      destruct pc; simplify_eq/=; repeat (case_match; simplify_eq/=); eauto.
    + unfold step_writer in *. simpl.
      repeat (case_match; simplify_eq/=); eauto.
  - destruct (run_to_return _ _ Hinv') as (sched & s'' & d & Hok & Hrun & Hd).
    pose proof (inv_run _ _ _ _ Hinv' Hrun) as Hinv''.
    exists sched, s'', d. split_and!; try done.
    + pose proof Hinv'' as (_ & _ & Hsent & _).
      unfold inv_sentinel in Hsent. rewrite Hd in Hsent. destruct Hsent as [_ Hrf].
      by destruct (reporter_done _ _ Hinv'' Hrf) as (? & _).
    + pose proof (reachable_run _ _ _ _ _ _ Hreach' Hrun) as (s0' & sched' & Hs0' & Hrun').
      rewrite Hs0 in Hs0'. injection Hs0' as <-.
      pose proof (inv_start _ _ _ _ Hs0) as [(_ & Hmain0 & _) _].
      pose proof (find_start_inr _ _ _ _ Hs0)
        as (_ & _ & _ & _ & _ & _ & _ & _ & Hm0 & _).
      rewrite (return_run sched' s0 s'' d Hmain0 Hm0 Hrun' Hd).
      by apply (dict_grows_run _ _ _ Hrun).
  - intros sched s'' Hrun.
    destruct Hinv' as (_ & Hmain' & _).
    destruct (raised_stays_run i OSError sched _ s'' Hmain') as [Hi'' Hputs]; [|done|].
    { simpl. by apply list_lookup_insert_eq. }
    split_and!; [done| |].
    + intros ok. simpl. unfold step_calc. by rewrite Hi''.
    + intros b Hb. apply Hputs in Hb. simpl in Hb.
      apply elem_of_app in Hb as [?|Hb]; [done|].
      by apply list_elem_of_singleton in Hb.
Qed.

(** ** What the reporter writes *)

Lemma status_line_text (done numBins : Z) :
  status_line done numBins
  = "    Finished processing " +:+ str done +:+ " of " +:+ str numBins +:+ " ("
    +:+ fmt_2f (percent done numBins) +:+ "%) bins." +:+ CR.
Proof.
  unfold status_line, status_text.
  repeat first [rewrite append_cons | rewrite append_assoc_L | rewrite append_nil_l].
  reflexivity.
Qed.

(** The status line is there unless the division raises. *)
Lemma statusStr_ok (n : Z) (numBins : pynum) :
  num_val numBins <> 0 -> py_float numBins <> inl OverflowError ->
  statusStr n numBins = inr (status_text n (num_val numBins)).
Proof.
  intros HN Hf. unfold statusStr. apply Z.eqb_neq in HN. rewrite HN.
  destruct numBins as [m|m]; cbn [py_float] in *; [done|].
  by destruct (Prim2SF (float_of_Z m)).
Qed.

Lemma statusStr_raises (n : Z) (numBins : pynum) :
  (py_float numBins = inl OverflowError -> statusStr n numBins = inl OverflowError)
  /\ (py_float numBins <> inl OverflowError -> num_val numBins = 0 ->
      statusStr n numBins = inl ZeroDivisionError).
Proof.
  unfold statusStr. split.
  - by intros ->.
  - intros Hf ->. destruct (py_float numBins) as [e|x] eqn:He; [|done].
    destruct numBins as [m|m]; cbn [py_float] in He; [done|].
    by destruct (Prim2SF (float_of_Z m)); simplify_eq.
Qed.

Example statusStr_examples :
  statusStr 0 (10 ^ 400) = inl OverflowError
  /\ statusStr 0 0 = inl ZeroDivisionError
  /\ statusStr 1 (10 ^ 18)
     = inr "    Finished processing 1 of 1000000000000000000 (0.00%) bins.".
Proof. split_and!; vm_compute; reflexivity. Qed.

Lemma reportLoop_lines (v : bool) (n : Z) (numBins : pynum) (ids : list string) :
  num_val numBins <> 0 -> py_float numBins <> inl OverflowError ->
  reportLoop v n numBins ((Some <$> ids) ++ [None])
  = inr (if v
         then map (fun k => status_line (n + Z.of_nat k) (num_val numBins))
                (seq 1 (length ids))
              ++ [LF]
         else []).
Proof.
  intros HN Hf. revert n. induction ids as [|x ids IH]; intros n.
  - simpl. by destruct v.
  - rewrite fmap_cons. cbn [app reportLoop length seq map].
    rewrite statusStr_ok by done.
    destruct v; [|by rewrite IH].
    assert (map (fun k => status_line (n + 1 + Z.of_nat k) (num_val numBins))
                (seq 1 (length ids))
            = map (fun k => status_line (n + Z.of_nat k) (num_val numBins))
                (seq 2 (length ids))) as Hm.
    { rewrite <- (seq_shift (length ids) 1), map_map. apply map_ext.
      intros k. f_equal. lia. }
    rewrite IH, Hm. reflexivity.
Qed.

(** C9, as the code has it: with the level at [INFO] or below the reporter
    first writes the status line for 0 bins done, then one status line per
    completion it dequeues, so [N + 1] lines for [N] completions, each
    ['    Finished processing <done> of <total> (<pct>%) bins.'] with a
    carriage return, the [k]-th for [done = k], where [pct] is ['%.2f'] of
    the double [float(done)*100/total]; on the sentinel it writes a
    newline. With the level above [INFO] it writes nothing. The last line
    of [N] completions of [N] bins shows 100.00, for every [N] below
    [2^1000]. In a run of [find] these are the strings the diagnostic
    stream holds once the reporter has ended, for the completions
    notified. The total is taken not to be zero and to fit a double, the
    two cases in which the division raises. *)
Theorem progress_report (self : MarkerGeneFinder) (numBins : pynum)
    (ids : list string) :
  num_val numBins <> 0 -> py_float numBins <> inl OverflowError ->
  let total := num_val numBins in
  reportProgress self numBins ((Some <$> ids) ++ [None])
  = inr (if verbose self then status_lines total (length ids) ++ [LF] else [])
  /\ length (status_lines total (length ids)) = S (length ids)
  /\ (forall k : nat,
         (k <= length ids)%nat ->
         status_lines total (length ids) !! k
         = Some ("    Finished processing " +:+ str (Z.of_nat k) +:+ " of "
                 +:+ str total +:+ " (" +:+ fmt_2f (percent (Z.of_nat k) total)
                 +:+ "%) bins." +:+ CR))
  /\ (total = len ids -> total < 2 ^ 1000 ->
      fmt_2f (percent (len ids) total) = "100.00")
  /\ forall (a : find_args) (world : gset string) (s : state models),
      reachable self a world s -> writeProc s = RExit ->
      total = len (binFiles a) ->
      written (stderr s)
      = (if verbose self
         then status_lines total (length (puts (trace s))) ++ [LF]
         else []).
Proof.
  intros HN Hf total. split_and!.
  - unfold reportProgress. rewrite statusStr_ok by done.
    rewrite !reportLoop_lines by done. destruct (verbose self); [|done].
    unfold status_lines. cbn [seq map]. do 2 f_equal.
  - unfold status_lines. by rewrite length_map, length_seq.
  - intros k Hk. unfold status_lines. rewrite list_lookup_fmap.
    rewrite lookup_seq_lt by lia. simpl. by rewrite status_line_text.
  - intros Heq Hlt. rewrite <- Heq. apply percent_all_done.
    split; [|done]. assert (0 <= total) by (rewrite Heq; unfold len; lia).
    unfold total in *. lia.
  - intros a world s Hreach Hw Heq. rewrite Heq.
    destruct (reachable_inv _ _ _ _ Hreach) as (s0 & Hs0 & Hinv & Hfi & Ha & _).
    destruct (reporter_done _ _ Hinv) as (_ & _ & Hseen); [by rewrite Hw|].
    pose proof (find_start_inr _ _ _ _ Hs0) as (_ & Hf0 & _).
    destruct Hinv as (_ & _ & _ & Hrep & _). unfold inv_report in Hrep.
    rewrite Hw, Hseen, Hfi, Hf0, Ha in Hrep.
    destruct Hrep as (ids' & Hids & ->).
    apply app_inj_tail in Hids as [Hids _].
    apply (inj (fmap Some)) in Hids. by rewrite Hids.
Qed.

(** ** More on the queues, the dictionary and the end of a run *)

Lemma exited_insert l i pc pc' :
  l !! i = Some pc ->
  (exited (<[i:=pc']> l) + match pc with WExit => 1 | _ => 0 end
   = exited l + match pc' with WExit => 1 | _ => 0 end)%nat.
Proof. apply sum_list_with_insert. Qed.

Lemma sentinels_conserved_step a ok s s' :
  inv_main s -> step a ok s = Some s' ->
  (count_None (workerQueue s') + exited (calcProc s')
   = count_None (workerQueue s) + exited (calcProc s))%nat.
Proof.
  intros Hmain H. destruct a as [|i|]; simpl in H.
  - pose proof (step_main_frame _ _ H) as (-> & _). f_equal.
    unfold inv_main in Hmain. step_cases.
    destruct Hmain as (_ & Hk & Hs). apply lookup_lt_is_Some in Hk as [pc Hpc].
    assert (pc = WNew) as -> by (apply (Hs _ _ Hpc); lia).
    pose proof (exited_insert _ _ _ WStart Hpc) as Hu. simpl in Hu. lia.
  - unfold step_calc in H. destruct (calcProc s !! i) as [pc|] eqn:Hi; [|done].
    destruct pc; simplify_eq/=; repeat (case_match; simplify_eq/=; try done);
      match goal with
      | |- context [exited (<[i:=?pc']> _)] =>
          pose proof (exited_insert _ _ _ pc' Hi) as Hu
      end; simpl in *; unfold count_None in *; simpl in *; lia.
  - apply step_writer_frame in H as (-> & _ & -> & _). done.
Qed.

Lemma sentinel_balance self a world s0 sched s :
  find_start self a world = inr s0 -> run sched s0 = Some s ->
  (count_None (workerQueue s) + exited (calcProc s)
   = count_None (workerQueue s0))%nat.
Proof.
  intros Hs0 Hrun.
  pose proof (inv_start _ _ _ _ Hs0) as [(_ & Hmain0 & _) _].
  pose proof (find_start_inr _ _ _ _ Hs0) as (_ & _ & _ & _ & _ & _ & Hc & _).
  cut (inv_main s
       /\ (count_None (workerQueue s) + exited (calcProc s)
           = count_None (workerQueue s0))%nat); [tauto|].
  apply (run_invariant
           (fun s => inv_main s
                     /\ (count_None (workerQueue s) + exited (calcProc s)
                         = count_None (workerQueue s0))%nat))
    with sched s0; [| |done].
  - intros x ok s1 s2 [H1 H2] Hs. split; [by eapply inv_main_step|].
    rewrite <- H2. by eapply sentinels_conserved_step.
  - split; [done|]. rewrite Hc.
    assert (exited (replicate (Z.to_nat (totalThreads self)) WNew) = 0%nat) as ->; [|lia].
    generalize (Z.to_nat (totalThreads self)). intros n.
    induction n as [|n IH]; [done|]. unfold exited in *. simpl. lia.
Qed.

(** X2: sentinels are neither lost nor made: in every state of a run, with
    or without failures, the [None]s still on the work queue and the workers
    that left their loop add up to the [None]s seeded, one per worker plus
    those among the bins. A worker ended by an exception leaves its sentinel
    on the queue. *)
Theorem sentinels_conserved (self : MarkerGeneFinder) (a : find_args)
    (world : gset string) (s : state models) :
  reachable self a world s ->
  (count_None (workerQueue s) + exited (calcProc s)
   = Z.to_nat (totalThreads self) + count_None (binFiles a))%nat.
Proof.
  intros (s0 & sched & Hs0 & Hrun).
  rewrite (sentinel_balance _ _ _ _ _ _ Hs0 Hrun).
  pose proof (find_start_inr _ _ _ _ Hs0) as (_ & _ & _ & -> & _).
  rewrite count_None_app, count_None_sentinels. lia.
Qed.

Lemma count_None_paths (q : list pyval) :
  (count_None q + length (paths q) = length q)%nat.
Proof.
  unfold count_None. induction q as [|[|f] q IH]; simpl in *; lia.
Qed.

Lemma count_None_strs (files : list string) : count_None (PyStr <$> files) = 0%nat.
Proof.
  unfold count_None. induction files as [|f files IH]; [done|].
  rewrite fmap_cons. cbn [sum_list_with eq_None]. lia.
Qed.

Lemma paths_strs (files : list string) : paths (PyStr <$> files) = files.
Proof. induction files as [|f files IH]; simpl; [done|]. by f_equal. Qed.

Lemma paths_sentinels (n : nat) : paths (replicate n PyNone) = [].
Proof. induction n as [|n IH]; simpl; done. Qed.

Lemma exited_all (l : list wpc) :
  Forall (fun pc => pc = WExit) l -> exited l = length l.
Proof.
  intros Hl. unfold exited. induction Hl as [|pc l -> _ IH]; simpl; [done|]. lia.
Qed.

(** X1: when no call fails, no bin is [None] and there is a worker, a run
    that reaches the return of [find] has emptied both queues: every bin and
    every one of the [workerCount] sentinels was dequeued, bins first and in
    the order given, each exactly once, and every worker left its loop by
    [break]. *)
Theorem queues_drained (self : MarkerGeneFinder) (a : find_args) (world : gset string)
    (files : list string) (s0 s : state models) (sched : list (actor * bool))
    (d : gmap string models) :
  find_start self a world = inr s0 -> binFiles a = PyStr <$> files ->
  1 <= totalThreads self -> no_failure sched -> run sched s0 = Some s ->
  main s = OReturn d ->
  workerQueue s = [] /\ writerQueue s = []
  /\ gets (trace s)
     = (PyStr <$> files) ++ replicate (Z.to_nat (totalThreads self)) PyNone
  /\ Forall (fun pc => pc = WExit) (calcProc s)
  /\ length (calcProc s) = Z.to_nat (totalThreads self).
Proof.
  intros Hs0 Hfiles Ht Hok Hrun Hd.
  destruct (ok_return_facts _ _ _ _ _ _ _ _ Hs0 Hfiles Ht Hok Hrun Hd)
    as (Hex & Hpaths & _).
  assert (reachable self a world s) as Hreach by (by exists s0, sched).
  pose proof (sentinel_balance _ _ _ _ _ _ Hs0 Hrun) as Hcons.
  destruct (reachable_inv _ _ _ _ Hreach) as (s0' & Hs0' & Hinv & _ & _ & Hlen).
  rewrite Hs0 in Hs0'. injection Hs0' as <-.
  pose proof (find_start_inr _ _ _ _ Hs0) as (_ & _ & _ & Hq & _).
  pose proof Hinv as (_ & _ & Hsent & _ & _ & Hqueue & _).
  rewrite (exited_all _ Hex), Hlen, Hq, Hfiles, count_None_app, count_None_strs,
    count_None_sentinels in Hcons.
  unfold inv_queue in Hqueue. rewrite Hq, Hfiles in Hqueue.
  assert (workerQueue s = []) as Hempty.
  { pose proof (f_equal paths Hqueue) as Hp.
    rewrite !paths_app, Hpaths, paths_strs, paths_sentinels, app_nil_r in Hp.
    assert (length (paths (workerQueue s)) = 0%nat) as Hl.
    { apply (f_equal length) in Hp. rewrite length_app in Hp. lia. }
    pose proof (count_None_paths (workerQueue s)) as Hc.
    apply length_zero_iff_nil. lia. }
  split_and!; try done.
  - unfold inv_sentinel in Hsent. rewrite Hd in Hsent. by destruct Hsent.
  - rewrite Hempty, app_nil_r in Hqueue. done.
Qed.

(** *** Runs in which calls may fail *)

(** What a step of a worker adds to the trace, whether its call succeeds or
    not, against the job it held before and holds after. *)
Lemma step_calc_any i ok s s' :
  step_calc i ok s = Some s' ->
  exists pc pc',
    calcProc s !! i = Some pc /\ calcProc s' = <[i:=pc']> (calcProc s)
    /\ gets (trace s') = gets (trace s) ++ delta_gets pc pc'
    /\ puts (trace s') = puts (trace s) ++ delta_puts pc
    /\ stores (trace s') = stores (trace s) ++ delta_stores pc pc'
    /\ (length (delta_puts pc) + length (wjob pc')
        <= length (paths (delta_gets pc pc')) + length (wjob pc))%nat
    /\ (forall f, f ∈ wjob pc' -> f ∈ wjob pc \/ f ∈ paths (delta_gets pc pc'))
    /\ (forall b, b ∈ delta_stores pc pc' ->
                  exists f, f ∈ wjob pc /\ b = binIdFromFilename f)
    /\ (forall b, b ∈ delta_puts pc ->
                  exists f, f ∈ wstored pc /\ b = binIdFromFilename f).
Proof.
  intros H. unfold step_calc in H.
  destruct (calcProc s !! i) as [pc|] eqn:Hi; [|done]. exists pc.
  destruct pc; simplify_eq/=; repeat (case_match; simplify_eq/=; try done);
    (eexists; split; [done|]; split; [reflexivity|]);
    trace_simpl; split_and!; try done; try lia;
    try (intros x Hx; set_solver).
Qed.

Lemma bind_wjob_length (l : list wpc) : (length (l ≫= wjob) <= length l)%nat.
Proof.
  induction l as [|pc l IH]; [done|].
  rewrite bind_cons, length_app. simpl. destruct pc; simpl; lia.
Qed.

Lemma inv_known_step queue0 a ok s s' :
  inv queue0 s -> inv_known s -> step a ok s = Some s' -> inv_known s'.
Proof.
  intros Hinv (Hst & Hjob & Hput) H.
  pose proof Hinv as (_ & Hmain & _ & _ & _ & _ & _ & _ & Hdict & Hstored).
  destruct a as [|i|]; simpl in H.
  - pose proof (step_main_frame _ _ H) as (_ & Htr & _). unfold inv_known.
    rewrite Htr. split_and!; [done| |done].
    intros j pc f Hj Hf.
    assert (exists pc0, calcProc s !! j = Some pc0 /\ f ∈ wjob pc0) as (pc0 & H0 & Hf0);
      [|by eapply Hjob].
    step_cases; eauto.
    destruct (decide (k = j)) as [->|Hne].
    + pose proof (lookup_lt_Some _ _ _ Hj) as Hlt. rewrite length_insert in Hlt.
      rewrite list_lookup_insert_eq in Hj by done. simplify_eq. set_solver.
    + rewrite list_lookup_insert_ne in Hj by done. eauto.
  - apply step_calc_any in H
      as (pc & pc' & Hi & Hc & Hg & Hp & Hs & _ & Hw & Hds & Hdp).
    unfold inv_known. rewrite Hc, Hg, Hp, Hs, paths_app, fmap_app.
    split_and!.
    + intros b [Hb|Hb]%elem_of_app; [specialize (Hst _ Hb); set_solver|].
      destruct (Hds _ Hb) as (f & Hf & ->).
      apply elem_of_app. left. apply list_elem_of_fmap_2. by eapply Hjob.
    + intros j pc0 f Hj Hf. destruct (decide (j = i)) as [->|Hne].
      * pose proof (lookup_lt_Some _ _ _ Hi) as Hlt.
        rewrite list_lookup_insert_eq in Hj by done. simplify_eq.
        destruct (Hw _ Hf) as [Hf'|Hf']; [|set_solver].
        apply elem_of_app. left. by eapply Hjob.
      * rewrite list_lookup_insert_ne in Hj by done.
        apply elem_of_app. left. by eapply Hjob.
    + intros b [Hb|Hb]%elem_of_app; [specialize (Hput _ Hb); set_solver|].
      destruct (Hdp _ Hb) as (f & Hf & ->).
      apply elem_of_app. left.
      pose proof (Hstored _ _ _ Hi Hf) as Hd. unfold inv_dict in Hdict.
      rewrite Hdict in Hd. by apply elem_of_list_to_set in Hd.
  - assert (calcProc s' = calcProc s /\ gets (trace s') = gets (trace s)
            /\ puts (trace s') = puts (trace s)
            /\ stores (trace s') = stores (trace s)) as (Hc & Hg & Hp & Hs).
    { step_cases; by trace_simpl. }
    unfold inv_known. rewrite Hc, Hg, Hp, Hs. done.
Qed.

Lemma inv_count_step a ok s s' :
  inv_main s -> inv_count s -> step a ok s = Some s' -> inv_count s'.
Proof.
  intros Hmain Hcount H. unfold inv_count in *. destruct a as [|i|]; simpl in H.
  - pose proof (step_main_frame _ _ H) as (_ & -> & _).
    assert (calcProc s' ≫= wjob = calcProc s ≫= wjob) as ->; [|done].
    unfold inv_main in Hmain. step_cases.
    destruct Hmain as (_ & Hlt & Hsb). apply lookup_lt_is_Some in Hlt as [pc Hpc].
    assert (pc = WNew) as -> by (apply (Hsb _ _ Hpc); lia).
    by apply (bind_insert_same _ _ _ _ _ Hpc).
  - apply step_calc_any in H
      as (pc & pc' & Hi & -> & -> & -> & _ & Hlen & _).
    pose proof (bind_insert_perm wjob _ _ _ pc' Hi) as Hperm.
    apply Permutation_length in Hperm. rewrite !length_app in Hperm.
    rewrite paths_app, !length_app. lia.
  - assert (calcProc s' = calcProc s /\ gets (trace s') = gets (trace s)
            /\ puts (trace s') = puts (trace s)) as (-> & -> & ->); [|done].
    step_cases; by trace_simpl.
Qed.

Lemma inv_values_step a ok s s' :
  inv_values s -> step a ok s = Some s' -> inv_values s'.
Proof.
  intros Hv H. pose proof (step_frame _ _ _ _ H) as (Hf & Ha & _).
  intros t b v Ht Hb. rewrite Hf in Ht. rewrite Ha.
  destruct a as [|i|]; simpl in H.
  - pose proof (step_main_frame _ _ H) as (_ & _ & _ & Hd & _).
    rewrite Hd in Hb. by eapply Hv.
  - assert (binIdToModels s' = binIdToModels s
            \/ exists f, binIdToModels s'
                         = <[binIdFromFilename f
                             := models_of t (args s) (binIdFromFilename f)]>
                             (binIdToModels s)) as [Hd|[f Hd]].
    { unfold step_calc in H. rewrite Ht in H.
      destruct (calcProc s !! i) as [pc|]; [|done].
      destruct pc; simplify_eq/=; repeat (case_match; simplify_eq/=; try done);
        eauto. }
    + rewrite Hd in Hb. by eapply Hv.
    + rewrite Hd in Hb. destruct (decide (b = binIdFromFilename f)) as [->|Hne].
      * rewrite lookup_insert_eq in Hb. by simplify_eq.
      * rewrite lookup_insert_ne in Hb by done. by eapply Hv.
  - apply step_writer_frame in H as (_ & _ & _ & Hd & _).
    rewrite Hd in Hb. by eapply Hv.
Qed.

Lemma reachable_more self a world s :
  reachable self a world s -> inv_known s /\ inv_count s /\ inv_values s.
Proof.
  intros (s0 & sched & Hs0 & Hrun).
  pose proof (inv_start _ _ _ _ Hs0) as [Hinv0 _].
  pose proof (find_start_inr _ _ _ _ Hs0)
    as (_ & _ & _ & _ & _ & Hd & Hc & _ & _ & _ & _ & Hg & Hp & Hst & _).
  cut (inv (workerQueue s0) s /\ inv_known s /\ inv_count s /\ inv_values s); [tauto|].
  apply (run_invariant
           (fun s => inv (workerQueue s0) s /\ inv_known s /\ inv_count s
                     /\ inv_values s)) with sched s0; [| |done].
  - intros x ok s1 s2 (H1 & H2 & H3 & H4) Hs. split_and!.
    + by eapply inv_step.
    + by eapply inv_known_step.
    + eapply inv_count_step; [|done..]. by destruct H1 as (_ & ? & _).
    + by eapply inv_values_step.
  - split_and!; [done| | |].
    + unfold inv_known. rewrite Hg, Hp, Hst, Hc. split_and!; try set_solver.
      intros i pc f [-> _]%lookup_replicate. set_solver.
    + unfold inv_count. rewrite Hg, Hp, Hc. simpl.
      assert (replicate (Z.to_nat (totalThreads self)) WNew ≫= wjob = []) as ->; [|done].
      generalize (Z.to_nat (totalThreads self)). intros n.
      induction n as [|n IH]; [done|]. cbn [replicate]. by rewrite bind_cons, IH.
    + intros t b v _. by rewrite Hd, lookup_empty.
Qed.

Lemma paths_dequeued self a world s :
  reachable self a world s ->
  exists rest, paths (binFiles a) = paths (gets (trace s)) ++ rest.
Proof.
  intros Hreach.
  destruct (reachable_inv _ _ _ _ Hreach) as (s0 & Hs0 & Hinv & _).
  pose proof (find_start_inr _ _ _ _ Hs0) as (_ & _ & _ & Hq & _).
  destruct Hinv as (_ & _ & _ & _ & _ & Hqueue & _).
  unfold inv_queue in Hqueue. rewrite Hq in Hqueue.
  apply (f_equal paths) in Hqueue.
  rewrite !paths_app, paths_sentinels, app_nil_r in Hqueue.
  by exists (paths (workerQueue s)).
Qed.

Lemma reachable_budget self a world s :
  reachable self a world s ->
  threadsPerSearch (finder s)
  = Some (Z.max 1 (totalThreads self / len (binFiles a)))
  /\ args s = a /\ binFiles a <> [].
Proof.
  intros Hreach.
  destruct (reachable_inv _ _ _ _ Hreach) as (s0 & Hs0 & _ & Hf & Ha & _).
  pose proof (find_start_inr _ _ _ _ Hs0) as (Hne & Hf0 & _).
  rewrite Hf, Hf0. done.
Qed.

(** X3: with [totalThreads <= 0] and at least one bin, [find] raises
    nothing and sets the thread budget to 1, but builds no worker and seeds
    no sentinel: in every state of the run the work queue still holds all
    the bins, nothing is dequeued, stored or notified, and the dictionary is
    empty; the run can reach the return, and whenever it does, [find]
    returns the empty dictionary. *)
Theorem no_threads_no_work (self : MarkerGeneFinder) (a : find_args)
    (world : gset string) :
  totalThreads self <= 0 -> binFiles a <> [] ->
  exists s0 : state models,
    find_start self a world = inr s0
    /\ threadsPerSearch (finder s0) = Some 1
    /\ calcProc s0 = [] /\ workerQueue s0 = binFiles a
    /\ (forall sched s,
           run sched s0 = Some s ->
           calcProc s = [] /\ workerQueue s = binFiles a /\ binIdToModels s = ∅
           /\ gets (trace s) = [] /\ puts (trace s) = []
           /\ forall d, main s = OReturn d -> d = ∅)
    /\ exists sched, no_failure sched /\ find self a world sched = Some (inr ∅).
Proof.
  intros Ht Hne.
  destruct (find_start self a world) as [e|s0] eqn:Hs0.
  { apply find_start_inl in Hs0 as [? _]. done. }
  pose proof (find_start_inr _ _ _ _ Hs0)
    as (_ & Hf & _ & Hq & _ & Hd & Hc & _ & Hm & _ & _ & Hg & Hp & _).
  assert (Z.to_nat (totalThreads self) = 0%nat) as Hz by lia.
  rewrite Hz in Hq, Hc. simpl in Hq, Hc. rewrite app_nil_r in Hq.
  assert (forall sched s,
             run sched s0 = Some s ->
             calcProc s = [] /\ workerQueue s = binFiles a /\ binIdToModels s = ∅
             /\ gets (trace s) = [] /\ puts (trace s) = []
             /\ forall d, main s = OReturn d -> d = ∅) as Hall.
  { intros sched s Hrun.
    apply (run_invariant
             (fun s => calcProc s = [] /\ workerQueue s = binFiles a
                       /\ binIdToModels s = ∅
                       /\ gets (trace s) = [] /\ puts (trace s) = []
                       /\ forall d, main s = OReturn d -> d = ∅))
      with sched s0; [| |done].
    - clear. intros x ok s1 s2 (Hc & Hq & Hd & Hg & Hp & Hr) Hs.
      destruct x as [|i|]; simpl in Hs.
      + pose proof (step_main_frame _ _ Hs) as (-> & -> & _ & -> & _).
        split_and!; try done.
        * unfold step_main in Hs. rewrite Hc in Hs.
          destruct (main s1); simplify_eq/=; try done;
            first [by rewrite Hc
                  |by destruct (rfinished (writeProc s1)); simplify_eq/=].
        * intros d Hm. unfold step_main in Hs. rewrite Hc, Hd in Hs.
          destruct (main s1); simplify_eq/=; try done;
            first [by destruct (rfinished (writeProc s1)); simplify_eq/=
                  |apply copy_dict_id].
      + unfold step_calc in Hs. rewrite Hc in Hs. done.
      + pose proof (step_writer_frame _ _ Hs) as (-> & Hm & -> & -> & _).
        rewrite Hm.
        assert (gets (trace s2) = gets (trace s1)
                /\ puts (trace s2) = puts (trace s1)) as [-> ->]; [|done].
        step_cases; by trace_simpl.
    - split_and!; try done. intros d. by rewrite Hm. }
  exists s0. split_and!; try done.
  - rewrite Hf. simpl. f_equal.
    assert (0 < len (binFiles a)) as Hlen.
    { unfold len. destruct (binFiles a); [done|]. simpl. lia. }
    assert (totalThreads self / len (binFiles a) <= 0)
      by (apply Z.div_le_upper_bound; lia).
    lia.
  - pose proof (inv_start _ _ _ _ Hs0) as [Hinv0 _].
    destruct (run_to_return _ _ Hinv0) as (sched & s & d & Hok & Hrun & Hret).
    exists sched. split; [done|]. unfold find. rewrite Hs0, Hrun, Hret.
    destruct (Hall _ _ Hrun) as (_ & _ & _ & _ & _ & Hempty).
    by rewrite (Hempty _ Hret).
Qed.

(** X4: [find] returns only when nothing is left running. In every run,
    failures included, at the return the dictionary returned is the managed
    dictionary as it then stands, every worker has ended, the reporter has
    ended on the sentinel having seen every notification put, the completion
    queue is empty, and no process can take a further step. *)
Theorem return_is_quiescent (self : MarkerGeneFinder) (a : find_args)
    (world : gset string) (s : state models) (d : gmap string models) :
  reachable self a world s -> main s = OReturn d ->
  d = binIdToModels s
  /\ Forall (fun pc => wfinished pc = true) (calcProc s)
  /\ writeProc s = RExit /\ writerQueue s = []
  /\ seens (trace s) = (Some <$> puts (trace s)) ++ [None]
  /\ (forall x ok, step x ok s = None)
  /\ forall sched s', run sched s = Some s' -> sched = [] /\ s' = s.
Proof.
  intros Hreach Hd.
  destruct (reachable_inv _ _ _ _ Hreach) as (s0 & Hs0 & Hinv & _).
  destruct Hreach as (s0' & sched & Hs0' & Hrun).
  rewrite Hs0 in Hs0'. injection Hs0' as <-.
  pose proof (inv_start _ _ _ _ Hs0) as [(_ & Hmain0 & _) _].
  pose proof (find_start_inr _ _ _ _ Hs0) as (_ & _ & _ & _ & _ & _ & _ & _ & Hm0 & _).
  pose proof Hinv as (_ & Hmain & Hsent & _).
  assert (Forall (fun pc => wfinished pc = true) (calcProc s)) as Hfin.
  { unfold inv_main in Hmain. rewrite Hd in Hmain. destruct Hmain as [_ He].
    by apply ended_below_Forall. }
  unfold inv_sentinel in Hsent. rewrite Hd in Hsent. destruct Hsent as [Hwq Hrf].
  destruct (reporter_done _ _ Hinv Hrf) as (Hw & _ & Hseen).
  assert (forall x ok, step x ok s = None) as Hstuck.
  { intros [|i|] ok; simpl.
    - unfold step_main. by rewrite Hd.
    - unfold step_calc. destruct (calcProc s !! i) as [pc|] eqn:Hi; [|done].
      rewrite Forall_lookup in Hfin. specialize (Hfin _ _ Hi). by destruct pc.
    - unfold step_writer. by rewrite Hw. }
  split_and!; try done.
  - exact (return_run sched s0 s d Hmain0 Hm0 Hrun Hd).
  - intros [|[x ok] sched'] s' Hrun'; simpl in Hrun'; [by simplify_eq|].
    by rewrite Hstuck in Hrun'.
Qed.

(** X5: in every state of a run, failures included, a key of the managed
    dictionary is the identifier of a path among the bins given, and the
    value under it is the models parsed from the model file made for that
    identifier and [markerFile] with the thread budget of line 45. *)
Theorem stored_models (self : MarkerGeneFinder) (a : find_args)
    (world : gset string) (s : state models) (b : string) (v : models) :
  reachable self a world s -> binIdToModels s !! b = Some v ->
  v = models_of (Z.max 1 (totalThreads self / len (binFiles a))) a b
  /\ exists f, PyStr f ∈ binFiles a /\ b = binIdFromFilename f.
Proof.
  intros Hreach Hb.
  destruct (reachable_more _ _ _ _ Hreach) as ((Hst & _) & _ & Hval).
  destruct (reachable_budget _ _ _ _ Hreach) as (Ht & Ha & _).
  destruct (reachable_inv _ _ _ _ Hreach) as (s0 & Hs0 & Hinv & _).
  destruct (paths_dequeued _ _ _ _ Hreach) as [rest Hrest].
  split.
  - rewrite <- Ha at 2. by eapply Hval.
  - destruct Hinv as (_ & _ & _ & _ & _ & _ & _ & _ & Hdict & _).
    unfold inv_dict in Hdict.
    assert (b ∈ dom (binIdToModels s)) as Hdom by (by apply elem_of_dom).
    rewrite Hdict in Hdom. apply elem_of_list_to_set in Hdom.
    apply Hst in Hdom. apply list_elem_of_fmap in Hdom as (f & -> & Hf).
    exists f. split; [|done].
    assert (f ∈ paths (binFiles a)) as Hin by (rewrite Hrest; set_solver).
    unfold paths in Hin. apply list_elem_of_omap in Hin as (x & Hx & Hxf).
    destruct x; by simplify_eq.
Qed.

(** X6: a completion is notified only for models that are stored, and the
    dictionary only grows: in every run, failures included, an identifier
    put on the completion queue is a key of the dictionary from then on,
    under a value that no later step changes. *)
Theorem notified_is_stored (self : MarkerGeneFinder) (a : find_args)
    (world : gset string) (s : state models) (b : string) :
  reachable self a world s -> b ∈ puts (trace s) ->
  exists v, binIdToModels s !! b = Some v
            /\ forall sched s', run sched s = Some s' ->
                                b ∈ puts (trace s')
                                /\ binIdToModels s' !! b = Some v.
Proof.
  intros Hreach Hb.
  destruct (reachable_more _ _ _ _ Hreach) as ((_ & _ & Hput) & _ & Hval).
  destruct (reachable_budget _ _ _ _ Hreach) as (Ht & Ha & _).
  destruct (reachable_inv _ _ _ _ Hreach) as (s0 & Hs0 & Hinv & _).
  destruct Hinv as (_ & _ & _ & _ & _ & _ & _ & _ & Hdict & _).
  unfold inv_dict in Hdict.
  assert (b ∈ dom (binIdToModels s)) as Hdom.
  { rewrite Hdict. apply elem_of_list_to_set. by apply Hput. }
  pose proof Hdom as [v Hv]%elem_of_dom. exists v. split; [done|].
  intros sched s' Hrun.
  pose proof (reachable_run _ _ _ _ _ _ Hreach Hrun) as Hreach'.
  destruct (reachable_more _ _ _ _ Hreach') as (_ & _ & Hval').
  destruct (reachable_budget _ _ _ _ Hreach') as (Ht' & Ha' & _).
  split.
  - pose proof (run_trace _ _ _ Hrun) as [tr ->].
    unfold puts in *. rewrite omap_app. set_solver.
  - pose proof (dict_grows_run _ _ _ Hrun _ Hdom) as [v' Hv']%elem_of_dom.
    rewrite Hv'. f_equal.
    rewrite (Hval _ _ _ Ht Hv), (Hval' _ _ _ Ht' Hv'), Ha, Ha'. done.
Qed.

(** *** Progress shown and threads used *)

(** What a step of a worker adds to the diagnostic stream: the traceback,
    when the step ends the worker by an exception. *)
Lemma step_calc_stderr i ok s s' :
  step_calc i ok s = Some s' ->
  exists pc pc',
    calcProc s !! i = Some pc /\ wfinished pc = false
    /\ calcProc s' = <[i:=pc']> (calcProc s)
    /\ stderr s'
       = stderr s ++ match pc' with WRaised e => [Traceback (Calc i) e] | _ => [] end.
Proof.
  intros H. unfold step_calc in H.
  destruct (calcProc s !! i) as [pc|] eqn:Hi; [|done]. exists pc.
  destruct pc; simplify_eq/=; repeat (case_match; simplify_eq/=; try done);
    (eexists; split; [done|]; split; [done|]; split; [reflexivity|]);
    simpl; by rewrite ?app_nil_r.
Qed.

Lemma inv_tracebacks_step a ok s s' :
  inv_self s -> inv_main s -> inv_tracebacks s -> step a ok s = Some s' ->
  inv_tracebacks s'.
Proof.
  intros Hself Hmain Hinv H p e. unfold inv_tracebacks in Hinv.
  destruct a as [|i|]; simpl in H.
  - pose proof (step_main_frame _ _ H) as (_ & _ & -> & _).
    rewrite Hinv.
    assert (calcProc s' = calcProc s
            \/ exists k, calcProc s !! k = Some WNew
                         /\ calcProc s' = <[k:=WStart]> (calcProc s)) as [->|(k & Hk & ->)].
    { unfold inv_main in Hmain. step_cases; eauto.
      destruct Hmain as (_ & Hlt & Hsb). apply lookup_lt_is_Some in Hlt as [pc Hpc].
      right. exists k. split; [|done]. rewrite Hpc. f_equal.
      apply (Hsb _ _ Hpc). lia. }
    + done.
    + pose proof (lookup_lt_Some _ _ _ Hk) as Hlt.
      split; intros (j & -> & Hj); exists j; (split; [done|]).
      * rewrite list_lookup_insert_ne; [done|]. intros ->. congruence.
      * destruct (decide (k = j)) as [->|Hne].
        -- rewrite list_lookup_insert_eq in Hj by done. done.
        -- by rewrite list_lookup_insert_ne in Hj.
  - apply step_calc_stderr in H as (pc & pc' & Hi & Hf & -> & ->).
    pose proof (lookup_lt_Some _ _ _ Hi) as Hlt.
    rewrite elem_of_app, Hinv. split.
    + intros [(j & -> & Hj)|Hin].
      * exists j. split; [done|]. rewrite list_lookup_insert_ne; [done|].
        intros ->. rewrite Hi in Hj. by simplify_eq.
      * exists i. destruct pc'; try (by apply elem_of_nil in Hin).
        apply list_elem_of_singleton in Hin. simplify_eq.
        split; [done|]. by rewrite list_lookup_insert_eq.
    + intros (j & -> & Hj). destruct (decide (i = j)) as [->|Hne].
      * rewrite list_lookup_insert_eq in Hj by done. simplify_eq.
        right. by apply list_elem_of_singleton.
      * rewrite list_lookup_insert_ne in Hj by done. left. by exists j.
  - apply step_writer_cases in H; [|done].
    destruct H as [[Hw ->]|[(n & x & q & Hw & Hq & ->)|(n & q & Hw & Hq & ->)]];
      destruct (verbose (finder s)); simpl; rewrite ?elem_of_app, Hinv;
      try done; (split; [intros [?|Hin]; [done|]|by left]);
      by apply list_elem_of_singleton in Hin.
Qed.

Lemma reachable_tracebacks self a world s :
  reachable self a world s -> inv_tracebacks s.
Proof.
  intros (s0 & sched & Hs0 & Hrun).
  pose proof (inv_start _ _ _ _ Hs0) as [Hinv0 _].
  pose proof (find_start_inr _ _ _ _ Hs0)
    as (_ & _ & _ & _ & _ & _ & Hc & _ & _ & _ & He & _).
  cut (inv (workerQueue s0) s /\ inv_tracebacks s); [tauto|].
  apply (run_invariant (fun s => inv (workerQueue s0) s /\ inv_tracebacks s))
    with sched s0; [| |done].
  - intros x ok s1 s2 (H1 & H2) Hs. split; [by eapply inv_step|].
    destruct H1 as (? & ? & _). by eapply inv_tracebacks_step.
  - split; [done|]. intros p e. rewrite He, Hc. split.
    + by intros ?%elem_of_nil.
    + by intros (i & _ & [? _]%lookup_replicate).
Qed.

(** X7: the progress shown never runs ahead of the work: in every state of
    a run, failures included, no more completions are notified than there
    are paths among the bins, the reporter's counter stays between 0 and
    [numBins], and the strings written to the diagnostic stream are none,
    or the status lines for [0 .. k] done, with or without the final
    newline, for some [k] that is at most the number of completions
    notified. Besides these strings the stream holds the traceback of
    every worker ended by an exception, and nothing else. *)
Theorem progress_bounded (self : MarkerGeneFinder) (a : find_args)
    (world : gset string) (s : state models) :
  reachable self a world s ->
  let numBins := len (binFiles a) in
  (length (puts (trace s)) <= length (paths (binFiles a)) <= length (binFiles a))%nat
  /\ (forall n, writeProc s = RLoop n -> 0 <= n <= numBins)
  /\ (exists k : nat,
         (k <= length (puts (trace s)))%nat
         /\ (written (stderr s) = [] \/ written (stderr s) = status_lines numBins k
             \/ written (stderr s) = status_lines numBins k ++ [LF]))
  /\ forall c, c ∈ stderr s ->
               (exists x, c = Written x /\ x ∈ written (stderr s))
               \/ (exists i e, c = Traceback (Calc i) e
                               /\ calcProc s !! i = Some (WRaised e)).
Proof.
  intros Hreach numBins.
  destruct (reachable_more _ _ _ _ Hreach) as (_ & Hcount & _).
  pose proof (reachable_tracebacks _ _ _ _ Hreach) as Htb.
  destruct (reachable_inv _ _ _ _ Hreach) as (s0 & Hs0 & Hinv & _ & Ha & _).
  destruct (paths_dequeued _ _ _ _ Hreach) as [rest Hrest].
  destruct Hinv as (_ & _ & _ & Hrep & Hnotes & _).
  unfold inv_count in Hcount. unfold inv_notes in Hnotes.
  pose proof (count_None_paths (binFiles a)) as Hpaths.
  assert (length (puts (trace s)) <= length (paths (binFiles a)))%nat as Hle.
  { rewrite Hrest, length_app. lia. }
  split; [lia|].
  cut ((forall n, writeProc s = RLoop n -> 0 <= n <= numBins)
       /\ exists k : nat,
           (k <= length (puts (trace s)))%nat
           /\ (written (stderr s) = [] \/ written (stderr s) = status_lines numBins k
               \/ written (stderr s) = status_lines numBins k ++ [LF])).
  { intros [H1 H2]. split_and!; [done|done|].
    intros [x|p e] Hc.
    - left. exists x. split; [done|]. unfold written.
      apply list_elem_of_omap. by exists (Written x).
    - right. apply Htb in Hc as (i & -> & Hi). by exists i, e. }
  unfold inv_report in Hrep. rewrite Ha in Hrep. fold numBins in Hrep.
  destruct (writeProc s) as [| |n| |e] eqn:Hw.
  - destruct Hrep as [_ Hst]. split; [done|]. exists 0%nat. split; [lia|]. by left.
  - destruct Hrep as [_ Hst]. split; [done|]. exists 0%nat. split; [lia|]. by left.
  - destruct Hrep as (ids & Hseen & Hn & Hst).
    rewrite Hseen, notes_Some in Hnotes.
    assert (length ids <= length (puts (trace s)))%nat as Hids.
    { rewrite <- Hnotes, length_app. lia. }
    split.
    + intros n' [= <-]. rewrite Hn. unfold numBins, len.
      destruct (verbose (finder s)); lia.
    + exists (length ids). split; [done|].
      destruct (verbose (finder s)); auto.
  - destruct Hrep as (ids & Hseen & Hst).
    rewrite Hseen, notes_app, notes_Some in Hnotes. simpl in Hnotes.
    rewrite app_nil_r in Hnotes.
    assert (length ids <= length (puts (trace s)))%nat as Hids.
    { rewrite <- Hnotes, length_app. lia. }
    split; [done|]. exists (length ids). split; [done|].
    destruct (verbose (finder s)); auto.
  - done.
Qed.

(** X8: the jobs in hand never need more threads than the finder was
    given: in every state of a run the workers that hold a job are at most
    as many as the workers and at most as many as the bins, and their
    number times the thread budget of line 45, which every search is run
    with, is at most [totalThreads]. *)
Theorem searches_within_budget (self : MarkerGeneFinder) (a : find_args)
    (world : gset string) (s : state models) :
  reachable self a world s ->
  let threads := Z.max 1 (totalThreads self / len (binFiles a)) in
  threadsPerSearch (finder s) = Some threads
  /\ (length (calcProc s ≫= wjob) <= length (calcProc s))%nat
  /\ (length (calcProc s ≫= wjob) <= length (binFiles a))%nat
  /\ threads * len (calcProc s ≫= wjob) <= Z.max 0 (totalThreads self).
Proof.
  intros Hreach threads.
  destruct (reachable_more _ _ _ _ Hreach) as (_ & Hcount & _).
  destruct (reachable_budget _ _ _ _ Hreach) as (Ht & _ & Hne).
  destruct (reachable_inv _ _ _ _ Hreach) as (s0 & _ & _ & _ & _ & Hlen).
  destruct (paths_dequeued _ _ _ _ Hreach) as [rest Hrest].
  pose proof (count_None_paths (binFiles a)) as Hpaths.
  pose proof (bind_wjob_length (calcProc s)) as Hw.
  unfold inv_count in Hcount.
  assert (length (calcProc s ≫= wjob) <= length (binFiles a))%nat as Hj.
  { rewrite Hrest, length_app in Hpaths. lia. }
  split_and!; try done.
  unfold threads, len in *.
  set (h := length (calcProc s ≫= wjob)) in *.
  set (J := length (binFiles a)) in *.
  set (W := totalThreads self) in *.
  assert (0 < J)%nat as HJ.
  { unfold J. destruct (binFiles a); [done|]. simpl. lia. }
  pose proof (Z.mul_div_le W (Z.of_nat J) ltac:(lia)) as Hq.
  destruct (Z_le_gt_dec W 0) as [HW|HW].
  - assert (h = 0)%nat as -> by lia. lia.
  - destruct (Z_le_gt_dec (W / Z.of_nat J) 1) as [Hq1|Hq1].
    + rewrite Z.max_l by lia. lia.
    + rewrite Z.max_r by lia. nia.
Qed.

(** *** The dictionary returned when nothing fails *)

Lemma find_returns self a world sched (d : gmap string models) :
  find self a world sched = Some (inr d) ->
  exists s0 s, find_start self a world = inr s0 /\ run sched s0 = Some s
               /\ main s = OReturn d.
Proof.
  unfold find. intros H.
  destruct (find_start self a world) as [e|s0]; [done|].
  destruct (run sched s0) as [s|] eqn:Hrun; [|done].
  destruct (main s) eqn:Hm; simplify_eq. by exists s0, s.
Qed.

Lemma ok_return_lookup self a world files sched (d : gmap string models) (b : string) :
  binFiles a = PyStr <$> files -> 1 <= totalThreads self -> no_failure sched ->
  find self a world sched = Some (inr d) ->
  d !! b
  = if decide (b ∈ binIdFromFilename <$> files)
    then Some (models_of (Z.max 1 (totalThreads self / len (binFiles a))) a b)
    else None.
Proof.
  intros Hfiles Ht Hok (s0 & s & Hs0 & Hrun & Hd)%find_returns.
  destruct (ok_return_facts _ _ _ _ _ _ _ _ Hs0 Hfiles Ht Hok Hrun Hd)
    as (_ & _ & _ & Hdd & Hdom).
  assert (reachable self a world s) as Hreach by (by exists s0, sched).
  destruct (reachable_more _ _ _ _ Hreach) as (_ & _ & Hval).
  destruct (reachable_budget _ _ _ _ Hreach) as (Hb & Ha & _).
  destruct (decide (b ∈ binIdFromFilename <$> files)) as [Hin|Hnin].
  - assert (b ∈ dom d) as [v Hv]%elem_of_dom
        by (rewrite Hdom; by apply elem_of_list_to_set).
    rewrite Hv. f_equal. rewrite Hdd in Hv.
    rewrite (Hval _ _ _ Hb Hv), Ha. done.
  - apply not_elem_of_dom. rewrite Hdom. by rewrite elem_of_list_to_set.
Qed.

(** X9: what [find] returns does not depend on the schedule: on bins none
    of which is [None], with at least one worker, any two runs in which no
    call fails return the same dictionary, the one that maps the identifier
    of every bin to the models of that identifier and holds no other key. *)
Theorem result_schedule_independent (self : MarkerGeneFinder) (a : find_args)
    (world : gset string) (files : list string) (sched1 sched2 : list (actor * bool))
    (d1 d2 : gmap string models) :
  binFiles a = PyStr <$> files -> 1 <= totalThreads self ->
  no_failure sched1 -> no_failure sched2 ->
  find self a world sched1 = Some (inr d1) ->
  find self a world sched2 = Some (inr d2) ->
  d1 = d2
  /\ forall b,
      d1 !! b
      = if decide (b ∈ binIdFromFilename <$> files)
        then Some (models_of (Z.max 1 (totalThreads self / len (binFiles a))) a b)
        else None.
Proof.
  intros Hfiles Ht Hok1 Hok2 H1 H2. split.
  - apply map_eq. intros b.
    rewrite (ok_return_lookup _ _ _ _ _ _ b Hfiles Ht Hok1 H1).
    rewrite (ok_return_lookup _ _ _ _ _ _ b Hfiles Ht Hok2 H2). done.
  - intros b. exact (ok_return_lookup _ _ _ _ _ _ b Hfiles Ht Hok1 H1).
Qed.

Lemma size_list_to_set_le (l : list string) :
  (size (list_to_set l : gset string) <= length l)%nat
  /\ (size (list_to_set l : gset string) = length l <-> NoDup l).
Proof.
  induction l as [|x l [IH1 IH2]].
  - rewrite list_to_set_nil, size_empty. split; [done|]. split; [constructor|done].
  - rewrite list_to_set_cons. cbn [length]. destruct (decide (x ∈ l)) as [Hin|Hnin].
    + assert ({[x]} ∪ list_to_set l = (list_to_set l : gset string)) as ->
          by set_solver.
      split; [lia|]. split; [lia|].
      intros Hnd. apply NoDup_cons in Hnd as [? _]. done.
    + rewrite size_union by set_solver. rewrite size_singleton.
      split; [lia|]. rewrite NoDup_cons. split.
      * intros Hsz. split; [done|]. apply IH2. lia.
      * intros [_ Hnd%IH2]. lia.
Qed.

(** X10: bins whose identifiers collide share one key: when no call fails,
    the dictionary returned has at most as many entries as there are bins,
    and exactly as many if and only if no two bins have the same
    identifier. *)
Theorem result_size_collisions (self : MarkerGeneFinder) (a : find_args)
    (world : gset string) (files : list string) (sched : list (actor * bool))
    (d : gmap string models) :
  binFiles a = PyStr <$> files -> 1 <= totalThreads self -> no_failure sched ->
  find self a world sched = Some (inr d) ->
  (size d <= length files)%nat
  /\ (size d = length files <-> NoDup (binIdFromFilename <$> files)).
Proof.
  intros Hfiles Ht Hok (s0 & s & Hs0 & Hrun & Hd)%find_returns.
  destruct (ok_return_facts _ _ _ _ _ _ _ _ Hs0 Hfiles Ht Hok Hrun Hd)
    as (_ & _ & _ & _ & Hdom).
  pose proof (size_list_to_set_le (binIdFromFilename <$> files)) as [Hle Hiff].
  rewrite <- Hdom, size_dom, length_fmap in Hle, Hiff. done.
Qed.

(** *** The reporter's division *)

Lemma reportLoop_quiet (n : Z) (numBins : pynum) (queueIn : list (option string)) :
  reportLoop false n numBins queueIn = inr [].
Proof. induction queueIn as [|[x|] q IH]; simpl; done. Qed.

(** X11: the division of lines 127 and 138 is by [numBins]. Called on zero
    bins, the reporter raises [ZeroDivisionError] on its first status line,
    before it dequeues anything, when the level is [INFO] or below, and
    writes nothing and raises nothing when the level is above, whatever is
    queued. In a run of [find] the reporter never ends by an exception,
    since line 45 has divided by the same number before. *)
Theorem reporter_division (self : MarkerGeneFinder) (queueIn : list (option string)) :
  reportProgress self 0 queueIn
  = (if verbose self then inl ZeroDivisionError else inr [])
  /\ (forall numBins, verbose self = false ->
                      reportProgress self numBins queueIn = inr [])
  /\ forall (a : find_args) (world : gset string) (s : state models) (e : exn),
      reachable self a world s -> writeProc s <> RRaised e.
Proof.
  split_and!.
  - unfold reportProgress. destruct (verbose self); [done|]. apply reportLoop_quiet.
  - intros numBins Hv. unfold reportProgress. rewrite Hv. apply reportLoop_quiet.
  - intros a world s e Hreach Hw.
    destruct (reachable_inv _ _ _ _ Hreach) as (s0 & _ & Hinv & _).
    destruct Hinv as (_ & _ & _ & Hrep & _).
    unfold inv_report in Hrep. by rewrite Hw in Hrep.
Qed.

(** *** Where the results of a bin go *)

Lemma append_cancel_l (x a b : string) : x +:+ a = x +:+ b -> a = b.
Proof.
  induction x as [|c x IH]; [done|]. rewrite !append_cons. intros [= H]. auto.
Qed.

Lemma append_empty (x y : string) : x +:+ y = "" -> y = "".
Proof. destruct x as [|c x]; [done|]. rewrite append_cons. discriminate. Qed.

Lemma ends_with_slash_app (x y : string) :
  y <> "" -> ends_with_slash (x +:+ y) = ends_with_slash y.
Proof.
  intros Hy. induction x as [|c x IH]; [done|]. rewrite append_cons.
  destruct (x +:+ y) as [|c' z] eqn:Hz; [by apply append_empty in Hz|].
  by change (ends_with_slash (String c (String c' z)))
    with (ends_with_slash (String c' z)).
Qed.

(** X12: the directory of a bin, lines 90-91. For an identifier that does
    not start with a slash it is [outDir], a slash unless [outDir] is empty
    or ends in one, then ['bins/'] and the identifier; so two such bins
    share their directory, and with it the gene calls and the search
    outputs, exactly when their identifiers are equal. For an identifier
    that starts with a slash, [os.path.join] drops [outDir]: the directory
    is the identifier itself. *)
Theorem bin_directory_layout (a : find_args) (f1 f2 : string) :
  starts_with_slash (binIdFromFilename f1) = false ->
  starts_with_slash (binIdFromFilename f2) = false ->
  let sep := if (String.eqb (outDir a) "" || ends_with_slash (outDir a))%bool
             then "" else "/" in
  binDir_of a f1 = outDir a +:+ sep +:+ "bins/" +:+ binIdFromFilename f1
  /\ (binDir_of a f1 = binDir_of a f2
      <-> binIdFromFilename f1 = binIdFromFilename f2)
  /\ forall f, starts_with_slash (binIdFromFilename f) = true ->
               binDir_of a f = binIdFromFilename f.
Proof.
  intros H1 H2 sep.
  assert (forall f, starts_with_slash (binIdFromFilename f) = false ->
                    binDir_of a f
                    = outDir a +:+ sep +:+ "bins/" +:+ binIdFromFilename f) as Hlay.
  { intros f Hf. unfold binDir_of, path_join. cbn [fold_left].
    assert (path_join2 (outDir a) "bins" = outDir a +:+ sep +:+ "bins") as ->.
    { unfold path_join2, sep. change (starts_with_slash "bins") with false. cbv iota.
      by destruct (String.eqb (outDir a) "" || ends_with_slash (outDir a))%bool. }
    assert (sep +:+ "bins" <> "") as Hne by (unfold sep; by case_match).
    unfold path_join2. rewrite Hf.
    rewrite ends_with_slash_app by done.
    assert (ends_with_slash (sep +:+ "bins") = false) as ->
        by (unfold sep; by case_match).
    destruct (String.eqb (outDir a +:+ sep +:+ "bins") "") eqn:He.
    { apply String.eqb_eq, append_empty in He. done. }
    cbn [orb]. rewrite !append_assoc_L. done. }
  split_and!.
  - by apply Hlay.
  - rewrite !Hlay by done. split; [|by intros ->].
    intros H. by do 3 apply append_cancel_l in H.
  - intros f Hf. unfold binDir_of, path_join. cbn [fold_left].
    unfold path_join2 at 1. by rewrite Hf.
Qed.

(** *** A call that fails *)

(** X13: a worker ended by an exception. When a step of a worker in a run
    of [find] ends it by an exception, the runtime prints the traceback to
    the diagnostic stream and nothing else changes: both queues, the
    dictionary, the orchestrator and the reporter are as before, nothing is
    dequeued or notified. The worker never moves again, so it notifies
    nothing more and takes no further bin, while the run can still reach
    the return of [find] with the reporter ended. *)
Theorem failing_call_ends_worker (self : MarkerGeneFinder) (a : find_args)
    (world : gset string) (s s' : state models) (i : nat) (ok : bool) (e : exn) :
  reachable self a world s -> step (Calc i) ok s = Some s' ->
  calcProc s' !! i = Some (WRaised e) ->
  calcProc s' = <[i:=WRaised e]> (calcProc s)
  /\ stderr s' = stderr s ++ [Traceback (Calc i) e]
  /\ workerQueue s' = workerQueue s /\ writerQueue s' = writerQueue s
  /\ binIdToModels s' = binIdToModels s
  /\ gets (trace s') = gets (trace s) /\ puts (trace s') = puts (trace s)
  /\ main s' = main s /\ writeProc s' = writeProc s
  /\ (exists sched s'' d,
         no_failure sched /\ run sched s' = Some s'' /\ main s'' = OReturn d
         /\ writeProc s'' = RExit)
  /\ forall sched s'',
      run sched s' = Some s'' ->
      calcProc s'' !! i = Some (WRaised e)
      /\ (forall ok', step (Calc i) ok' s'' = None)
      /\ forall b, EvPut i b ∈ trace s'' -> EvPut i b ∈ trace s.
Proof.
  intros Hreach Hs Hi'.
  destruct (reachable_inv _ _ _ _ Hreach) as (s0 & _ & Hinv & _).
  pose proof (inv_step _ _ _ _ _ Hinv Hs) as Hinv'.
  pose proof Hinv' as (_ & Hmain' & _).
  assert (calcProc s' = <[i:=WRaised e]> (calcProc s)
          /\ stderr s' = stderr s ++ [Traceback (Calc i) e]
          /\ workerQueue s' = workerQueue s /\ writerQueue s' = writerQueue s
          /\ binIdToModels s' = binIdToModels s
          /\ gets (trace s') = gets (trace s) /\ puts (trace s') = puts (trace s)
          /\ main s' = main s /\ writeProc s' = writeProc s
          /\ forall b, EvPut i b ∈ trace s' -> EvPut i b ∈ trace s)
    as (H1 & H2 & H3 & H4 & H5 & H6 & H7 & H8 & H9 & H10).
  { simpl in Hs. unfold step_calc in Hs.
    destruct (calcProc s !! i) as [pc|] eqn:Hi; [|done].
    pose proof (lookup_lt_Some _ _ _ Hi) as Hlt.
    destruct pc; simplify_eq/=; repeat (case_match; simplify_eq/=; try done);
      rewrite list_lookup_insert_eq in Hi' by done; simplify_eq/=;
      trace_simpl; split_and!; eauto; set_solver. }
  split_and!; try done.
  - destruct (run_to_return _ _ Hinv') as (sched & s'' & d & Hok & Hrun & Hd).
    pose proof (inv_run _ _ _ _ Hinv' Hrun) as Hinv''.
    exists sched, s'', d. split_and!; try done.
    pose proof Hinv'' as (_ & _ & Hsent & _).
    unfold inv_sentinel in Hsent. rewrite Hd in Hsent. destruct Hsent as [_ Hrf].
    by destruct (reporter_done _ _ Hinv'' Hrf) as (? & _).
  - intros sched s'' Hrun.
    destruct (raised_stays_run i e sched _ s'' Hmain' Hi' Hrun) as [Hi'' Hputs].
    split_and!; [done| |].
    + intros ok'. simpl. unfold step_calc. by rewrite Hi''.
    + intros b Hb. by apply H10, Hputs.
Qed.

(** *** The message logged *)

Lemma logs_step a ok s s' :
  step a ok s = Some s' -> logs (trace s') = logs (trace s).
Proof.
  intros H. unfold logs.
  destruct a as [|i|]; simpl in H.
  - by pose proof (step_main_frame _ _ H) as (_ & -> & _).
  - step_cases; rewrite ?omap_app; simpl; by rewrite ?app_nil_r.
  - step_cases; rewrite ?omap_app; simpl; by rewrite ?app_nil_r.
Qed.

(** X14: line 46. [find] hands one message to [logger.info], before any
    process exists: ['  Identifying marker genes in <N> bins with <T>
    threads:'] with [N] the number of bins and [T] the finder's
    [totalThreads]. With the level at [INFO] or below it is the first entry
    of the record of every run and the only message logged; with the level
    above, nothing is logged. *)
Theorem info_logged_once (self : MarkerGeneFinder) (a : find_args)
    (world : gset string) (s : state models) :
  reachable self a world s ->
  let msg := "  Identifying marker genes in " +:+ str (len (binFiles a))
             +:+ " bins with " +:+ str (totalThreads self) +:+ " threads:" in
  logs (trace s) = (if verbose self then [msg] else [])
  /\ (verbose self = true -> head (trace s) = Some (EvLogInfo msg)).
Proof.
  intros (s0 & sched & Hs0 & Hrun) msg.
  pose proof (find_start_trace _ _ _ _ Hs0) as Htr.
  change msg with (infoMsg (len (binFiles a)) (totalThreads self)).
  split.
  - transitivity (logs (trace s0)).
    + apply (run_invariant (fun s1 => logs (trace s1) = logs (trace s0)))
        with sched s0; [|done|done].
      intros x ok s1 s2 H1 Hs. rewrite <- H1. by eapply logs_step.
    + rewrite Htr. by destruct (verbose self).
  - intros Hv. rewrite Hv in Htr.
    destruct (run_trace _ _ _ Hrun) as [tr ->]. by rewrite Htr.
Qed.
End FinderFacts.

(** ** The theorems at work on four bins and eight threads *)

Lemma reachable_state_after (self : MarkerGeneFinder) (a : find_args)
    (world : gset string) (sched : list (actor * bool)) :
  binFiles a <> [] ->
  is_Some (run sched (start_state (models:=string) self a world)) ->
  reachable self a world (state_after (models:=string) self a world sched).
Proof.
  intros Hb [s Hs]. unfold state_after, start_state in *.
  destruct (find_start (models:=string) self a world) as [e|s0] eqn:Hs0.
  - apply find_start_inl in Hs0 as [? _]. done.
  - exists s0, sched. split; [done|]. by rewrite Hs.
Defined.

Lemma result_keys_complete_witness :
  exists s0 : state string,
    find_start (init logging_INFO 8) (example_args (PyStr <$> four_bins) false) ∅
    = inr s0
    /\ (exists sched d,
           no_failure sched
           /\ find (init logging_INFO 8) (example_args (PyStr <$> four_bins) false)
                ∅ sched = Some (inr d))
    /\ forall sched s d,
        no_failure sched -> run sched s0 = Some s -> main s = OReturn d ->
        dom d = list_to_set (binIdFromFilename <$> four_bins)
        /\ d = binIdToModels s
        /\ paths (gets (trace s)) = four_bins
        /\ stores (trace s) ≡ₚ binIdFromFilename <$> four_bins
        /\ puts (trace s) ≡ₚ binIdFromFilename <$> four_bins.
Proof.
  apply (result_keys_complete (init logging_INFO 8)
           (example_args (PyStr <$> four_bins) false) ∅ four_bins);
    [reflexivity|discriminate|vm_compute; discriminate].
Defined.

Lemma thread_budget_fixed_witness :
  exists (s0 : state string) (q : Z),
    find_start (init logging_INFO 8)
      (example_args [PyStr "a.fa"; PyStr "b.fa"; PyStr "c.fa"] true) ∅ = inr s0
    /\ threadsPerSearch (finder s0) = Some (Z.max 1 q)
    /\ q * 3 <= 8 < (q + 1) * 3
    /\ 1 <= Z.max 1 q
    /\ (8 = 8 -> 3 = 3 -> Z.max 1 q = 2)
    /\ (8 = 2 -> 3 = 5 -> Z.max 1 q = 1)
    /\ (8 = 10 -> 3 = 1 -> Z.max 1 q = 10)
    /\ forall sched s, run sched s0 = Some s ->
                       threadsPerSearch (finder s) = Some (Z.max 1 q).
Proof.
  apply (thread_budget_fixed (init logging_INFO 8)
           (example_args [PyStr "a.fa"; PyStr "b.fa"; PyStr "c.fa"] true) ∅);
    [vm_compute; discriminate|discriminate].
Defined.

Lemma dispatch_queue_seeded_witness :
  let self := init logging_INFO 8 in
  let a := example_args (PyStr <$> four_bins) false in
  let s0 : state string := start_state self a ∅ in
  workerQueue s0 = binFiles a ++ replicate 8 PyNone
  /\ length (calcProc s0) = 8%nat
  /\ forall sched s,
      run sched s0 = Some s ->
      length (calcProc s) = 8%nat
      /\ (length sched <= measure s0)%nat
      /\ ((forall k, main s <> OStartCalc k) -> main s <> OStartWriter ->
          Forall (fun pc => pc <> WNew) (calcProc s))
      /\ (forall i, calcProc s !! i = Some WExit -> EvGet i PyNone ∈ trace s)
      /\ forall i pc,
          calcProc s !! i = Some pc -> pc <> WNew -> wfinished pc = false ->
          PyNone ∈ workerQueue s
          /\ (forall ok, is_Some (step (Calc i) ok s))
          /\ exists n s', run (replicate n (Calc i, true)) s = Some s'
                          /\ calcProc s' !! i = Some WExit
                          /\ EvGet i PyNone ∈ trace s'.
Proof.
  exact (dispatch_queue_seeded (init logging_INFO 8)
           (example_args (PyStr <$> four_bins) false) ∅
           (start_state (init logging_INFO 8)
              (example_args (PyStr <$> four_bins) false) ∅) eq_refl).
Defined.

Lemma completion_sentinel_after_join_witness :
  let self := init logging_INFO 8 in
  let a := example_args (PyStr <$> four_bins) false in
  let s : state string := state_after self a ∅ (serial_schedule 4 8) in
  (main s = OPutNone ->
   Forall (fun pc => wfinished pc = true) (calcProc s)
   /\ (None ∉ writerQueue s) /\ (None ∉ seens (trace s))
   /\ notes (seens (trace s)) ++ notes (writerQueue s) = puts (trace s)
   /\ exists s', step Main true s = Some s'
                 /\ writerQueue s' = writerQueue s ++ [None]
                 /\ main s' = OJoinWriter)
  /\ ((None ∈ writerQueue s \/ None ∈ seens (trace s)) ->
      Forall (fun pc => wfinished pc = true) (calcProc s)
      /\ forall sched s', run sched s = Some s' -> puts (trace s') = puts (trace s))
  /\ (rfinished (writeProc s) = true ->
      writeProc s = RExit
      /\ seens (trace s) = (Some <$> puts (trace s)) ++ [None])
  /\ exists sched s' d,
      no_failure sched /\ run sched s = Some s' /\ main s' = OReturn d
      /\ writeProc s' = RExit.
Proof.
  apply (completion_sentinel_after_join (init logging_INFO 8)
           (example_args (PyStr <$> four_bins) false) ∅).
  apply reachable_state_after; [discriminate|]. vm_compute. eexists. reflexivity.
Defined.

Lemma gene_caller_iff_missing_witness :
  let self := init logging_INFO 8 in
  let a := example_args (PyStr <$> four_bins) false in
  let s : state string := state_after self a ∅ until_prodigal in
  let s' : state string := state_after self a ∅ (until_prodigal ++ [(Calc 0%nat, true)]) in
  let binDir := binDir_of a "in/a.fa" in
  (binDir ∈ orfs s ->
   trace s' = trace s /\ calcProc s' = <[0%nat:=WModels "in/a.fa"]> (calcProc s))
  /\ (binDir ∉ orfs s ->
      trace s' = trace s ++ [EvProdigalRun 0 binDir "in/a.fa" (bNucORFs a)]
      /\ calcProc s' = <[0%nat:=WModels "in/a.fa"]> (calcProc s)
      /\ (true = true -> binDir ∈ orfs s'))
  /\ (prodigal_runs (trace s') <> prodigal_runs (trace s) <-> binDir ∉ orfs s)
  /\ ∅ ⊆ orfs s
  /\ forall d, d ∈ prodigal_runs (trace s') -> d ∉ (∅ : gset string).
Proof.
  apply (gene_caller_iff_missing (init logging_INFO 8)
           (example_args (PyStr <$> four_bins) false) ∅
           (state_after (init logging_INFO 8)
              (example_args (PyStr <$> four_bins) false) ∅ until_prodigal)
           (state_after (init logging_INFO 8)
              (example_args (PyStr <$> four_bins) false) ∅
              (until_prodigal ++ [(Calc 0%nat, true)]))
           0%nat "in/a.fa" true).
  - apply reachable_state_after; [discriminate|]. vm_compute. eexists. reflexivity.
  - vm_compute. reflexivity.
  - vm_compute. reflexivity.
Defined.


Lemma remove_failure_ends_worker_witness :
  let self := init logging_INFO 1 in
  let a := example_args [PyStr "in/a.fa"; PyStr "in/b.fa"] false in
  let s : state string := state_after self a ∅ until_remove in
  let s' : state string := state_after self a ∅ (until_remove ++ [(Calc 0%nat, false)]) in
  calcProc s' = <[0%nat:=WRaised OSError]> (calcProc s)
  /\ trace s' = trace s ++ [EvRemove 0 "/tmp/a.hmm"]
  /\ writerQueue s' = writerQueue s /\ workerQueue s' = workerQueue s
  /\ stderr s' = stderr s ++ [Traceback (Calc 0) OSError]
  /\ binIdToModels s' = binIdToModels s
  /\ binIdFromFilename "in/a.fa" ∈ dom (binIdToModels s')
  /\ main s' = main s /\ writeProc s' = writeProc s
  /\ (forall x ok, x <> Calc 0 -> is_Some (step x ok s) -> is_Some (step x ok s'))
  /\ (exists sched s'' d,
         no_failure sched /\ run sched s' = Some s'' /\ main s'' = OReturn d
         /\ writeProc s'' = RExit /\ binIdFromFilename "in/a.fa" ∈ dom d)
  /\ forall sched s'',
      run sched s' = Some s'' ->
      calcProc s'' !! 0%nat = Some (WRaised OSError)
      /\ (forall ok, step (Calc 0) ok s'' = None)
      /\ forall b, EvPut 0 b ∈ trace s'' -> EvPut 0 b ∈ trace s.
Proof.
  intros self a s s'.
  apply (remove_failure_ends_worker self a ∅ s s' 0%nat "in/a.fa" "/tmp/a.hmm").
  - apply reachable_state_after; [discriminate|]. vm_compute. eexists. reflexivity.
  - vm_compute. reflexivity.
  - vm_compute. reflexivity.
Defined.

Lemma progress_report_witness :
  let self := init logging_INFO 8 in
  let ids := ["a"; "b"; "c"; "d"] in
  reportProgress self 4 ((Some <$> ids) ++ [None])
  = inr (if verbose self then status_lines 4 (length ids) ++ [LF] else [])
  /\ length (status_lines 4 (length ids)) = S (length ids)
  /\ (forall k : nat,
         (k <= length ids)%nat ->
         status_lines 4 (length ids) !! k
         = Some ("    Finished processing " +:+ str (Z.of_nat k) +:+ " of "
                 +:+ str 4 +:+ " (" +:+ fmt_2f (percent (Z.of_nat k) 4)
                 +:+ "%) bins." +:+ CR))
  /\ (4 = len ids -> 4 < 2 ^ 1000 -> fmt_2f (percent (len ids) 4) = "100.00")
  /\ forall (a : find_args) (world : gset string) (s : state string),
      reachable self a world s -> writeProc s = RExit ->
      4 = len (binFiles a) ->
      written (stderr s)
      = (if verbose self
         then status_lines 4 (length (puts (trace s))) ++ [LF]
         else []).
Proof.
  intros self ids.
  apply (progress_report (models:=string) self (PyInt 4) ids).
  - discriminate.
  - discriminate.
Defined.


(** ** Where the code departs from the sentences about it *)

(** [find] on no bins does not refuse with an error of its own: the division
    of line 45 is attempted and raises. *)
Lemma find_no_bins_divides_by_zero :
  find (models:=string) (init logging_INFO 4) (example_args [] false) ∅ []
  = Some (inl ZeroDivisionError)
  /\ py_div 4 (len (binFiles (example_args [] false))) = inl ZeroDivisionError.
Proof. split; reflexivity. Qed.

(** [os.remove] failing on the first of two bins, with one worker: the
    worker ends with the error, the first bin is never notified as done and
    the second is never taken off the queue. *)
Lemma remove_failure_is_fatal_to_worker :
  let s : state string :=
    state_after (init logging_INFO 1)
      (example_args [PyStr "in/a.fa"; PyStr "in/b.fa"] false) ∅ remove_fails in
  run remove_fails
    (start_state (init logging_INFO 1)
       (example_args [PyStr "in/a.fa"; PyStr "in/b.fa"] false) ∅) = Some s
  /\ calcProc s = [WRaised OSError]
  /\ puts (trace s) = []
  /\ ~ (Some "a" ∈ seens (trace s))
  /\ workerQueue s = [PyStr "in/b.fa"; PyNone]
  /\ gets (trace s) = [PyStr "in/a.fa"]
  /\ main s = OReturn {["a" := "/tmp/a.hmm"]}.
Proof.
  vm_compute. split_and!; try reflexivity.
  intros H. apply list_elem_of_In in H. simpl in H. destruct H as [H|[]]. discriminate.
Qed.

(** One bin, level [INFO]: the reporter writes two status lines for the one
    completion, not one. *)
Lemma one_completion_two_status_lines :
  reportProgress (init logging_INFO 1) 1 [Some "a"; None]
  = inr ["    Finished processing 0 of 1 (0.00%) bins." +:+ CR;
         "    Finished processing 1 of 1 (100.00%) bins." +:+ CR; LF]
  /\ reportProgress (init logging_INFO 1) 1 [Some "a"; None]
     <> inr ["    Finished processing 1 of 1 (100.00%) bins." +:+ CR; LF].
Proof. split; [vm_compute; reflexivity|vm_compute; discriminate]. Qed.

(** ** The further properties, on the concrete setting *)

Lemma queues_drained_witness :
  let self := init logging_INFO 8 in
  let a := example_args (PyStr <$> four_bins) false in
  let s : state string := state_after self a ∅ (serial_schedule 4 8) in
  workerQueue s = [] /\ writerQueue s = []
  /\ gets (trace s)
     = (PyStr <$> four_bins) ++ replicate (Z.to_nat (totalThreads self)) PyNone
  /\ Forall (fun pc => pc = WExit) (calcProc s)
  /\ length (calcProc s) = Z.to_nat (totalThreads self).
Proof.
  intros self a s.
  apply (queues_drained self a ∅ four_bins (start_state self a ∅) s
           (serial_schedule 4 8) (binIdToModels s)).
  - reflexivity.
  - reflexivity.
  - vm_compute; discriminate.
  - unfold no_failure, serial_schedule. simpl. repeat constructor.
  - vm_compute. reflexivity.
  - vm_compute. reflexivity.
Defined.

Lemma sentinels_conserved_witness :
  let self := init logging_INFO 1 in
  let a := example_args [PyStr "in/a.fa"; PyStr "in/b.fa"] false in
  let s : state string := state_after self a ∅ remove_fails in
  (count_None (workerQueue s) + exited (calcProc s)
   = Z.to_nat (totalThreads self) + count_None (binFiles a))%nat.
Proof.
  intros self a s. apply (sentinels_conserved self a ∅ s).
  apply reachable_state_after; [discriminate|]. vm_compute. eexists. reflexivity.
Defined.

Lemma no_threads_no_work_witness :
  let self := init logging_INFO 0 in
  let a := example_args (PyStr <$> four_bins) false in
  exists s0 : state string,
    find_start self a ∅ = inr s0
    /\ threadsPerSearch (finder s0) = Some 1
    /\ calcProc s0 = [] /\ workerQueue s0 = binFiles a
    /\ (forall sched s,
           run sched s0 = Some s ->
           calcProc s = [] /\ workerQueue s = binFiles a /\ binIdToModels s = ∅
           /\ gets (trace s) = [] /\ puts (trace s) = []
           /\ forall d, main s = OReturn d -> d = ∅)
    /\ exists sched, no_failure sched /\ find self a ∅ sched = Some (inr ∅).
Proof.
  intros self a.
  apply (no_threads_no_work self a ∅); [vm_compute; discriminate|discriminate].
Defined.

Lemma return_is_quiescent_witness :
  let self := init logging_INFO 1 in
  let a := example_args [PyStr "in/a.fa"; PyStr "in/b.fa"] false in
  let s : state string := state_after self a ∅ remove_fails in
  let d := binIdToModels s in
  d = binIdToModels s
  /\ Forall (fun pc => wfinished pc = true) (calcProc s)
  /\ writeProc s = RExit /\ writerQueue s = []
  /\ seens (trace s) = (Some <$> puts (trace s)) ++ [None]
  /\ (forall x ok, step x ok s = None)
  /\ forall sched s', run sched s = Some s' -> sched = [] /\ s' = s.
Proof.
  intros self a s d. apply (return_is_quiescent self a ∅ s d).
  - apply reachable_state_after; [discriminate|]. vm_compute. eexists. reflexivity.
  - vm_compute. reflexivity.
Defined.

Lemma stored_models_witness :
  let self := init logging_INFO 1 in
  let a := example_args [PyStr "in/a.fa"; PyStr "in/b.fa"] false in
  "/tmp/a.hmm" = models_of (Z.max 1 (totalThreads self / len (binFiles a))) a "a"
  /\ exists f, PyStr f ∈ binFiles a /\ "a" = binIdFromFilename f.
Proof.
  intros self a.
  apply (stored_models self a ∅ (state_after self a ∅ remove_fails) "a" "/tmp/a.hmm").
  - apply reachable_state_after; [discriminate|]. vm_compute. eexists. reflexivity.
  - vm_compute. reflexivity.
Defined.

Lemma notified_is_stored_witness :
  let self := init logging_INFO 8 in
  let a := example_args (PyStr <$> four_bins) false in
  let s : state string := state_after self a ∅ (serial_schedule 4 8) in
  exists v, binIdToModels s !! "a" = Some v
            /\ forall sched s', run sched s = Some s' ->
                                "a" ∈ puts (trace s')
                                /\ binIdToModels s' !! "a" = Some v.
Proof.
  intros self a s. apply (notified_is_stored self a ∅ s "a").
  - apply reachable_state_after; [discriminate|]. vm_compute. eexists. reflexivity.
  - apply list_elem_of_In. vm_compute. left. reflexivity.
Defined.

Lemma progress_bounded_witness :
  let self := init logging_INFO 1 in
  let a := example_args [PyStr "in/a.fa"; PyStr "in/b.fa"] false in
  let s : state string := state_after self a ∅ remove_fails in
  let numBins := len (binFiles a) in
  (length (puts (trace s)) <= length (paths (binFiles a)) <= length (binFiles a))%nat
  /\ (forall n, writeProc s = RLoop n -> 0 <= n <= numBins)
  /\ (exists k : nat,
         (k <= length (puts (trace s)))%nat
         /\ (written (stderr s) = [] \/ written (stderr s) = status_lines numBins k
             \/ written (stderr s) = status_lines numBins k ++ [LF]))
  /\ forall c, c ∈ stderr s ->
               (exists x, c = Written x /\ x ∈ written (stderr s))
               \/ (exists i e, c = Traceback (Calc i) e
                               /\ calcProc s !! i = Some (WRaised e)).
Proof.
  intros self a s. apply (progress_bounded self a ∅ s).
  apply reachable_state_after; [discriminate|]. vm_compute. eexists. reflexivity.
Defined.

Lemma searches_within_budget_witness :
  let self := init logging_INFO 8 in
  let a := example_args (PyStr <$> four_bins) false in
  let s : state string := state_after self a ∅ until_remove in
  let threads := Z.max 1 (totalThreads self / len (binFiles a)) in
  threadsPerSearch (finder s) = Some threads
  /\ (length (calcProc s ≫= wjob) <= length (calcProc s))%nat
  /\ (length (calcProc s ≫= wjob) <= length (binFiles a))%nat
  /\ threads * len (calcProc s ≫= wjob) <= Z.max 0 (totalThreads self).
Proof.
  intros self a s. apply (searches_within_budget self a ∅ s).
  apply reachable_state_after; [discriminate|]. vm_compute. eexists. reflexivity.
Defined.

Lemma result_schedule_independent_witness :
  let self := init logging_INFO 2 in
  let a := example_args (PyStr <$> four_bins) false in
  let d1 : gmap string string :=
    binIdToModels (state_after self a ∅ (serial_schedule 4 2)) in
  let d2 : gmap string string :=
    binIdToModels (state_after self a ∅ (interleaved_schedule 2)) in
  d1 = d2
  /\ forall b,
      d1 !! b
      = if decide (b ∈ binIdFromFilename <$> four_bins)
        then Some (models_of (Z.max 1 (totalThreads self / len (binFiles a))) a b)
        else None.
Proof.
  intros self a d1 d2.
  apply (result_schedule_independent self a ∅ four_bins
           (serial_schedule 4 2) (interleaved_schedule 2) d1 d2).
  - reflexivity.
  - vm_compute; discriminate.
  - unfold no_failure, serial_schedule. simpl. repeat constructor.
  - unfold no_failure, interleaved_schedule. simpl. repeat constructor.
  - vm_compute. reflexivity.
  - vm_compute. reflexivity.
Defined.

Lemma result_size_collisions_witness :
  let self := init logging_INFO 2 in
  let a := example_args (PyStr <$> colliding_bins) false in
  let d : gmap string string :=
    binIdToModels (state_after self a ∅ (serial_schedule 3 2)) in
  (size d <= length colliding_bins)%nat
  /\ (size d = length colliding_bins
      <-> NoDup (binIdFromFilename <$> colliding_bins)).
Proof.
  intros self a d.
  apply (result_size_collisions self a ∅ colliding_bins (serial_schedule 3 2) d).
  - reflexivity.
  - vm_compute; discriminate.
  - unfold no_failure, serial_schedule. simpl. repeat constructor.
  - vm_compute. reflexivity.
Defined.

Lemma bin_directory_layout_witness :
  let a := example_args (PyStr <$> four_bins) false in
  let sep := if (String.eqb (outDir a) "" || ends_with_slash (outDir a))%bool
             then "" else "/" in
  binDir_of a "in/a.fa" = outDir a +:+ sep +:+ "bins/" +:+ binIdFromFilename "in/a.fa"
  /\ (binDir_of a "in/a.fa" = binDir_of a "in/b.fa"
      <-> binIdFromFilename "in/a.fa" = binIdFromFilename "in/b.fa")
  /\ forall f, starts_with_slash (binIdFromFilename f) = true ->
               binDir_of a f = binIdFromFilename f.
Proof.
  intros a.
  apply (bin_directory_layout (models:=string) a "in/a.fa" "in/b.fa"); reflexivity.
Defined.

Lemma failing_call_ends_worker_witness :
  let self := init logging_INFO 1 in
  let a := example_args (PyStr <$> four_bins) false in
  let s : state string := state_after self a ∅ until_mkdir in
  let s' : state string := state_after self a ∅ (until_mkdir ++ [(Calc 0%nat, false)]) in
  calcProc s' = <[0%nat:=WRaised OSError]> (calcProc s)
  /\ stderr s' = stderr s ++ [Traceback (Calc 0) OSError]
  /\ workerQueue s' = workerQueue s /\ writerQueue s' = writerQueue s
  /\ binIdToModels s' = binIdToModels s
  /\ gets (trace s') = gets (trace s) /\ puts (trace s') = puts (trace s)
  /\ main s' = main s /\ writeProc s' = writeProc s
  /\ (exists sched s'' d,
         no_failure sched /\ run sched s' = Some s'' /\ main s'' = OReturn d
         /\ writeProc s'' = RExit)
  /\ forall sched s'',
      run sched s' = Some s'' ->
      calcProc s'' !! 0%nat = Some (WRaised OSError)
      /\ (forall ok', step (Calc 0) ok' s'' = None)
      /\ forall b, EvPut 0 b ∈ trace s'' -> EvPut 0 b ∈ trace s.
Proof.
  intros self a s s'.
  apply (failing_call_ends_worker self a ∅ s s' 0%nat false OSError).
  - apply reachable_state_after; [discriminate|]. vm_compute. eexists. reflexivity.
  - vm_compute. reflexivity.
  - vm_compute. reflexivity.
Defined.

Lemma info_logged_once_witness :
  let self := init logging_INFO 8 in
  let a := example_args (PyStr <$> four_bins) false in
  let s : state string := state_after self a ∅ (serial_schedule 4 8) in
  let msg := "  Identifying marker genes in " +:+ str (len (binFiles a))
             +:+ " bins with " +:+ str (totalThreads self) +:+ " threads:" in
  logs (trace s) = (if verbose self then [msg] else [])
  /\ (verbose self = true -> head (trace s) = Some (EvLogInfo msg)).
Proof.
  intros self a s. apply (info_logged_once self a ∅ s).
  apply reachable_state_after; [discriminate|]. vm_compute. eexists. reflexivity.
Defined.
